(** * HDCP 1.x authentication engine of the i915 driver (intel_hdcp.c)

    A shallow embedding of drivers/gpu/drm/i915/intel_hdcp.c: the KSV
    validator, the SRM revocation store, the two authentication phases with
    the SHA-1 text framer, the link check and the enable/disable entry points,
    followed by the properties of the specification that were checked on it. *)

From Stdlib Require Import ZArith String List Bool Lia.
Import ListNotations.
Open Scope Z_scope.

(** ** Machine integers *)

Module Mach.

Definition u8 (x : Z) : Z := x mod 2 ^ 8.
Definition u32 (x : Z) : Z := x mod 2 ^ 32.
Definition u64 (x : Z) : Z := x mod 2 ^ 64.

(** A C [int]: two's complement on 32 bits. *)
Definition s32 (x : Z) : Z :=
  let w := x mod 2 ^ 32 in if w <? 2 ^ 31 then w else w - 2 ^ 32.

(** C truth value of an integer expression. *)
Definition truthy (x : Z) : bool := negb (x =? 0).

End Mach.
Import Mach.

(** ** Constants *)

(** Modelled from the spec: DRM_HDCP_KSV_LEN is declared in drm_hdcp.h, which
    is not among the sources; the spec fixes a KSV at 5 bytes (40 bits), and
    the length computation of the framer spells the same 5 out. *)
Definition DRM_HDCP_KSV_LEN : Z := 5.

(** errno values of the kernel's errno-base.h and errno.h. *)
Definition EPERM : Z := 1.
Definition ENOENT : Z := 2.
Definition ENXIO : Z := 6.
Definition ENOMEM : Z := 12.
Definition ENODEV : Z := 19.
Definition EINVAL : Z := 22.
Definition ETIMEDOUT : Z := 110.

(** ** Byte buffers

    A [u8 *] is a buffer together with an offset into it.  A read inside the
    buffer yields the byte stored there, as a u8. *)

Definition byte_at (buf : list Z) (off : Z) : Z :=
  if off <? 0 then 0 else u8 (nth (Z.to_nat off) buf 0).

(** ** KSV validator *)

(** Modelled from the spec: hweight8 is the kernel's population count of an
    8-bit value (linux/bitops.h, not among the sources). *)
Definition hweight8 (w : Z) : Z :=
  fold_left (fun acc i => acc + Z.b2z (Z.testbit w (Z.of_nat i))) (seq 0 8) 0.

(** [for (i = 0; i < DRM_HDCP_KSV_LEN; i++) ones += hweight8(ksv[i]);] *)
Definition ksv_ones (ksv : list Z) : Z :=
  fold_left (fun ones i => s32 (ones + hweight8 (byte_at ksv (Z.of_nat i))))
            (seq 0 (Z.to_nat DRM_HDCP_KSV_LEN)) 0.

Definition intel_hdcp_is_ksv_valid (ksv : list Z) : bool :=
  if negb (ksv_ones ksv =? 20) then false else true.

(** ** Revocation membership *)

(** The three states of a kernel pointer to a heap buffer. *)
Inductive heap_ptr : Type :=
| Null
| Live (data : list Z)
| Dangling.

(** Inner loop over the bytes of one KSV:
    [for (j = 0; j < DRM_HDCP_KSV_LEN; j++)
       if (ksvs[j] != rev_ksv_list[j]) break;
       else if (j == DRM_HDCP_KSV_LEN - 1) return true;]
    [true] is the [return true]; [false] leaves the loop. *)
Fixpoint ksv_match_from (n : nat) (j : Z) (ksvs : list Z) (ko : Z)
         (rev : list Z) (ro : Z) : bool :=
  match n with
  | O => false
  | S n' =>
      if negb (byte_at ksvs (ko + j) =? byte_at rev (ro + j)) then false
      else if j =? DRM_HDCP_KSV_LEN - 1 then true
      else ksv_match_from n' (j + 1) ksvs ko rev ro
  end.

Definition ksv_match (ksvs : list Z) (ko : Z) (rev : list Z) (ro : Z) : bool :=
  ksv_match_from (Z.to_nat DRM_HDCP_KSV_LEN) 0 ksvs ko rev ro.

(** [for (i = 0; i < rev_ksv_cnt; i++) { ...; rev_ksv_list += DRM_HDCP_KSV_LEN; }] *)
Fixpoint rev_scan (n : nat) (ksvs : list Z) (ko : Z) (rev : list Z) (ro : Z) : bool :=
  match n with
  | O => false
  | S n' =>
      if ksv_match ksvs ko rev ro then true
      else rev_scan n' ksvs ko rev (ro + DRM_HDCP_KSV_LEN)
  end.

(** [for (cnt = 0; cnt < ksv_count; cnt++) { rev_ksv_list = connector->...; ...;
      ksvs += DRM_HDCP_KSV_LEN; }] *)
Fixpoint cand_scan (n : nat) (ksvs : list Z) (ko : Z) (rev : list Z)
         (rev_ksv_cnt : Z) : bool :=
  match n with
  | O => false
  | S n' =>
      if rev_scan (Z.to_nat rev_ksv_cnt) ksvs ko rev 0 then true
      else cand_scan n' ksvs (ko + DRM_HDCP_KSV_LEN) rev rev_ksv_cnt
  end.

(** [None] stands for a read through a pointer to freed memory.  A byte
    outside a live buffer reads as 0 here, where the C scan would read
    outside the allocation: the theorems about the scan take the store to
    hold [revocated_ksv_cnt] entries and the candidates [ksv_count], which
    keeps every read inside.  The debug lines that print a KSV found in the
    list are not recorded. *)
Definition intel_hdcp_ksvs_revocated (revocated_ksv_list : heap_ptr)
           (revocated_ksv_cnt : Z) (ksvs : list Z) (ksv_count : Z) : option bool :=
  if revocated_ksv_cnt =? 0 then Some false
  else match revocated_ksv_list with
       | Null => Some false
       | Live rev =>
           Some (cand_scan (Z.to_nat ksv_count) ksvs 0 rev revocated_ksv_cnt)
       | Dangling => None
       end.

(** ** Declarations of the headers

    intel_hdcp.c takes its register bits from i915_reg.h and the HDCP protocol
    constants and macros from drm_hdcp.h.  Neither header is among the
    sources, so their contents are parameters of the embedding. *)

Class i915_reg_h : Type := {
  HDCP_AKSV_SEND_TRIGGER : Z;
  HDCP_CLEAR_KEYS_TRIGGER : Z;
  HDCP_KEY_LOAD_TRIGGER : Z;
  HDCP_FUSE_IN_PROGRESS : Z;
  HDCP_FUSE_ERROR : Z;
  HDCP_FUSE_DONE : Z;
  HDCP_KEY_LOAD_STATUS : Z;
  HDCP_KEY_LOAD_DONE : Z;
  HDCP_DDIA_REP_PRESENT : Z;
  HDCP_DDIB_REP_PRESENT : Z;
  HDCP_DDIC_REP_PRESENT : Z;
  HDCP_DDID_REP_PRESENT : Z;
  HDCP_DDIE_REP_PRESENT : Z;
  HDCP_DDIA_SHA1_M0 : Z;
  HDCP_DDIB_SHA1_M0 : Z;
  HDCP_DDIC_SHA1_M0 : Z;
  HDCP_DDID_SHA1_M0 : Z;
  HDCP_DDIE_SHA1_M0 : Z;
  HDCP_SHA1_READY : Z;
  HDCP_SHA1_COMPLETE : Z;
  HDCP_SHA1_V_MATCH : Z;
  HDCP_SHA1_TEXT_32 : Z;
  HDCP_SHA1_COMPLETE_HASH : Z;
  HDCP_SHA1_TEXT_24 : Z;
  HDCP_SHA1_TEXT_16 : Z;
  HDCP_SHA1_TEXT_8 : Z;
  HDCP_SHA1_TEXT_0 : Z;
  HDCP_CONF_CAPTURE_AN : Z;
  HDCP_CONF_AUTH_AND_ENC : Z;
  HDCP_STATUS_ENC : Z;
  HDCP_STATUS_RI_MATCH : Z;
  HDCP_STATUS_R0_READY : Z;
  HDCP_STATUS_AN_READY : Z;
  SKL_PCODE_LOAD_HDCP_KEYS : Z;
  HSW_DISP_PW_GLOBAL : Z;
  SKL_DISP_PW_1 : Z
}.

Class drm_hdcp_h : Type := {
  DRM_HDCP_MAX_DEVICE_EXCEEDED : Z -> Z;
  DRM_HDCP_MAX_CASCADE_EXCEEDED : Z -> Z;
  DRM_HDCP_NUM_DOWNSTREAM : Z -> Z;
  DRM_HDCP_DEPTH : Z -> Z;
  DRM_HDCP_V_PRIME_NUM_PARTS : Z;
  DRM_HDCP_CHECK_PERIOD_MS : Z;
  DRM_MODE_HDCP_KSV_LEN : Z;
  DRM_HDCP_AN_LEN : Z;
  DRM_HDCP_RI_LEN : Z;
  (* sizeof(struct cp_srm_header) and its spec_indicator.srm_id field *)
  sizeof_cp_srm_header : Z;
  srm_id : list Z -> Z;
  DRM_HDCP_1_4_SRM_ID : Z;
  DRM_HDCP_1_4_VRL_LENGTH_SIZE : Z;
  DRM_HDCP_1_4_DCP_SIG_SIZE : Z
}.

(** The HDCP registers of the display engine. *)
Inductive port : Type := PORT_A | PORT_B | PORT_C | PORT_D | PORT_E | PORT_F.

Inductive reg : Type :=
| HDCP_KEY_CONF
| HDCP_KEY_STATUS
| HDCP_SHA_TEXT
| HDCP_REP_CTL
| HDCP_SHA_V_PRIME (i : Z)
| PORT_HDCP_CONF (p : port)
| PORT_HDCP_ANINIT (p : port)
| PORT_HDCP_ANLO (p : port)
| PORT_HDCP_ANHI (p : port)
| PORT_HDCP_BKSVLO (p : port)
| PORT_HDCP_BKSVHI (p : port)
| PORT_HDCP_RPRIME (p : port)
| PORT_HDCP_STATUS (p : port).

(** DRM_MODE_CONTENT_PROTECTION_* *)
Inductive content_protection : Type := UNDESIRED | DESIRED | ENABLED.

Definition content_protection_eqb (a b : content_protection) : bool :=
  match a, b with
  | UNDESIRED, UNDESIRED | DESIRED, DESIRED | ENABLED, ENABLED => true
  | _, _ => false
  end.

(** ** What a run leaves behind *)

Inductive shim_op : Type :=
| SHIM_write_an_aksv | SHIM_read_bksv | SHIM_read_bstatus
| SHIM_repeater_present | SHIM_read_ri_prime | SHIM_read_ksv_ready
| SHIM_read_ksv_fifo | SHIM_read_v_prime_part
| SHIM_toggle_signalling (enable : bool)
| SHIM_check_link | SHIM_hdcp_capable.

Inductive work : Type := hdcp_prop_work | hdcp_check_work | hdcp_enable_work.

Inductive lock : Type := hdcp_mutex | pcu_lock | power_domains_lock.

Inductive event : Type :=
| EvWrite (r : reg) (v : Z)                  (* I915_WRITE *)
| EvShim (op : shim_op)                      (* a call through the shim *)
| EvKzalloc (size : Z)
| EvKfree
| EvLog (msg : string)                       (* DRM_ERROR, DRM_DEBUG_KMS, DRM_INFO *)
| EvScheduleWork (w : work)
| EvScheduleDelayedWork (w : work) (ms : Z)
| EvCancelDelayedWorkSync (w : work)
| EvMutexLock (l : lock)
| EvMutexUnlock (l : lock).

(** struct cp_downstream_info *)
Record cp_downstream_info : Type := {
  device_count : Z;
  depth : Z;
  bksv : list Z;
  ksv_list : list Z;
  is_repeater : bool
}.

(** struct drm_property_blob *)
Record drm_property_blob : Type := {
  blob_length : Z;
  blob_data : option (list Z)
}.

(** The outcome of a statement: control falls through with a value, the
    function returns, or the run has left defined behaviour (a null or stale
    pointer is dereferenced, a read leaves its buffer, a loop budget of the
    model is exhausted). *)
Inductive res (A : Type) : Type :=
| Next (a : A)
| Return (r : Z)
| Abort.
Arguments Next {A} a.
Arguments Return {A} r.
Arguments Abort {A}.

(** ** SRM segment walks

    Both walks follow [buf] through the blob's data.  A walk comes to an end,
    or reads outside the data, or outlives the budget of iterations the model
    gives it.  The DRM_INFO line the copying walk prints for each segment is
    not recorded. *)

Inductive walk (A : Type) : Type :=
| Walked (a : A)
| OutOfBounds
| OutOfBudget.
Arguments Walked {A} a.
Arguments OutOfBounds {A}.
Arguments OutOfBudget {A}.

Definition rd (data : list Z) (off : Z) : option Z :=
  if off <? 0 then None else option_map u8 (nth_error data (Z.to_nat off)).

(** The [n] bytes a memcpy reads from offset [off]. *)
Fixpoint rd_range (data : list Z) (off : Z) (n : nat) : option (list Z) :=
  match n with
  | O => Some []
  | S n' =>
      match rd data off, rd_range data (off + 1) n' with
      | Some b, Some bs => Some (b :: bs)
      | _, _ => None
      end
  end.

(** [do { vrl_ksv_cnt = *buf; ksv_count += vrl_ksv_cnt;
         vrl_sz = (vrl_ksv_cnt * DRM_HDCP_KSV_LEN) + 1;
         buf += vrl_sz; parsed_bytes += vrl_sz;
       } while (parsed_bytes < vrls_length);] *)
Fixpoint revocated_ksv_count_loop (fuel : nat) (data : list Z)
         (buf parsed_bytes ksv_count vrls_length : Z) : walk Z :=
  match fuel with
  | O => OutOfBudget
  | S fuel' =>
      match rd data buf with
      | None => OutOfBounds
      | Some vrl_ksv_cnt =>
          let ksv_count := u32 (ksv_count + vrl_ksv_cnt) in
          let vrl_sz := u32 (vrl_ksv_cnt * DRM_HDCP_KSV_LEN + 1) in
          let buf := buf + vrl_sz in
          let parsed_bytes := u32 (parsed_bytes + vrl_sz) in
          if parsed_bytes <? vrls_length
          then revocated_ksv_count_loop fuel' data buf parsed_bytes ksv_count
                                        vrls_length
          else Walked ksv_count
      end
  end.

(** Every iteration consumes at least one byte of [vrls_length], so that
    many iterations and one are a budget the walk cannot outlive. *)
Definition intel_hdcp_get_revocated_ksv_count (data : list Z) (buf : Z)
           (vrls_length : Z) : walk Z :=
  revocated_ksv_count_loop (S (Z.to_nat vrls_length)) data buf 0 0 vrls_length.

(** [do { vrl_ksv_cnt = *buf; vrl_ksv_sz = vrl_ksv_cnt * DRM_HDCP_KSV_LEN;
         buf++; memcpy(ksv_list, buf, vrl_ksv_sz);
         ksv_count += vrl_ksv_cnt; ksv_list += vrl_ksv_sz; buf += vrl_ksv_sz;
         parsed_bytes += (vrl_ksv_sz + 1);
       } while (parsed_bytes < vrls_length);]
    [ksv_list] is what has been copied to the destination so far. *)
Fixpoint revocated_ksvs_loop (fuel : nat) (data : list Z)
         (buf parsed_bytes ksv_count vrls_length : Z) (ksv_list : list Z)
  : walk (Z * list Z) :=
  match fuel with
  | O => OutOfBudget
  | S fuel' =>
      match rd data buf with
      | None => OutOfBounds
      | Some vrl_ksv_cnt =>
          let vrl_ksv_sz := u32 (vrl_ksv_cnt * DRM_HDCP_KSV_LEN) in
          let buf := buf + 1 in
          match rd_range data buf (Z.to_nat vrl_ksv_sz) with
          | None => OutOfBounds
          | Some copied =>
              let ksv_count := u32 (ksv_count + vrl_ksv_cnt) in
              let ksv_list := ksv_list ++ copied in
              let buf := buf + vrl_ksv_sz in
              let parsed_bytes := u32 (parsed_bytes + u32 (vrl_ksv_sz + 1)) in
              if parsed_bytes <? vrls_length
              then revocated_ksvs_loop fuel' data buf parsed_bytes ksv_count
                                       vrls_length ksv_list
              else Walked (ksv_count, ksv_list)
          end
      end
  end.

Definition intel_hdcp_get_revocated_ksvs (data : list Z) (buf : Z)
           (vrls_length : Z) : walk (Z * list Z) :=
  revocated_ksvs_loop (S (Z.to_nat vrls_length)) data buf 0 0 vrls_length [].

(** ** Little-endian views of the register unions *)

Definition le32 (b : list Z) (off : Z) : Z :=
  Z.lor (byte_at b off)
    (Z.lor (Z.shiftl (byte_at b (off + 1)) 8)
       (Z.lor (Z.shiftl (byte_at b (off + 2)) 16)
              (Z.shiftl (byte_at b (off + 3)) 24))).

Definition le_bytes32 (w : Z) : list Z :=
  [u8 w; u8 (Z.shiftr w 8); u8 (Z.shiftr w 16); u8 (Z.shiftr w 24)].

(** A buffer of [size] bytes after a callee has filled it from its start:
    bytes the callee did not supply keep their old value. *)
Definition filled (old : list Z) (new : list Z) : list Z :=
  map (fun i => if (i <? length new)%nat then u8 (nth i new 0) else nth i old 0)
      (seq 0 (length old)).

(** memcpy into the front of an array. *)
Definition overwrite (dst : list Z) (src : list Z) : list Z :=
  src ++ skipn (length src) dst.

Definition zeros (n : Z) : list Z := repeat 0 (Z.to_nat n).

(** ** The driver *)

Section Driver.

Context {regs : i915_reg_h} {drm : drm_hdcp_h}.

(** The display hardware, the receiver behind the shim and the rest of the
    kernel, as far as the driver observes them. *)
Context {H : Type}.

(** struct intel_hdcp_shim: the transport-specific receiver I/O.  Values a C
    callee stores through a pointer argument are returned next to its return
    value. *)
Record intel_hdcp_shim : Type := {
  write_an_aksv : list Z -> H -> Z * H;
  read_bksv : H -> (Z * list Z) * H;
  read_bstatus : H -> (Z * list Z) * H;
  repeater_present : H -> (Z * bool) * H;
  read_ri_prime : H -> (Z * list Z) * H;
  read_ksv_ready : H -> (Z * bool) * H;
  read_ksv_fifo : Z -> H -> (Z * list Z) * H;
  read_v_prime_part : Z -> H -> (Z * Z) * H;
  toggle_signalling : bool -> H -> Z * H;
  check_link : H -> bool * H;
  hdcp_capable : option (H -> (Z * bool) * H)
}.

(** struct i915_power_well, with its ops->is_enabled. *)
Record i915_power_well : Type := {
  id : Z;
  is_enabled : H -> bool * H
}.

(** Register transport, bounded polling and the kernel services the file
    calls; all of them are defined outside intel_hdcp.c. *)
Class platform : Type := {
  I915_READ : reg -> H -> Z * H;
  I915_WRITE : reg -> Z -> H -> H;
  (* intel_wait_for_register(dev_priv, reg, mask, value, timeout_ms) *)
  intel_wait_for_register : reg -> Z -> Z -> Z -> H -> Z * H;
  (* __intel_wait_for_register(..., fast_timeout_us, slow_timeout_ms, &out) *)
  __intel_wait_for_register : reg -> Z -> Z -> Z -> Z -> H -> (Z * Z) * H;
  (* wait_for(I915_READ(reg) & mask, ms) *)
  wait_for : reg -> Z -> Z -> H -> Z * H;
  (* __wait_for(OP, COND, US, Wmin, Wmax): the return value and what the last
     OP produced *)
  __wait_for : (H -> (Z * bool) * H) -> (Z * bool -> bool) -> Z -> Z -> Z ->
               H -> (Z * (Z * bool)) * H;
  jiffies : H -> Z;
  wait_remaining_ms_from_jiffies : Z -> Z -> H -> H;
  get_random_u32 : H -> Z * H;
  sandybridge_pcode_write : Z -> Z -> H -> Z * H;
  (* kzalloc(size, GFP_KERNEL) != NULL *)
  kzalloc : Z -> H -> bool * H;
  drm_property_lookup_blob : Z -> H -> option drm_property_blob * H;
  power_wells : list i915_power_well;
  IS_HASWELL : bool;
  IS_BROADWELL : bool;
  IS_SKYLAKE : bool;
  IS_KABYLAKE : bool
}.

Context {plat : platform}.

(** struct intel_connector, the fields intel_hdcp.c uses.  [dig_port] is what
    conn_to_dig_port finds for the connector. *)
Record intel_connector : Type := {
  dig_port : option port;
  hdcp_shim : option intel_hdcp_shim;
  hdcp_value : content_protection;
  downstream_info : cp_downstream_info;
  revocated_ksv_list : heap_ptr;
  revocated_ksv_cnt : Z;
  srm_blob_id : Z
}.

Record state : Type := {
  hw : H;
  conn : intel_connector;
  trace : list event
}.

Definition set_hw (h : H) (s : state) : state :=
  {| hw := h; conn := conn s; trace := trace s |}.
Definition set_conn (c : intel_connector) (s : state) : state :=
  {| hw := hw s; conn := c; trace := trace s |}.
Definition emit (e : event) (s : state) : state :=
  {| hw := hw s; conn := conn s; trace := trace s ++ [e] |}.

Definition with_hdcp_value (v : content_protection) (c : intel_connector) :=
  {| dig_port := dig_port c; hdcp_shim := hdcp_shim c; hdcp_value := v;
     downstream_info := downstream_info c;
     revocated_ksv_list := revocated_ksv_list c;
     revocated_ksv_cnt := revocated_ksv_cnt c; srm_blob_id := srm_blob_id c |}.
Definition with_downstream_info (d : cp_downstream_info) (c : intel_connector) :=
  {| dig_port := dig_port c; hdcp_shim := hdcp_shim c;
     hdcp_value := hdcp_value c; downstream_info := d;
     revocated_ksv_list := revocated_ksv_list c;
     revocated_ksv_cnt := revocated_ksv_cnt c; srm_blob_id := srm_blob_id c |}.
Definition with_revocated_ksv_list (p : heap_ptr) (c : intel_connector) :=
  {| dig_port := dig_port c; hdcp_shim := hdcp_shim c;
     hdcp_value := hdcp_value c; downstream_info := downstream_info c;
     revocated_ksv_list := p;
     revocated_ksv_cnt := revocated_ksv_cnt c; srm_blob_id := srm_blob_id c |}.
Definition with_revocated_ksv_cnt (n : Z) (c : intel_connector) :=
  {| dig_port := dig_port c; hdcp_shim := hdcp_shim c;
     hdcp_value := hdcp_value c; downstream_info := downstream_info c;
     revocated_ksv_list := revocated_ksv_list c;
     revocated_ksv_cnt := n; srm_blob_id := srm_blob_id c |}.
Definition with_srm_blob_id (n : Z) (c : intel_connector) :=
  {| dig_port := dig_port c; hdcp_shim := hdcp_shim c;
     hdcp_value := hdcp_value c; downstream_info := downstream_info c;
     revocated_ksv_list := revocated_ksv_list c;
     revocated_ksv_cnt := revocated_ksv_cnt c; srm_blob_id := n |}.

(** memset(connector->downstream_info, 0, sizeof(struct cp_downstream_info)) *)
Definition cleared (d : cp_downstream_info) : cp_downstream_info :=
  {| device_count := 0; depth := 0; bksv := map (fun _ => 0) (bksv d);
     ksv_list := map (fun _ => 0) (ksv_list d); is_repeater := false |}.

(** *** Statements *)

Definition M (A : Type) : Type := state -> res A * state.

Definition ret {A} (a : A) : M A := fun s => (Next a, s).

Definition bind {A B} (m : M A) (k : A -> M B) : M B :=
  fun s => match m s with
           | (Next a, s') => k a s'
           | (Return r, s') => (Return r, s')
           | (Abort, s') => (Abort, s')
           end.

(** [return r;] *)
Definition return_ {A} (r : Z) : M A := fun s => (Return r, s).

Definition abort {A} : M A := fun s => (Abort, s).

(** [if (c) { body }] *)
Definition when (c : bool) (body : M unit) : M unit :=
  if c then body else ret tt.

(** A call of an int function: its return value is the value of the call. *)
Definition call (f : M Z) : M Z :=
  fun s => match f s with
           | (Next r, s') => (Next r, s')
           | (Return r, s') => (Next r, s')
           | (Abort, s') => (Abort, s')
           end.

Definition lift {A} (f : H -> A * H) : M A :=
  fun s => let (a, h) := f (hw s) in (Next a, set_hw h s).

Definition ev (e : event) : M unit := fun s => (Next tt, emit e s).

Definition get_conn : M intel_connector := fun s => (Next (conn s), s).

Definition modify_conn (f : intel_connector -> intel_connector) : M unit :=
  fun s => (Next tt, set_conn (f (conn s)) s).

(** Dereference of a pointer that may be null. *)
Definition deref {A} (p : option A) : M A :=
  match p with
  | Some a => ret a
  | None => abort
  end.

(** The value of a walk that has come to an end. *)
Definition walked {A} (w : walk A) : M A :=
  match w with
  | Walked a => ret a
  | _ => abort
  end.

Notation "x <- m ;; k" := (bind m (fun x => k))
  (at level 61, m at next level, right associativity).
Notation "' pat <- m ;; k" := (bind m (fun x => match x with pat => k end))
  (at level 61, pat pattern, m at next level, right associativity).
Notation "m ;; k" := (bind m (fun _ => k))
  (at level 61, right associativity).

Definition i915_read (r : reg) : M Z := lift (I915_READ r).

Definition i915_write (r : reg) (v : Z) : M unit :=
  fun s => (Next tt, emit (EvWrite r v) (set_hw (I915_WRITE r v (hw s)) s)).

Definition drm_log (msg : string) : M unit := ev (EvLog msg).

Definition shim_call {A} (op : shim_op) (f : H -> A * H) : M A :=
  ev (EvShim op) ;; lift f.

(** *** intel_hdcp_poll_ksv_fifo *)

Definition intel_hdcp_poll_ksv_fifo (shim : intel_hdcp_shim) : M Z :=
  (* Poll for ksv list ready (spec says max time allowed is 5s) *)
  ' (r, (read_ret, ksv_ready)) <-
      shim_call SHIM_read_ksv_ready
        (__wait_for (read_ksv_ready shim)
                    (fun x => truthy (fst x) || snd x)
                    (5 * 1000 * 1000) 1000 (100 * 1000)) ;;
  when (truthy r) (return_ r) ;;
  when (truthy read_ret) (return_ read_ret) ;;
  when (negb ksv_ready) (return_ (- ETIMEDOUT)) ;;
  return_ 0.

(** *** hdcp_key_loadable *)

Definition hdcp_key_loadable : M bool :=
  let id_ := if IS_HASWELL || IS_BROADWELL then HSW_DISP_PW_GLOBAL
             else SKL_DISP_PW_1 in
  ev (EvMutexLock power_domains_lock) ;;
  (* PG1 (power well #1) needs to be enabled *)
  enabled <- match find (fun w => id w =? id_) power_wells with
             | Some w => lift (is_enabled w)
             | None => ret false
             end ;;
  ev (EvMutexUnlock power_domains_lock) ;;
  ret enabled.

(** *** intel_hdcp_clear_keys *)

Definition intel_hdcp_clear_keys : M unit :=
  i915_write HDCP_KEY_CONF HDCP_CLEAR_KEYS_TRIGGER ;;
  i915_write HDCP_KEY_STATUS
    (Z.lor HDCP_KEY_LOAD_DONE
       (Z.lor HDCP_KEY_LOAD_STATUS
          (Z.lor HDCP_FUSE_IN_PROGRESS (Z.lor HDCP_FUSE_ERROR HDCP_FUSE_DONE)))).

(** *** intel_hdcp_load_keys *)

Definition intel_hdcp_load_keys : M Z :=
  val <- i915_read HDCP_KEY_STATUS ;;
  when (truthy (Z.land val HDCP_KEY_LOAD_DONE) &&
        truthy (Z.land val HDCP_KEY_LOAD_STATUS)) (return_ 0) ;;
  (* On HSW and BDW the hardware loads the key when display comes out of
     reset: a key that is not loaded is an error state. *)
  when (IS_HASWELL || IS_BROADWELL)
       (v <- i915_read HDCP_KEY_STATUS ;;
        when (negb (truthy (Z.land v HDCP_KEY_LOAD_DONE))) (return_ (- ENXIO))) ;;
  (if IS_SKYLAKE || IS_KABYLAKE then
     ev (EvMutexLock pcu_lock) ;;
     r <- lift (sandybridge_pcode_write SKL_PCODE_LOAD_HDCP_KEYS 1) ;;
     ev (EvMutexUnlock pcu_lock) ;;
     when (truthy r)
          (drm_log "Failed to initiate HDCP key load (%d)" ;; return_ r)
   else
     i915_write HDCP_KEY_CONF HDCP_KEY_LOAD_TRIGGER) ;;
  (* Wait for the keys to load (500us) *)
  ' (r, val) <- lift (__intel_wait_for_register HDCP_KEY_STATUS
                        HDCP_KEY_LOAD_DONE HDCP_KEY_LOAD_DONE 10 1) ;;
  when (truthy r) (return_ r) ;;
  when (negb (truthy (Z.land val HDCP_KEY_LOAD_STATUS))) (return_ (- ENXIO)) ;;
  (* Send Aksv over to PCH display for use in authentication *)
  i915_write HDCP_KEY_CONF HDCP_AKSV_SEND_TRIGGER ;;
  return_ 0.

(** *** intel_write_sha_text *)

Definition intel_write_sha_text (sha_text : Z) : M Z :=
  i915_write HDCP_SHA_TEXT sha_text ;;
  w <- lift (intel_wait_for_register HDCP_REP_CTL HDCP_SHA1_READY
               HDCP_SHA1_READY 1) ;;
  when (truthy w)
       (drm_log "Timed out waiting for SHA1 ready" ;; return_ (- ETIMEDOUT)) ;;
  return_ 0.

(** *** intel_hdcp_get_repeater_ctl *)

Definition intel_hdcp_get_repeater_ctl (p : port) : M Z :=
  match p with
  | PORT_A => return_ (Z.lor HDCP_DDIA_REP_PRESENT HDCP_DDIA_SHA1_M0)
  | PORT_B => return_ (Z.lor HDCP_DDIB_REP_PRESENT HDCP_DDIB_SHA1_M0)
  | PORT_C => return_ (Z.lor HDCP_DDIC_REP_PRESENT HDCP_DDIC_SHA1_M0)
  | PORT_D => return_ (Z.lor HDCP_DDID_REP_PRESENT HDCP_DDID_SHA1_M0)
  | PORT_E => return_ (Z.lor HDCP_DDIE_REP_PRESENT HDCP_DDIE_SHA1_M0)
  | _ => drm_log "Unknown port %d" ;; return_ (u32 (- EINVAL))
  end.

(** *** intel_hdcp_auth_downstream: the SHA-1 text framer *)

(** The locals of the framer: the byte index, the word being assembled and
    the number of KSV bytes left over in it. *)
Record sha_state : Type := {
  sha_idx : Z;
  sha_text : Z;
  sha_leftovers : Z
}.

(** [for (j = 0; j < count; j++)
       sha_text |= ksv[first + j] << ((sizeof(sha_text) - j - 1) * 8);]
    with [ksv = &ksv_fifo[base]]. *)
Definition or_ksv_bytes (ksv_fifo : list Z) (base first count : Z) (text : Z) : Z :=
  fold_left
    (fun t j =>
       u32 (Z.lor t (Z.shiftl (byte_at ksv_fifo (base + first + Z.of_nat j))
                              (u64 ((4 - Z.of_nat j - 1) * 8)))))
    (seq 0 (Z.to_nat count)) text.

(** [ret = intel_write_sha_text(dev_priv, w); if (ret < 0) return ret;
     sha_idx += sizeof(sha_text);] *)
Definition sha_write (w : Z) (idx : Z) : M Z :=
  r <- call (intel_write_sha_text w) ;;
  when (r <? 0) (return_ r) ;;
  ret (s32 (idx + 4)).

(** The body of [for (i = 0; i < num_downstream; i++)]. *)
Definition sha_ksv_step (rep_ctl : Z) (ksv_fifo : list Z) (i : Z)
           (st : sha_state) : M sha_state :=
  let ksv := i * DRM_HDCP_KSV_LEN in
  (* Fill up the empty slots in sha_text and write it out *)
  let sha_empty := u32 (4 - sha_leftovers st) in
  let text := or_ksv_bytes ksv_fifo ksv 0 sha_empty (sha_text st) in
  r <- call (intel_write_sha_text text) ;;
  when (r <? 0) (return_ r) ;;
  (* Programming guide writes this every 64 bytes *)
  let idx := s32 (sha_idx st + 4) in
  when (negb (truthy (Z.rem idx 64)))
       (i915_write HDCP_REP_CTL (Z.lor rep_ctl HDCP_SHA1_TEXT_32)) ;;
  (* Store the leftover bytes from the ksv in sha_text *)
  let leftovers := u32 (DRM_HDCP_KSV_LEN - sha_empty) in
  let text := or_ksv_bytes ksv_fifo ksv sha_empty leftovers 0 in
  (* If we still have room in sha_text for more data, continue.
     Otherwise, write it out immediately. *)
  if 4 >? leftovers then
    ret {| sha_idx := idx; sha_text := text; sha_leftovers := leftovers |}
  else
    r <- call (intel_write_sha_text text) ;;
    when (r <? 0) (return_ r) ;;
    ret {| sha_idx := s32 (idx + 4); sha_text := 0; sha_leftovers := 0 |}.

Fixpoint sha_ksv_loop (n : nat) (rep_ctl : Z) (ksv_fifo : list Z) (i : Z)
         (st : sha_state) : M sha_state :=
  match n with
  | O => ret st
  | S n' =>
      st' <- sha_ksv_step rep_ctl ksv_fifo i st ;;
      sha_ksv_loop n' rep_ctl ksv_fifo (i + 1) st'
  end.

Definition invalid_leftovers_msg : string := "Invalid number of leftovers %d".

(** The write of BINFO/BSTATUS and M0, by the number of bytes left over from
    the last KSV.  The value is the byte index after it. *)
Definition sha_tail (rep_ctl : Z) (b0 b1 : Z) (st : sha_state) : M Z :=
  let idx := sha_idx st in
  let text := sha_text st in
  if sha_leftovers st =? 0 then
    (* Write 16 bits of text, 16 bits of M0 *)
    i915_write HDCP_REP_CTL (Z.lor rep_ctl HDCP_SHA1_TEXT_16) ;;
    idx <- sha_write (u32 (Z.lor (Z.shiftl b0 8) b1)) idx ;;
    (* Write 32 bits of M0 *)
    i915_write HDCP_REP_CTL (Z.lor rep_ctl HDCP_SHA1_TEXT_0) ;;
    idx <- sha_write 0 idx ;;
    (* Write 16 bits of M0 *)
    i915_write HDCP_REP_CTL (Z.lor rep_ctl HDCP_SHA1_TEXT_16) ;;
    sha_write 0 idx
  else if sha_leftovers st =? 1 then
    (* Write 24 bits of text, 8 bits of M0 *)
    i915_write HDCP_REP_CTL (Z.lor rep_ctl HDCP_SHA1_TEXT_24) ;;
    let text := u32 (Z.lor text (Z.lor (Z.shiftl b0 16) (Z.shiftl b1 8))) in
    (* Only 24-bits of data, must be in the LSB *)
    let text := Z.shiftr (Z.land text 4294967040) 8 in
    idx <- sha_write text idx ;;
    (* Write 32 bits of M0 *)
    i915_write HDCP_REP_CTL (Z.lor rep_ctl HDCP_SHA1_TEXT_0) ;;
    idx <- sha_write 0 idx ;;
    (* Write 24 bits of M0 *)
    i915_write HDCP_REP_CTL (Z.lor rep_ctl HDCP_SHA1_TEXT_8) ;;
    sha_write 0 idx
  else if sha_leftovers st =? 2 then
    (* Write 32 bits of text *)
    i915_write HDCP_REP_CTL (Z.lor rep_ctl HDCP_SHA1_TEXT_32) ;;
    let text := u32 (Z.lor text (Z.lor (Z.shiftl b0 24) (Z.shiftl b1 16))) in
    idx <- sha_write text idx ;;
    (* Write 64 bits of M0 *)
    i915_write HDCP_REP_CTL (Z.lor rep_ctl HDCP_SHA1_TEXT_0) ;;
    idx <- sha_write 0 idx ;;
    sha_write 0 idx
  else if sha_leftovers st =? 3 then
    (* Write 32 bits of text *)
    i915_write HDCP_REP_CTL (Z.lor rep_ctl HDCP_SHA1_TEXT_32) ;;
    let text := u32 (Z.lor text (Z.shiftl b0 24)) in
    idx <- sha_write text idx ;;
    (* Write 8 bits of text, 24 bits of M0 *)
    i915_write HDCP_REP_CTL (Z.lor rep_ctl HDCP_SHA1_TEXT_8) ;;
    idx <- sha_write b1 idx ;;
    (* Write 32 bits of M0 *)
    i915_write HDCP_REP_CTL (Z.lor rep_ctl HDCP_SHA1_TEXT_0) ;;
    idx <- sha_write 0 idx ;;
    (* Write 8 bits of M0 *)
    i915_write HDCP_REP_CTL (Z.lor rep_ctl HDCP_SHA1_TEXT_24) ;;
    sha_write 0 idx
  else
    drm_log invalid_leftovers_msg ;;
    return_ (- EINVAL).

(** [while ((sha_idx % 64) < (64 - sizeof(sha_text))) { write 0 }]; the
    budget bounds the iterations of the model. *)
Fixpoint sha_fill_loop (fuel : nat) (idx : Z) : M Z :=
  if u64 (Z.rem idx 64) <? 64 - 4 then
    match fuel with
    | O => abort
    | S fuel' =>
        idx' <- sha_write 0 idx ;;
        sha_fill_loop fuel' idx'
    end
  else ret idx.

(** After the KSVs: BINFO/BSTATUS and M0, the zero fill and the length. *)
Definition sha_finish (rep_ctl : Z) (num_downstream : Z) (b0 b1 : Z)
           (st : sha_state) : M unit :=
  idx <- sha_tail rep_ctl b0 b1 st ;;
  i915_write HDCP_REP_CTL (Z.lor rep_ctl HDCP_SHA1_TEXT_32) ;;
  (* Fill up to 64-4 bytes with zeros (leave the last write for length) *)
  _ <- sha_fill_loop 16 idx ;;
  (* Last write gets the length of the concatenation in bits. That is:
      - 5 bytes per device
      - 10 bytes for BINFO/BSTATUS(2), M0(8) *)
  r <- call (intel_write_sha_text (u32 ((num_downstream * 5 + 10) * 8))) ;;
  when (r <? 0) (return_ r).

(** From [sha_idx = 0] to the write of the length. *)
Definition sha_frame (p : port) (num_downstream : Z) (ksv_fifo : list Z)
           (b0 b1 : Z) : M Z :=
  rep_ctl <- call (intel_hdcp_get_repeater_ctl p) ;;
  i915_write HDCP_REP_CTL (Z.lor rep_ctl HDCP_SHA1_TEXT_32) ;;
  st <- sha_ksv_loop (Z.to_nat num_downstream) rep_ctl ksv_fifo 0
          {| sha_idx := 0; sha_text := 0; sha_leftovers := 0 |} ;;
  sha_finish rep_ctl num_downstream b0 b1 st ;;
  ret rep_ctl.

(** [for (i = 0; i < DRM_HDCP_V_PRIME_NUM_PARTS; i++)] *)
Fixpoint v_prime_loop (n : nat) (shim : intel_hdcp_shim) (i : Z) : M unit :=
  match n with
  | O => ret tt
  | S n' =>
      ' (r, vprime) <- shim_call SHIM_read_v_prime_part (read_v_prime_part shim i) ;;
      when (truthy r) (return_ r) ;;
      i915_write (HDCP_SHA_V_PRIME i) (u32 vprime) ;;
      v_prime_loop n' shim (i + 1)
  end.

(** Implements Part 2 of the HDCP authorization procedure *)
Definition intel_hdcp_auth_downstream : M Z :=
  c <- get_conn ;;
  match dig_port c with
  | None => return_ EINVAL
  | Some p =>
  shim <- deref (hdcp_shim c) ;;
  r <- call (intel_hdcp_poll_ksv_fifo shim) ;;
  when (truthy r)
       (drm_log "KSV list failed to become ready (%d)" ;; return_ r) ;;
  ' (r, bst) <- shim_call SHIM_read_bstatus (read_bstatus shim) ;;
  when (truthy r) (return_ r) ;;
  let bstatus := filled [0; 0] bst in
  let b0 := byte_at bstatus 0 in
  let b1 := byte_at bstatus 1 in
  when (truthy (DRM_HDCP_MAX_DEVICE_EXCEEDED b0) ||
        truthy (DRM_HDCP_MAX_CASCADE_EXCEEDED b1))
       (drm_log "Max Topology Limit Exceeded" ;; return_ (- EPERM)) ;;
  (* When repeater reports 0 device count, HDCP1.4 spec allows disabling the
     HDCP encryption. [...] we are failing the authentication. *)
  let num_downstream := u8 (DRM_HDCP_NUM_DOWNSTREAM b0) in
  when (num_downstream =? 0) (return_ (- EINVAL)) ;;
  modify_conn (fun c =>
    with_downstream_info
      {| device_count := num_downstream; depth := DRM_HDCP_DEPTH b1;
         bksv := bksv (downstream_info c);
         ksv_list := ksv_list (downstream_info c);
         is_repeater := is_repeater (downstream_info c) |} c) ;;
  ev (EvKzalloc (num_downstream * DRM_HDCP_KSV_LEN)) ;;
  ok <- lift (kzalloc (num_downstream * DRM_HDCP_KSV_LEN)) ;;
  when (negb ok) (return_ (- ENOMEM)) ;;
  ' (r, fifo) <- shim_call SHIM_read_ksv_fifo (read_ksv_fifo shim num_downstream) ;;
  when (truthy r) (return_ r) ;;
  let ksv_fifo := filled (zeros (num_downstream * DRM_HDCP_KSV_LEN)) fifo in
  c <- get_conn ;;
  revoked <- deref (intel_hdcp_ksvs_revocated (revocated_ksv_list c)
                      (revocated_ksv_cnt c) ksv_fifo num_downstream) ;;
  when revoked
       (drm_log "Revocated Ksv(s) in ksv_fifo" ;; return_ (- EPERM)) ;;
  modify_conn (fun c =>
    with_downstream_info
      {| device_count := device_count (downstream_info c);
         depth := depth (downstream_info c);
         bksv := bksv (downstream_info c);
         ksv_list := overwrite (ksv_list (downstream_info c)) ksv_fifo;
         is_repeater := is_repeater (downstream_info c) |} c) ;;
  (* Process V' values from the receiver *)
  v_prime_loop (Z.to_nat DRM_HDCP_V_PRIME_NUM_PARTS) shim 0 ;;
  rep_ctl <- sha_frame p num_downstream ksv_fifo b0 b1 ;;
  (* Tell the HW we're done with the hash and wait for it to ACK *)
  i915_write HDCP_REP_CTL (Z.lor rep_ctl HDCP_SHA1_COMPLETE_HASH) ;;
  w <- lift (intel_wait_for_register HDCP_REP_CTL HDCP_SHA1_COMPLETE
               HDCP_SHA1_COMPLETE 1) ;;
  when (truthy w)
       (drm_log "Timed out waiting for SHA1 complete" ;; return_ (- ETIMEDOUT)) ;;
  v <- i915_read HDCP_REP_CTL ;;
  when (negb (truthy (Z.land v HDCP_SHA1_V_MATCH)))
       (drm_log "SHA-1 mismatch, HDCP failed" ;; return_ (- ENXIO)) ;;
  return_ 0
  end.

(** *** intel_hdcp_auth *)

(** The callee of read_bksv stores a KSV at the start of the bksv union. *)
Definition store_ksv (buf : list Z) (new : list Z) : list Z :=
  filled buf (firstn (Z.to_nat DRM_HDCP_KSV_LEN) new).

(** [for (i = 0; i < tries; i++) {
       ret = shim->read_bksv(intel_dig_port, bksv.shim);
       if (ret) return ret;
       if (intel_hdcp_is_ksv_valid(bksv.shim)) break; }]
    The value is [i] and the union after the loop. *)
Fixpoint bksv_loop (n : nat) (shim : intel_hdcp_shim) (i : Z) (bksv_u : list Z)
  : M (Z * list Z) :=
  match n with
  | O => ret (i, bksv_u)
  | S n' =>
      ' (r, new) <- shim_call SHIM_read_bksv (read_bksv shim) ;;
      when (truthy r) (return_ r) ;;
      let bksv_u := store_ksv bksv_u new in
      if intel_hdcp_is_ksv_valid bksv_u then ret (i, bksv_u)
      else bksv_loop n' shim (i + 1) bksv_u
  end.

(** [for (i = 0; i < tries; i++) { ri.reg = 0; ...; if (!wait_for(...)) break; }]
    The value is [i] after the loop. *)
Fixpoint ri_loop (n : nat) (shim : intel_hdcp_shim) (p : port) (i : Z) : M Z :=
  match n with
  | O => ret i
  | S n' =>
      ' (r, new) <- shim_call SHIM_read_ri_prime (read_ri_prime shim) ;;
      when (truthy r) (return_ r) ;;
      let ri := filled (zeros 4) (firstn (Z.to_nat DRM_HDCP_RI_LEN) new) in
      i915_write (PORT_HDCP_RPRIME p) (le32 ri 0) ;;
      (* Wait for Ri prime match *)
      w <- lift (wait_for (PORT_HDCP_STATUS p)
                   (Z.lor HDCP_STATUS_RI_MATCH HDCP_STATUS_ENC) 1) ;;
      if negb (truthy w) then ret i
      else ri_loop n' shim p (i + 1)
  end.

(** Up to the read of Bksv: capability check, An, Aksv. *)
Definition auth_send_an (shim : intel_hdcp_shim) (p : port) : M Z :=
  (* Detects whether the display is HDCP capable. *)
  match hdcp_capable shim with
  | Some capable =>
      ' (r, is_capable) <- shim_call SHIM_hdcp_capable capable ;;
      when (truthy r) (return_ r) ;;
      when (negb is_capable)
           (drm_log "Panel is not HDCP capable" ;; return_ (- EINVAL))
  | None => ret tt
  end ;;
  (* Initialize An with 2 random values and acquire it *)
  r0 <- lift get_random_u32 ;;
  i915_write (PORT_HDCP_ANINIT p) (u32 r0) ;;
  r1 <- lift get_random_u32 ;;
  i915_write (PORT_HDCP_ANINIT p) (u32 r1) ;;
  i915_write (PORT_HDCP_CONF p) HDCP_CONF_CAPTURE_AN ;;
  (* Wait for An to be acquired *)
  w <- lift (intel_wait_for_register (PORT_HDCP_STATUS p) HDCP_STATUS_AN_READY
               HDCP_STATUS_AN_READY 1) ;;
  when (truthy w) (drm_log "Timed out waiting for An" ;; return_ (- ETIMEDOUT)) ;;
  an0 <- i915_read (PORT_HDCP_ANLO p) ;;
  an1 <- i915_read (PORT_HDCP_ANHI p) ;;
  let an := firstn (Z.to_nat DRM_HDCP_AN_LEN)
                   (le_bytes32 (u32 an0) ++ le_bytes32 (u32 an1)) in
  r <- shim_call SHIM_write_an_aksv (write_an_aksv shim an) ;;
  when (truthy r) (return_ r) ;;
  r0_prime_gen_start <- lift (fun h => (jiffies h, h)) ;;
  ret r0_prime_gen_start.

(** From the read of Bksv to the end of Part 1. *)
Definition auth_from_bksv (shim : intel_hdcp_shim) (p : port)
           (r0_prime_gen_start : Z) : M Z :=
  let tries := 2 in
  (* memset(&bksv, 0, sizeof(bksv)) *)
  let bksv_u := zeros 8 in
  (* HDCP spec states that we must retry the bksv if it is invalid *)
  ' (i, bksv_u) <- bksv_loop (Z.to_nat tries) shim 0 bksv_u ;;
  when (i =? tries)
       (drm_log "HDCP failed, Bksv is invalid" ;; return_ (- ENODEV)) ;;
  c <- get_conn ;;
  revoked <- deref (intel_hdcp_ksvs_revocated (revocated_ksv_list c)
                      (revocated_ksv_cnt c) bksv_u 1) ;;
  when revoked (drm_log "BKSV is revocated" ;; return_ (- EPERM)) ;;
  modify_conn (fun c =>
    with_downstream_info
      {| device_count := device_count (downstream_info c);
         depth := depth (downstream_info c);
         bksv := overwrite (bksv (downstream_info c))
                   (firstn (Z.to_nat DRM_MODE_HDCP_KSV_LEN) bksv_u);
         ksv_list := ksv_list (downstream_info c);
         is_repeater := is_repeater (downstream_info c) |} c) ;;
  i915_write (PORT_HDCP_BKSVLO p) (le32 bksv_u 0) ;;
  i915_write (PORT_HDCP_BKSVHI p) (le32 bksv_u 4) ;;
  ' (r, is_rep) <- shim_call SHIM_repeater_present (repeater_present shim) ;;
  when (truthy r) (return_ r) ;;
  when is_rep
       (rep_ctl <- call (intel_hdcp_get_repeater_ctl p) ;;
        i915_write HDCP_REP_CTL rep_ctl ;;
        modify_conn (fun c =>
          with_downstream_info
            {| device_count := device_count (downstream_info c);
               depth := depth (downstream_info c);
               bksv := bksv (downstream_info c);
               ksv_list := ksv_list (downstream_info c);
               is_repeater := true |} c)) ;;
  r <- shim_call (SHIM_toggle_signalling true) (toggle_signalling shim true) ;;
  when (truthy r) (return_ r) ;;
  i915_write (PORT_HDCP_CONF p) HDCP_CONF_AUTH_AND_ENC ;;
  (* Wait for R0 ready *)
  w <- lift (wait_for (PORT_HDCP_STATUS p)
               (Z.lor HDCP_STATUS_R0_READY HDCP_STATUS_ENC) 1) ;;
  when (truthy w)
       (drm_log "Timed out waiting for R0 ready" ;; return_ (- ETIMEDOUT)) ;;
  (* Wait for R0' to become available: 300ms from the write of Aksv. *)
  lift (fun h => (tt, wait_remaining_ms_from_jiffies r0_prime_gen_start 300 h)) ;;
  let tries := 3 in
  (* DP HDCP Spec mandates the two more reattempt to read R0, incase of R0
     mismatch. *)
  i <- ri_loop (Z.to_nat tries) shim p 0 ;;
  when (i =? tries)
       (_ <- i915_read (PORT_HDCP_STATUS p) ;;
        drm_log "Timed out waiting for Ri prime match (%x)" ;;
        return_ (- ETIMEDOUT)) ;;
  (* Wait for encryption confirmation *)
  w <- lift (intel_wait_for_register (PORT_HDCP_STATUS p) HDCP_STATUS_ENC
               HDCP_STATUS_ENC 20) ;;
  when (truthy w)
       (drm_log "Timed out waiting for encryption" ;; return_ (- ETIMEDOUT)) ;;
  if is_rep then
    r <- call intel_hdcp_auth_downstream ;;
    return_ r
  else
    drm_log "HDCP is enabled (no repeater present)" ;;
    return_ 0.

(** Implements Part 1 of the HDCP authorization procedure *)
Definition intel_hdcp_auth : M Z :=
  c <- get_conn ;;
  match dig_port c with
  | None => return_ EINVAL
  | Some p =>
      shim <- deref (hdcp_shim c) ;;
      r0_prime_gen_start <- auth_send_an shim p ;;
      auth_from_bksv shim p r0_prime_gen_start
  end.

(** *** _intel_hdcp_disable *)

Definition disabling_msg : string := "[%s:%d] HDCP is being disabled...".
Definition enabling_msg : string := "[%s:%d] HDCP is being enabled...".

Definition _intel_hdcp_disable : M Z :=
  c <- get_conn ;;
  p <- deref (dig_port c) ;;
  drm_log disabling_msg ;;
  i915_write (PORT_HDCP_CONF p) 0 ;;
  w <- lift (intel_wait_for_register (PORT_HDCP_STATUS p) (u32 (Z.lnot 0)) 0 20) ;;
  when (truthy w)
       (drm_log "Failed to disable HDCP, timeout clearing status" ;;
        return_ (- ETIMEDOUT)) ;;
  shim <- deref (hdcp_shim c) ;;
  r <- shim_call (SHIM_toggle_signalling false) (toggle_signalling shim false) ;;
  when (truthy r)
       (drm_log "Failed to disable HDCP signalling" ;; return_ r) ;;
  modify_conn (fun c => with_downstream_info (cleared (downstream_info c)) c) ;;
  drm_log "HDCP is disabled" ;;
  return_ 0.

(** *** _intel_hdcp_enable *)

Definition KEY_LOAD_TRIES : Z := 5.

(** [for (i = 0; i < KEY_LOAD_TRIES; i++) {
       ret = intel_hdcp_load_keys(dev_priv); if (!ret) break;
       intel_hdcp_clear_keys(dev_priv); }]; the value is [ret]. *)
Fixpoint load_keys_loop (n : nat) (r : Z) : M Z :=
  match n with
  | O => ret r
  | S n' =>
      r <- call intel_hdcp_load_keys ;;
      if negb (truthy r) then ret r
      else intel_hdcp_clear_keys ;; load_keys_loop n' r
  end.

(** [for (i = 0; i < tries; i++) { ret = intel_hdcp_auth(connector); ... }];
    the value is [ret]. *)
Fixpoint auth_loop (n : nat) (r : Z) : M Z :=
  match n with
  | O => ret r
  | S n' =>
      r <- call intel_hdcp_auth ;;
      if negb (truthy r) then
        modify_conn (with_hdcp_value ENABLED) ;;
        ev (EvScheduleWork hdcp_prop_work) ;;
        ev (EvScheduleDelayedWork hdcp_check_work DRM_HDCP_CHECK_PERIOD_MS) ;;
        return_ 0
      else
        drm_log "HDCP Auth failure (%d)" ;;
        (* Ensuring HDCP encryption and signalling are stopped. *)
        _ <- call _intel_hdcp_disable ;;
        auth_loop n' r
  end.

Definition _intel_hdcp_enable : M Z :=
  let tries := 3 in
  drm_log enabling_msg ;;
  loadable <- hdcp_key_loadable ;;
  when (negb loadable)
       (drm_log "HDCP key Load is not possible" ;; return_ (- ENXIO)) ;;
  r <- load_keys_loop (Z.to_nat KEY_LOAD_TRIES) 0 ;;
  when (truthy r)
       (drm_log "Could not load HDCP keys, (%d)" ;; return_ r) ;;
  (* Incase of authentication failures, HDCP spec expects reauth. *)
  r <- auth_loop (Z.to_nat tries) r ;;
  modify_conn (fun c => with_downstream_info (cleared (downstream_info c)) c) ;;
  drm_log "HDCP authentication failed (%d tries/%d)" ;;
  return_ r.

(** *** intel_hdcp_enable, intel_hdcp_disable *)

Definition has_shim (c : intel_connector) : bool :=
  match hdcp_shim c with Some _ => true | None => false end.

Definition intel_hdcp_enable : M Z :=
  c <- get_conn ;;
  when (negb (has_shim c)) (return_ (- ENOENT)) ;;
  ev (EvMutexLock hdcp_mutex) ;;
  ev (EvScheduleWork hdcp_enable_work) ;;
  ev (EvMutexUnlock hdcp_mutex) ;;
  return_ 0.

Definition intel_hdcp_disable : M Z :=
  c <- get_conn ;;
  when (negb (has_shim c)) (return_ (- ENOENT)) ;;
  ev (EvMutexLock hdcp_mutex) ;;
  r <- (if negb (content_protection_eqb (hdcp_value c) UNDESIRED) then
          modify_conn (with_hdcp_value UNDESIRED) ;;
          call _intel_hdcp_disable
        else ret 0) ;;
  ev (EvMutexUnlock hdcp_mutex) ;;
  ev (EvCancelDelayedWorkSync hdcp_check_work) ;;
  return_ r.

(** *** intel_hdcp_parse_srm *)

(** kfree of a pointer: freeing a null pointer does nothing, freeing a stale
    one is a double free. *)
Definition kfree (p : heap_ptr) : M unit :=
  match p with
  | Dangling => abort
  | _ => ev EvKfree
  end.

Definition intel_hdcp_parse_srm (blob : drm_property_blob) : M Z :=
  when (blob_length blob <?
          sizeof_cp_srm_header + DRM_HDCP_1_4_VRL_LENGTH_SIZE +
          DRM_HDCP_1_4_DCP_SIG_SIZE)
       (drm_log "Invalid blob length" ;; return_ (- EINVAL)) ;;
  data <- deref (blob_data blob) ;;
  let header := firstn (Z.to_nat sizeof_cp_srm_header) data in
  drm_log "SRM ID: 0x%x, SRM Ver: 0x%x, SRM Gen No: 0x%x" ;;
  (* WARN_ON of the reserved bits warns and goes on *)
  when (negb (srm_id header =? DRM_HDCP_1_4_SRM_ID))
       (drm_log "Invalid srm_id" ;; return_ (- EINVAL)) ;;
  let buf := sizeof_cp_srm_header in
  b0 <- deref (rd data buf) ;;
  b1 <- deref (rd data (buf + 1)) ;;
  b2 <- deref (rd data (buf + 2)) ;;
  let vrl_length := u32 (Z.lor (Z.shiftl b0 16) (Z.lor (Z.shiftl b1 8) b2)) in
  when ((blob_length blob <? sizeof_cp_srm_header + vrl_length) ||
        (vrl_length <? DRM_HDCP_1_4_VRL_LENGTH_SIZE + DRM_HDCP_1_4_DCP_SIG_SIZE))
       (drm_log "Invalid blob length or vrl length" ;; return_ (- EINVAL)) ;;
  (* Length of the all vrls combined *)
  let vrl_length :=
    u32 (vrl_length - (DRM_HDCP_1_4_VRL_LENGTH_SIZE + DRM_HDCP_1_4_DCP_SIG_SIZE)) in
  when (negb (truthy vrl_length))
       (drm_log "No vrl found" ;; return_ (- EINVAL)) ;;
  let buf := buf + DRM_HDCP_1_4_VRL_LENGTH_SIZE in
  ksv_count <- walked (intel_hdcp_get_revocated_ksv_count data buf vrl_length) ;;
  when (negb (truthy ksv_count))
       (drm_log "Revocated KSV count is 0" ;; return_ 0) ;;
  c <- get_conn ;;
  kfree (revocated_ksv_list c) ;;
  let size := u32 (ksv_count * DRM_HDCP_KSV_LEN) in
  ev (EvKzalloc size) ;;
  ok <- lift (kzalloc size) ;;
  modify_conn (with_revocated_ksv_list (if ok then Live (zeros size) else Null)) ;;
  when (negb ok) (drm_log "Out of Memory" ;; return_ (- ENOMEM)) ;;
  ' (copied_count, copied) <-
      walked (intel_hdcp_get_revocated_ksvs data buf vrl_length) ;;
  modify_conn (with_revocated_ksv_list (Live (overwrite (zeros size) copied))) ;;
  when (negb (copied_count =? ksv_count))
       (modify_conn (with_revocated_ksv_cnt 0) ;;
        c <- get_conn ;;
        kfree (revocated_ksv_list c) ;;
        modify_conn (with_revocated_ksv_list Dangling) ;;
        return_ (- EINVAL)) ;;
  modify_conn (with_revocated_ksv_cnt ksv_count) ;;
  return_ 0.

(** *** intel_hdcp_update_srm *)

Definition intel_hdcp_update_srm (srm_blob_id_ : Z) : M unit :=
  blob <- lift (drm_property_lookup_blob srm_blob_id_) ;;
  match blob with
  | None => ret tt
  | Some blob =>
      match blob_data blob with
      | None => ret tt
      | Some _ =>
          r <- call (intel_hdcp_parse_srm blob) ;;
          when (negb (truthy r)) (modify_conn (with_srm_blob_id srm_blob_id_))
          (* drm_property_blob_put(blob) drops the reference of the lookup *)
      end
  end.

(** *** intel_hdcp_check_link *)

(** [out: mutex_unlock(&connector->hdcp_mutex); return ret;] *)
Definition out {A} (r : Z) : M A :=
  ev (EvMutexUnlock hdcp_mutex) ;; return_ r.

(** Implements Part 3 of the HDCP authorization procedure *)
Definition intel_hdcp_check_link : M Z :=
  c <- get_conn ;;
  p <- deref (dig_port c) ;;
  when (negb (has_shim c)) (return_ (- ENOENT)) ;;
  ev (EvMutexLock hdcp_mutex) ;;
  when (content_protection_eqb (hdcp_value c) UNDESIRED) (out 0) ;;
  v <- i915_read (PORT_HDCP_STATUS p) ;;
  when (negb (truthy (Z.land v HDCP_STATUS_ENC)))
       (_ <- i915_read (PORT_HDCP_STATUS p) ;;
        drm_log "%s:%d HDCP check failed: link is not encrypted,%x" ;;
        modify_conn (with_hdcp_value DESIRED) ;;
        ev (EvScheduleWork hdcp_prop_work) ;;
        out (- ENXIO)) ;;
  shim <- deref (hdcp_shim c) ;;
  link_ok <- shim_call SHIM_check_link (check_link shim) ;;
  when link_ok
       (c <- get_conn ;;
        when (negb (content_protection_eqb (hdcp_value c) UNDESIRED))
             (modify_conn (with_hdcp_value ENABLED) ;;
              ev (EvScheduleWork hdcp_prop_work)) ;;
        out 0) ;;
  drm_log "[%s:%d] HDCP link failed, retrying authentication" ;;
  r <- call _intel_hdcp_disable ;;
  when (truthy r)
       (drm_log "Failed to disable hdcp (%d)" ;;
        modify_conn (with_hdcp_value DESIRED) ;;
        ev (EvScheduleWork hdcp_prop_work) ;;
        out r) ;;
  r <- call _intel_hdcp_enable ;;
  when (truthy r)
       (drm_log "Failed to enable hdcp (%d)" ;;
        modify_conn (with_hdcp_value DESIRED) ;;
        ev (EvScheduleWork hdcp_prop_work) ;;
        out r) ;;
  out r.

End Driver.

Arguments intel_hdcp_shim : clear implicits.
Arguments i915_power_well : clear implicits.
Arguments platform : clear implicits.
Arguments intel_connector : clear implicits.
Arguments state : clear implicits.

(** ** Notions of the specification *)

(** Number of set bits among the low 40 bits of a value. *)
Definition popcount40 (v : Z) : Z :=
  fold_left (fun acc i => acc + Z.b2z (Z.testbit v (Z.of_nat i))) (seq 0 40) 0.

(** The 5 bytes of a 40-bit value, least significant first. *)
Definition ksv_of_value (v : Z) : list Z :=
  map (fun k => Z.land (Z.shiftr v (8 * Z.of_nat k)) 255) (seq 0 5).

(** A well-formed KSV: 5 bytes. *)
Definition is_byte (b : Z) : Prop := 0 <= b < 256.
Definition is_ksv (k : list Z) : Prop := length k = 5%nat /\ Forall is_byte k.

(** The 5 bytes a KSV pointer designates. *)
Definition ksv_at (buf : list Z) (off : Z) : list Z :=
  map (fun j => byte_at buf (off + Z.of_nat j)) (seq 0 5).

(** A synthetic SRM: a header, the 24-bit length of what follows it, the VRL
    segments (a count byte and that many KSVs each) and the DCP signature. *)
Definition vrl_segment (ksvs : list (list Z)) : list Z :=
  Z.of_nat (length ksvs) :: concat ksvs.

Definition vrl_payload (segs : list (list (list Z))) : list Z :=
  concat (map vrl_segment segs).

Definition be24 (n : Z) : list Z :=
  [u8 (Z.shiftr n 16); u8 (Z.shiftr n 8); u8 n].

Definition srm_data {drm : drm_hdcp_h} (header : list Z)
           (segs : list (list (list Z))) (sig : list Z) : list Z :=
  header ++
  be24 (Z.of_nat (length (vrl_payload segs)) + DRM_HDCP_1_4_VRL_LENGTH_SIZE +
        DRM_HDCP_1_4_DCP_SIG_SIZE) ++
  vrl_payload segs ++ sig.

Definition srm_blob {drm : drm_hdcp_h} (header : list Z)
           (segs : list (list (list Z))) (sig : list Z) : drm_property_blob :=
  {| blob_length := Z.of_nat (length (srm_data header segs sig));
     blob_data := Some (srm_data header segs sig) |}.

(** The KSVs of an SRM, in the order of the blob. *)
Definition srm_ksvs (segs : list (list (list Z))) : list (list Z) := concat segs.

(** A well-formed VRL segment: at most 255 KSVs, as its count is one byte. *)
Definition wf_segment (seg : list (list Z)) : Prop :=
  (length seg <= 255)%nat /\ Forall is_ksv seg.

(** The register writes of a trace, in order. *)
Definition reg_writes (t : list event) : list (reg * Z) :=
  flat_map (fun e => match e with EvWrite r v => [(r, v)] | _ => [] end) t.

(** The framing of BSTATUS and M0 as the specification words it: the bytes
    left over from the KSVs and the two BSTATUS bytes are consecutive bytes
    of the hashed message, most significant first; the hardware supplies M0,
    for which zeros are written under the text width that was announced. *)
Definition be_word (bytes : list Z) : Z :=
  fold_left (fun acc b => acc * 256 + b) bytes 0.

Definition spec_tail {regs : i915_reg_h} (rep_ctl : Z) (leftover : list Z)
           (b0 b1 : Z) : list (reg * Z) :=
  match leftover with
  | [] =>
      [ (HDCP_REP_CTL, Z.lor rep_ctl HDCP_SHA1_TEXT_16);
        (HDCP_SHA_TEXT, be_word [b0; b1]);
        (HDCP_REP_CTL, Z.lor rep_ctl HDCP_SHA1_TEXT_0);
        (HDCP_SHA_TEXT, 0);
        (HDCP_REP_CTL, Z.lor rep_ctl HDCP_SHA1_TEXT_16);
        (HDCP_SHA_TEXT, 0) ]
  | [l0] =>
      [ (HDCP_REP_CTL, Z.lor rep_ctl HDCP_SHA1_TEXT_24);
        (HDCP_SHA_TEXT, be_word [l0; b0; b1]);
        (HDCP_REP_CTL, Z.lor rep_ctl HDCP_SHA1_TEXT_0);
        (HDCP_SHA_TEXT, 0);
        (HDCP_REP_CTL, Z.lor rep_ctl HDCP_SHA1_TEXT_8);
        (HDCP_SHA_TEXT, 0) ]
  | [l0; l1] =>
      [ (HDCP_REP_CTL, Z.lor rep_ctl HDCP_SHA1_TEXT_32);
        (HDCP_SHA_TEXT, be_word [l0; l1; b0; b1]);
        (HDCP_REP_CTL, Z.lor rep_ctl HDCP_SHA1_TEXT_0);
        (HDCP_SHA_TEXT, 0);
        (HDCP_SHA_TEXT, 0) ]
  | [l0; l1; l2] =>
      [ (HDCP_REP_CTL, Z.lor rep_ctl HDCP_SHA1_TEXT_32);
        (HDCP_SHA_TEXT, be_word [l0; l1; l2; b0]);
        (HDCP_REP_CTL, Z.lor rep_ctl HDCP_SHA1_TEXT_8);
        (HDCP_SHA_TEXT, b1);
        (HDCP_REP_CTL, Z.lor rep_ctl HDCP_SHA1_TEXT_0);
        (HDCP_SHA_TEXT, 0);
        (HDCP_REP_CTL, Z.lor rep_ctl HDCP_SHA1_TEXT_24);
        (HDCP_SHA_TEXT, 0) ]
  | _ => []
  end.

(** Words written under [HDCP_SHA_TEXT] in a list of writes. *)
Definition text_words (ws : list (reg * Z)) : Z :=
  Z.of_nat (length (filter (fun w => match fst w with
                                     | HDCP_SHA_TEXT => true
                                     | _ => false
                                     end) ws)).

(** The tail as specified, after [n] KSVs: the splice selected by the number
    of leftover bytes, zero words until the byte index is 60 within its
    64-byte block, and the length of the message in bits. *)
Definition spec_finish {regs : i915_reg_h} (rep_ctl : Z) (n : Z)
           (ksv_fifo : list Z) (b0 b1 : Z) : list (reg * Z) :=
  let ksv_words := (5 * n) / 4 in
  let leftover := skipn (Z.to_nat (4 * ksv_words)) (firstn (Z.to_nat (5 * n)) ksv_fifo) in
  let tail := spec_tail rep_ctl leftover b0 b1 in
  let idx := 4 * (ksv_words + text_words tail) in
  tail ++
  [(HDCP_REP_CTL, Z.lor rep_ctl HDCP_SHA1_TEXT_32)] ++
  repeat (HDCP_SHA_TEXT, 0) (Z.to_nat ((60 - idx mod 64) / 4)) ++
  [(HDCP_SHA_TEXT, (n * 5 + 10) * 8)].

(** The word that holds the bytes left over from the KSVs, most significant
    first, the rest of it empty. *)
Definition leftover_word (bytes : list Z) : Z :=
  be_word (bytes ++ repeat 0 (4 - length bytes)).

(** The [l] bytes of the FIFO from offset [p] on. *)
Definition fifo_bytes (ksv_fifo : list Z) (p l : Z) : list Z :=
  map (fun j => byte_at ksv_fifo (p + Z.of_nat j)) (seq 0 (Z.to_nat l)).

(** The locals of the framer after [i] KSVs: the whole words have been
    written, and the bytes that did not fill a word are held at the top of
    [sha_text]. *)
Definition framed (ksv_fifo : list Z) (i : Z) (st : sha_state) : Prop :=
  sha_leftovers st = (5 * i) mod 4 /\
  sha_idx st = 4 * ((5 * i) / 4) /\
  sha_text st =
    leftover_word (fifo_bytes ksv_fifo (4 * ((5 * i) / 4)) ((5 * i) mod 4)).

(** Whether a message has been logged. *)
Definition logged (msg : string) (t : list event) : bool :=
  existsb (fun e => match e with EvLog m => String.eqb m msg | _ => false end) t.

Section TraceNotions.

Context {H : Type}.

(** The state in which the link check starts its retry: the mutex is held,
    the status register has been read with answer [h1] of the hardware, the
    shim's link check has failed with answer [h2], and the retry is logged. *)
Definition retrying (h1 h2 : H) (s : state H) : state H :=
  emit (EvLog "[%s:%d] HDCP link failed, retrying authentication")
    (set_hw h2 (emit (EvShim SHIM_check_link)
                  (set_hw h1 (emit (EvMutexLock hdcp_mutex) s)))).

(** The way out of a failed retry: the failure is logged, the state is
    demoted to Desired, the property work is scheduled and the mutex is
    released. *)
Definition demoted (msg : string) (s : state H) : state H :=
  emit (EvMutexUnlock hdcp_mutex)
    (emit (EvScheduleWork hdcp_prop_work)
       (set_conn (with_hdcp_value DESIRED (conn s)) (emit (EvLog msg) s))).

(** A statement is silent when it does not report an invalid number of
    leftovers. *)
Definition silent {A} (m : @M H A) : Prop :=
  forall s : state H,
    logged invalid_leftovers_msg (trace s) = false ->
    logged invalid_leftovers_msg (trace (snd (m s))) = false.

(** A statement writes [ws] when every run of it that goes on has made
    exactly the register writes [ws], in this order. *)
Definition writes {A} (m : @M H A) (ws : list (reg * Z)) : Prop :=
  forall (s : state H) a s',
    m s = (Next a, s') ->
    reg_writes (trace s') = reg_writes (trace s) ++ ws.

(** A statement yields [Q] when no run of it ends in undefined behaviour or
    outlives a budget of the model, and the value it goes on with, if it
    goes on, satisfies [Q]. *)
Definition yields {A} (m : @M H A) (Q : A -> Prop) : Prop :=
  forall s : state H,
    match fst (m s) with
    | Next a => Q a
    | Return _ => True
    | Abort => False
    end.

End TraceNotions.

(** ** A bench for running the driver

    Register bits and protocol constants with the values of the HDCP 1.4
    headers, and a platform whose answers are fixed by a small record, for
    running the embedding on concrete inputs. *)

Module Bench.

Definition BIT (n : Z) : Z := Z.shiftl 1 n.

Definition regs : i915_reg_h := {|
  HDCP_AKSV_SEND_TRIGGER := BIT 31;
  HDCP_CLEAR_KEYS_TRIGGER := BIT 30;
  HDCP_KEY_LOAD_TRIGGER := BIT 8;
  HDCP_FUSE_IN_PROGRESS := BIT 7;
  HDCP_FUSE_ERROR := BIT 6;
  HDCP_FUSE_DONE := BIT 5;
  HDCP_KEY_LOAD_STATUS := BIT 1;
  HDCP_KEY_LOAD_DONE := BIT 0;
  HDCP_DDIA_REP_PRESENT := BIT 29;
  HDCP_DDIB_REP_PRESENT := BIT 30;
  HDCP_DDIC_REP_PRESENT := BIT 28;
  HDCP_DDID_REP_PRESENT := BIT 27;
  HDCP_DDIE_REP_PRESENT := BIT 25;
  HDCP_DDIA_SHA1_M0 := Z.shiftl 2 20;
  HDCP_DDIB_SHA1_M0 := Z.shiftl 1 20;
  HDCP_DDIC_SHA1_M0 := Z.shiftl 3 20;
  HDCP_DDID_SHA1_M0 := Z.shiftl 4 20;
  HDCP_DDIE_SHA1_M0 := Z.shiftl 6 20;
  HDCP_SHA1_READY := BIT 17;
  HDCP_SHA1_COMPLETE := BIT 18;
  HDCP_SHA1_V_MATCH := BIT 19;
  HDCP_SHA1_TEXT_32 := Z.shiftl 1 1;
  HDCP_SHA1_COMPLETE_HASH := Z.shiftl 2 1;
  HDCP_SHA1_TEXT_24 := Z.shiftl 4 1;
  HDCP_SHA1_TEXT_16 := Z.shiftl 5 1;
  HDCP_SHA1_TEXT_8 := Z.shiftl 6 1;
  HDCP_SHA1_TEXT_0 := Z.shiftl 7 1;
  HDCP_CONF_CAPTURE_AN := BIT 0;
  HDCP_CONF_AUTH_AND_ENC := Z.lor (BIT 1) (BIT 0);
  HDCP_STATUS_ENC := BIT 20;
  HDCP_STATUS_RI_MATCH := BIT 19;
  HDCP_STATUS_R0_READY := BIT 18;
  HDCP_STATUS_AN_READY := BIT 17;
  SKL_PCODE_LOAD_HDCP_KEYS := 5;
  HSW_DISP_PW_GLOBAL := 15;
  SKL_DISP_PW_1 := 14
|}.

Definition drm : drm_hdcp_h := {|
  DRM_HDCP_MAX_DEVICE_EXCEEDED := fun x => Z.land x (BIT 7);
  DRM_HDCP_MAX_CASCADE_EXCEEDED := fun x => Z.land x (BIT 3);
  DRM_HDCP_NUM_DOWNSTREAM := fun x => Z.land x 127;
  DRM_HDCP_DEPTH := fun x => Z.land x 7;
  DRM_HDCP_V_PRIME_NUM_PARTS := 5;
  DRM_HDCP_CHECK_PERIOD_MS := 128 * 16;
  DRM_MODE_HDCP_KSV_LEN := 5;
  DRM_HDCP_AN_LEN := 8;
  DRM_HDCP_RI_LEN := 2;
  sizeof_cp_srm_header := 5;
  srm_id := fun header => Z.shiftr (byte_at header 0) 4;
  DRM_HDCP_1_4_SRM_ID := 8;
  DRM_HDCP_1_4_VRL_LENGTH_SIZE := 3;
  DRM_HDCP_1_4_DCP_SIG_SIZE := 40
|}.

(** The answers of the hardware, the receiver and the kernel. *)
Record answers : Type := {
  a_reg : Z;                 (* what every register read yields *)
  a_wait : Z;                (* what every bounded wait returns *)
  a_alloc : bool;            (* whether kzalloc succeeds *)
  a_link : bool;             (* the shim's check_link *)
  a_ksv_ready : bool;
  a_bksv : list Z;
  a_bstatus : list Z;
  a_ksv_fifo : list Z;
  a_repeater : bool;
  a_blob : option drm_property_blob
}.

Definition shim : intel_hdcp_shim answers := {|
  write_an_aksv := fun _ h => (0, h);
  read_bksv := fun h => ((0, a_bksv h), h);
  read_bstatus := fun h => ((0, a_bstatus h), h);
  repeater_present := fun h => ((0, a_repeater h), h);
  read_ri_prime := fun h => ((0, [0; 0]), h);
  read_ksv_ready := fun h => ((0, a_ksv_ready h), h);
  read_ksv_fifo := fun _ h => ((0, a_ksv_fifo h), h);
  read_v_prime_part := fun _ h => ((0, 0), h);
  toggle_signalling := fun _ h => (0, h);
  check_link := fun h => (a_link h, h);
  hdcp_capable := None
|}.

Definition plat : platform answers := {|
  I915_READ := fun _ h => (a_reg h, h);
  I915_WRITE := fun _ _ h => h;
  intel_wait_for_register := fun _ _ _ _ h => (a_wait h, h);
  __intel_wait_for_register := fun _ _ _ _ _ h => ((a_wait h, a_reg h), h);
  wait_for := fun _ _ _ h => (a_wait h, h);
  __wait_for := fun op cond _ _ _ h =>
    let (x, h') := op h in
    ((if cond x then 0 else - ETIMEDOUT, x), h');
  jiffies := fun _ => 0;
  wait_remaining_ms_from_jiffies := fun _ _ h => h;
  get_random_u32 := fun h => (0, h);
  sandybridge_pcode_write := fun _ _ h => (0, h);
  kzalloc := fun _ h => (a_alloc h, h);
  drm_property_lookup_blob := fun _ h => (a_blob h, h);
  power_wells := [ {| id := 14; is_enabled := fun h => (true, h) |} ];
  IS_HASWELL := false;
  IS_BROADWELL := false;
  IS_SKYLAKE := false;
  IS_KABYLAKE := false
|}.

Definition no_downstream_info : cp_downstream_info :=
  {| device_count := 0; depth := 0; bksv := zeros 5; ksv_list := zeros 635;
     is_repeater := false |}.

Definition connector (v : content_protection) (store : heap_ptr) (cnt : Z)
  : intel_connector answers :=
  {| dig_port := Some PORT_B; hdcp_shim := Some shim; hdcp_value := v;
     downstream_info := no_downstream_info;
     revocated_ksv_list := store; revocated_ksv_cnt := cnt; srm_blob_id := 0 |}.

Definition start (a : answers) (c : intel_connector answers) : state answers :=
  {| hw := a; conn := c; trace := [] |}.

Definition quiet : answers :=
  {| a_reg := 0; a_wait := 0; a_alloc := true; a_link := true;
     a_ksv_ready := true; a_bksv := [0; 0; 0; 0; 0]; a_bstatus := [0; 0];
     a_ksv_fifo := []; a_repeater := false; a_blob := None |}.

End Bench.

Module BenchSrm.
Import Bench.

Definition header : list Z := [128; 0; 0; 1; 0].
Definition sig : list Z := map (fun i => 160 + Z.of_nat i) (seq 0 40).

(** An SRM with one VRL that revokes one KSV. *)
Definition ksv1 : list Z := [17; 34; 51; 68; 85].
Definition one_ksv : drm_property_blob := srm_blob (drm := drm) header [[ksv1]] sig.

(** A blob whose payload is the single byte 1: the segment announces one KSV
    and the payload ends right after the count. *)
Definition overrun_data : list Z := header ++ [0; 0; 44] ++ [1] ++ sig.
Definition overrun : drm_property_blob :=
  {| blob_length := Z.of_nat (length overrun_data); blob_data := Some overrun_data |}.

(** A connector that already holds one revoked KSV, on a system where the
    allocation of a new list fails while [one_ksv] is being applied. *)
Definition ksv_old : list Z := [1; 2; 3; 4; 5].

Definition no_memory : answers :=
  {| a_reg := 0; a_wait := 0; a_alloc := false; a_link := true;
     a_ksv_ready := true; a_bksv := [0; 0; 0; 0; 0]; a_bstatus := [0; 0];
     a_ksv_fifo := []; a_repeater := false; a_blob := Some one_ksv |}.

Definition no_memory_start : state answers :=
  start no_memory (connector DESIRED (Live ksv_old) 1).

Definition quiet_start : state answers :=
  start quiet (connector DESIRED Null 0).

End BenchSrm.

Module BenchSha.
Import Bench.

(** KSVs with distinct bytes. *)
Definition ksv_fifo : list Z :=
  [17; 34; 51; 68; 85;  102; 119; 136; 153; 170;
   27; 43; 59; 75; 91;  107; 123; 139; 155; 171].

(** HDCP_DDIB_REP_PRESENT | HDCP_DDIB_SHA1_M0 *)
Definition rep_ctl : Z := Z.lor (BIT 30) (Z.shiftl 1 20).

Definition s0 : state answers := start quiet (connector DESIRED Null 0).

Definition init : sha_state := {| sha_idx := 0; sha_text := 0; sha_leftovers := 0 |}.

(** A repeater with two downstream devices whose hash matches. *)
Definition repeater2 : answers :=
  {| a_reg := BIT 19; a_wait := 0; a_alloc := true; a_link := true;
     a_ksv_ready := true; a_bksv := [0; 0; 0; 0; 0]; a_bstatus := [2; 0];
     a_ksv_fifo := firstn 10 ksv_fifo; a_repeater := true; a_blob := None |}.

Definition repeater2_start : state answers :=
  start repeater2 (connector DESIRED Null 0).

(** The KSV FIFO of seven devices: the four KSVs above and three more. *)
Definition ksv_fifo7 : list Z :=
  ksv_fifo ++
  [28; 44; 60; 76; 92;  108; 124; 140; 153; 170;  29; 45; 61; 77; 93].

(** The FIFO of a repeater with [n] of these devices behind it. *)
Definition fifo (n : Z) : list Z := firstn (Z.to_nat (5 * n)) ksv_fifo7.

(** A repeater with [n] downstream devices at depth 2 whose hash matches.
    The driver takes the device count from the low seven bits of the first
    byte of BSTATUS, so that BSTATUS is [n] 02. *)
Definition repeater (n : Z) : answers :=
  {| a_reg := BIT 19; a_wait := 0; a_alloc := true; a_link := true;
     a_ksv_ready := true; a_bksv := [0; 0; 0; 0; 0]; a_bstatus := [n; 2];
     a_ksv_fifo := fifo n; a_repeater := true; a_blob := None |}.

Definition repeater_start (n : Z) : state answers :=
  start (repeater n) (connector DESIRED Null 0).

(** The register writes of [intel_hdcp_auth_downstream] on that repeater, in
    order. *)
Definition code_writes (n : Z) : list (reg * Z) :=
  reg_writes (trace (snd (intel_hdcp_auth_downstream
                            (regs := regs) (drm := drm) (plat := plat)
                            (repeater_start n)))).

(** The tail among those writes.  Before it come the five parts of V', the
    text width and one text word for every four bytes of the KSVs; after it
    comes the request to complete the hash. *)
Definition code_tail (n : Z) : list (reg * Z) :=
  removelast (skipn (Z.to_nat (5 + 1 + (5 * n) / 4)) (code_writes n)).

(** The tail as specified for that repeater. *)
Definition spec_tail_of (n : Z) : list (reg * Z) :=
  spec_finish (regs := regs) rep_ctl n (fifo n) n 2.

End BenchSha.

Module BenchLink.
Import Bench.

(** The link is still encrypting, the shim's link check fails and the
    status register does not clear when HDCP is switched off. *)
Definition stuck : answers :=
  {| a_reg := BIT 20; a_wait := - ETIMEDOUT; a_alloc := true; a_link := false;
     a_ksv_ready := true; a_bksv := [0; 0; 0; 0; 0]; a_bstatus := [0; 0];
     a_ksv_fifo := []; a_repeater := false; a_blob := None |}.

Definition stuck_start : state answers := start stuck (connector ENABLED Null 0).

End BenchLink.

Module BenchAuth.
Import Bench.

(** A receiver that answers every read of Bksv with the all-zero KSV. *)
Definition zero_bksv_shim : intel_hdcp_shim answers := {|
  write_an_aksv := write_an_aksv shim;
  read_bksv := fun h => ((0, [0; 0; 0; 0; 0]), h);
  read_bstatus := read_bstatus shim;
  repeater_present := repeater_present shim;
  read_ri_prime := read_ri_prime shim;
  read_ksv_ready := read_ksv_ready shim;
  read_ksv_fifo := read_ksv_fifo shim;
  read_v_prime_part := read_v_prime_part shim;
  toggle_signalling := toggle_signalling shim;
  check_link := check_link shim;
  hdcp_capable := None
|}.

Definition zero_bksv_start : state answers :=
  {| hw := quiet;
     conn := {| dig_port := Some PORT_B; hdcp_shim := Some zero_bksv_shim;
                hdcp_value := DESIRED; downstream_info := no_downstream_info;
                revocated_ksv_list := Null; revocated_ksv_cnt := 0;
                srm_blob_id := 0 |};
     trace := [] |}.

(** A session that is enabled, and a repeater that reports no device. *)
Definition enabled_start : state answers := start quiet (connector ENABLED Null 0).
Definition no_device_start : state answers := start quiet (connector DESIRED Null 0).

End BenchAuth.

(** ** Work items and atomic hooks *)

(** struct drm_connector_state, the fields intel_hdcp.c uses; [crtc] tells
    whether the state's crtc pointer is set.  The field content_protection is
    spelled [content_protection_value], as the type of its values has the
    name. *)
Record drm_connector_state : Type := {
  crtc : bool;
  content_protection_value : content_protection;
  cp_srm_blob_id : Z
}.

Definition with_content_protection (v : content_protection)
           (st : drm_connector_state) : drm_connector_state :=
  {| crtc := crtc st; content_protection_value := v;
     cp_srm_blob_id := cp_srm_blob_id st |}.

(** *** intel_hdcp_atomic_check *)

Definition intel_hdcp_atomic_check (old_state new_state : drm_connector_state)
  : drm_connector_state :=
  let old_cp := content_protection_value old_state in
  let new_cp := content_protection_value new_state in
  if negb (crtc new_state) then
    (* If the connector is being disabled with CP enabled, mark it desired so
       it's re-enabled when the connector is brought back *)
    if content_protection_eqb old_cp ENABLED
    then with_content_protection DESIRED new_state
    else new_state
  else
    (* Nothing to do if the state didn't change, or HDCP was activated since
       the last commit *)
    if content_protection_eqb old_cp new_cp ||
       (content_protection_eqb old_cp DESIRED &&
        content_protection_eqb new_cp ENABLED)
    then new_state
    else new_state.

Section Hooks.

Context {regs : i915_reg_h} {drm : drm_hdcp_h} {H : Type} {plat : platform H}.

(** The services of the DRM core that the work items call; they are defined
    outside intel_hdcp.c. *)
Class drm_core : Type := {
  (* drm_modeset_lock(&dev->mode_config.connection_mutex, NULL) *)
  drm_modeset_lock : H -> H;
  drm_modeset_unlock : H -> H;
  drm_mode_connector_update_cp_downstream_property :
    cp_downstream_info -> H -> Z * H
}.

Context {core : drm_core}.

Local Notation "x <- m ;; k" := (bind m (fun x => k))
  (at level 61, m at next level, right associativity).
Local Notation "m ;; k" := (bind m (fun _ => k))
  (at level 61, right associativity).

(** *** intel_hdcp_enable_work *)

Definition intel_hdcp_enable_work : M (H := H) unit :=
  ev (EvMutexLock hdcp_mutex) ;;
  r <- call _intel_hdcp_enable ;;
  when (negb (truthy r))
       (c <- get_conn ;;
        r <- lift (drm_mode_connector_update_cp_downstream_property
                     (downstream_info c)) ;;
        when (truthy r) (drm_log "Downstream_property update failed.%d")) ;;
  ev (EvMutexUnlock hdcp_mutex).

(** *** intel_hdcp_check_work *)

Definition intel_hdcp_check_work : M (H := H) unit :=
  r <- call intel_hdcp_check_link ;;
  when (negb (truthy r))
       (ev (EvScheduleDelayedWork hdcp_check_work DRM_HDCP_CHECK_PERIOD_MS)).

(** *** intel_hdcp_prop_work

    The connector state that [connector->base.state] designates is passed in
    and the value is that state after the work item. *)

Definition intel_hdcp_prop_work (state : drm_connector_state)
  : M (H := H) drm_connector_state :=
  lift (fun h => (tt, drm_modeset_lock h)) ;;
  ev (EvMutexLock hdcp_mutex) ;;
  c <- get_conn ;;
  (* This worker is only used to flip between ENABLED/DESIRED. Either of
     those to UNDESIRED is handled by core. If hdcp_value == UNDESIRED,
     we're running just after hdcp has been disabled, so just exit *)
  let state :=
    if negb (content_protection_eqb (hdcp_value c) UNDESIRED)
    then with_content_protection (hdcp_value c) state
    else state in
  ev (EvMutexUnlock hdcp_mutex) ;;
  lift (fun h => (tt, drm_modeset_unlock h)) ;;
  ret state.

(** *** intel_hdcp_atomic_pre_commit *)

Definition intel_hdcp_atomic_pre_commit (old_state new_state : drm_connector_state)
  : M (H := H) unit :=
  let old_cp := content_protection_value old_state in
  let new_cp := content_protection_value new_state in
  (* Disable HDCP if the connector is becoming disabled, or if requested via
     the property. *)
  when ((negb (crtc new_state) &&
         negb (content_protection_eqb old_cp UNDESIRED)) ||
        (crtc new_state &&
         negb (content_protection_eqb old_cp UNDESIRED) &&
         content_protection_eqb new_cp UNDESIRED))
       (_ <- call intel_hdcp_disable ;; ret tt).

(** *** intel_hdcp_atomic_commit *)

Definition intel_hdcp_atomic_commit (new_state : drm_connector_state)
  : M (H := H) unit :=
  let new_cp := content_protection_value new_state in
  c <- get_conn ;;
  when (truthy (cp_srm_blob_id new_state) &&
        negb (cp_srm_blob_id new_state =? srm_blob_id c))
       (intel_hdcp_update_srm (cp_srm_blob_id new_state)) ;;
  (* Enable hdcp if it's desired *)
  when (crtc new_state && content_protection_eqb new_cp DESIRED)
       (_ <- call intel_hdcp_enable ;; ret tt).

End Hooks.

Arguments drm_core : clear implicits.

(** ** What a statement leaves alone *)

(** Events other than taking and releasing a lock. *)
Definition unlocked (e : event) : bool :=
  match e with
  | EvMutexLock _ | EvMutexUnlock _ => false
  | _ => true
  end.

Definition lock_eqb (a b : lock) : bool :=
  match a, b with
  | hdcp_mutex, hdcp_mutex | pcu_lock, pcu_lock
  | power_domains_lock, power_domains_lock => true
  | _, _ => false
  end.

(** How often a trace has taken lock [l] without releasing it. *)
Definition held (l : lock) (t : list event) : Z :=
  fold_right
    (fun e n =>
       match e with
       | EvMutexLock l' => if lock_eqb l l' then n + 1 else n
       | EvMutexUnlock l' => if lock_eqb l l' then n - 1 else n
       | _ => n
       end) 0 t.

Section Frames.

Context {H : Type}.

(** A statement keeps a relation on states when the state after any run of
    it is related to the state before. *)
Definition keeps {A} (R : state H -> state H -> Prop) (m : @M H A) : Prop :=
  forall s : state H, R s (snd (m s)).

(** A relation on connectors, as a relation on states. *)
Definition on_conn (R : intel_connector H -> intel_connector H -> Prop)
  : state H -> state H -> Prop :=
  fun s s' => R (conn s) (conn s').

(** The revocation store: the list, its count and the SRM blob it came
    from. *)
Definition same_store (c c' : intel_connector H) : Prop :=
  revocated_ksv_list c' = revocated_ksv_list c /\
  revocated_ksv_cnt c' = revocated_ksv_cnt c /\
  srm_blob_id c' = srm_blob_id c.

(** The session: the port, the shim, the protection state and the
    downstream topology. *)
Definition same_session (c c' : intel_connector H) : Prop :=
  dig_port c' = dig_port c /\
  hdcp_shim c' = hdcp_shim c /\
  hdcp_value c' = hdcp_value c /\
  downstream_info c' = downstream_info c.

(** Everything but the downstream topology. *)
Definition same_but_downstream (c c' : intel_connector H) : Prop :=
  dig_port c' = dig_port c /\
  hdcp_shim c' = hdcp_shim c /\
  hdcp_value c' = hdcp_value c /\
  same_store c c'.

(** Every lock is held as often after as before. *)
Definition balanced (s s' : state H) : Prop :=
  forall l, held l (trace s') = held l (trace s).

(** A statement that is entered with lock [l] held [c] times by the function
    it belongs to falls through with the lock held [cn] times and returns
    with the lock released. *)
Definition locking {A} (l : lock) (c cn : Z) (m : @M H A) : Prop :=
  forall s : state H,
    match m s with
    | (Next _, s') => held l (trace s') - held l (trace s) = cn - c
    | (Return _, s') => held l (trace s') - held l (trace s) = - c
    | (Abort, _) => True
    end.

(** A statement releases its locks when every run of it that comes to an
    end, by falling through or by a return, holds every lock as often as
    before. *)
Definition releases {A} (m : @M H A) : Prop :=
  forall (s : state H) (l : lock),
    match fst (m s) with
    | Abort => True
    | _ => held l (trace (snd (m s))) = held l (trace s)
    end.

(** What the events of a trace weigh together. *)
Definition weight (w : event -> Z) (t : list event) : Z :=
  fold_right (fun e a => w e + a) 0 t.

(** A statement adds at most [n] when the events any run of it appends to
    the trace weigh [n] at most, whatever its outcome. *)
Definition adds {A} (w : event -> Z) (n : Z) (m : @M H A) : Prop :=
  forall s : state H,
    exists t, trace (snd (m s)) = trace s ++ t /\ weight w t <= n.

End Frames.

Definition shim_op_eqb (a b : shim_op) : bool :=
  match a, b with
  | SHIM_write_an_aksv, SHIM_write_an_aksv
  | SHIM_read_bksv, SHIM_read_bksv
  | SHIM_read_bstatus, SHIM_read_bstatus
  | SHIM_repeater_present, SHIM_repeater_present
  | SHIM_read_ri_prime, SHIM_read_ri_prime
  | SHIM_read_ksv_ready, SHIM_read_ksv_ready
  | SHIM_read_ksv_fifo, SHIM_read_ksv_fifo
  | SHIM_read_v_prime_part, SHIM_read_v_prime_part
  | SHIM_check_link, SHIM_check_link
  | SHIM_hdcp_capable, SHIM_hdcp_capable => true
  | SHIM_toggle_signalling x, SHIM_toggle_signalling y => Bool.eqb x y
  | _, _ => false
  end.

(** The weight that counts the calls of one operation of the shim. *)
Definition calls (op : shim_op) (e : event) : Z :=
  match e with
  | EvShim op' => if shim_op_eqb op op' then 1 else 0
  | _ => 0
  end.

(** A statement stays within the retry budget of [n] authentication
    attempts when no run of it writes An and Aksv more than [n] times, reads
    Bksv more than twice as often or reads Ri' more than three times as
    often. *)
Definition within_retry_budget {H A} (n : Z) (m : @M H A) : Prop :=
  adds (calls SHIM_write_an_aksv) n m /\
  adds (calls SHIM_read_bksv) (2 * n) m /\
  adds (calls SHIM_read_ri_prime) (3 * n) m.

Section Confirmed.

Context {regs : i915_reg_h} {H : Type} {plat : platform H}.

(** The hardware has confirmed an authentication on port [p] when each of
    the four waits of Part 1 has returned 0 in some state of the hardware:
    for An, for R0, for the match of Ri' and for encryption. *)
Definition confirmed (p : port) : Prop :=
  (exists h, fst (intel_wait_for_register (PORT_HDCP_STATUS p)
                    HDCP_STATUS_AN_READY HDCP_STATUS_AN_READY 1 h) = 0) /\
  (exists h, fst (wait_for (PORT_HDCP_STATUS p)
                    (Z.lor HDCP_STATUS_R0_READY HDCP_STATUS_ENC) 1 h) = 0) /\
  (exists h, fst (wait_for (PORT_HDCP_STATUS p)
                    (Z.lor HDCP_STATUS_RI_MATCH HDCP_STATUS_ENC) 1 h) = 0) /\
  (exists h, fst (intel_wait_for_register (PORT_HDCP_STATUS p)
                    HDCP_STATUS_ENC HDCP_STATUS_ENC 20 h) = 0).

End Confirmed.

(** ** A bench for the work items *)

Module BenchHooks.
Import Bench.

(** A DRM core whose locks are free and whose property update succeeds. *)
Definition core : drm_core answers := {|
  drm_modeset_lock := fun h => h;
  drm_modeset_unlock := fun h => h;
  drm_mode_connector_update_cp_downstream_property := fun _ h => (0, h)
|}.

(** A KSV with 20 ones, and hardware whose keys are loaded, whose link
    encrypts and whose receiver answers with that KSV. *)
Definition good_ksv : list Z := [15; 15; 15; 15; 15].

Definition ready : answers :=
  {| a_reg := Z.lor (BIT 20) 3; a_wait := 0; a_alloc := true; a_link := true;
     a_ksv_ready := true; a_bksv := good_ksv; a_bstatus := [0; 0];
     a_ksv_fifo := []; a_repeater := false; a_blob := None |}.

Definition ready_start (v : content_protection) : state answers :=
  start ready (connector v Null 0).

(** The same receiver in front of a store that revokes its KSV. *)
Definition revoked_receiver_start : state answers :=
  start ready (connector DESIRED (Live good_ksv) 1).

(** A repeater that reports one device, whose KSV the store revokes. *)
Definition revoked_device : answers :=
  {| a_reg := Z.lor (BIT 20) 3; a_wait := 0; a_alloc := true; a_link := true;
     a_ksv_ready := true; a_bksv := [51; 51; 51; 51; 51]; a_bstatus := [1; 0];
     a_ksv_fifo := good_ksv; a_repeater := true; a_blob := None |}.

Definition revoked_device_start : state answers :=
  start revoked_device (connector DESIRED (Live good_ksv) 1).

(** An SRM with one VRL that holds no KSV, offered to a connector whose
    store revokes one KSV. *)
Definition empty_srm : drm_property_blob :=
  srm_blob (drm := drm) BenchSrm.header [[]] BenchSrm.sig.

Definition empty_update : answers :=
  {| a_reg := 0; a_wait := 0; a_alloc := true; a_link := true;
     a_ksv_ready := true; a_bksv := [0; 0; 0; 0; 0]; a_bstatus := [0; 0];
     a_ksv_fifo := []; a_repeater := false; a_blob := Some empty_srm |}.

Definition empty_update_start : state answers :=
  start empty_update (connector DESIRED (Live good_ksv) 1).

(** A platform without the power well of the display. *)
Definition dark : platform answers := {|
  I915_READ := I915_READ (platform := plat);
  I915_WRITE := I915_WRITE (platform := plat);
  intel_wait_for_register := intel_wait_for_register (platform := plat);
  __intel_wait_for_register := __intel_wait_for_register (platform := plat);
  wait_for := wait_for (platform := plat);
  __wait_for := __wait_for (platform := plat);
  jiffies := jiffies (platform := plat);
  wait_remaining_ms_from_jiffies :=
    wait_remaining_ms_from_jiffies (platform := plat);
  get_random_u32 := get_random_u32 (platform := plat);
  sandybridge_pcode_write := sandybridge_pcode_write (platform := plat);
  kzalloc := kzalloc (platform := plat);
  drm_property_lookup_blob := drm_property_lookup_blob (platform := plat);
  power_wells := [];
  IS_HASWELL := false;
  IS_BROADWELL := false;
  IS_SKYLAKE := false;
  IS_KABYLAKE := false
|}.

End BenchHooks.

(** * Properties *)

(** ** Machine integers *)

Lemma u8_range x : 0 <= u8 x < 256.
Proof. unfold u8. change (2 ^ 8) with 256. apply Z.mod_pos_bound. lia. Qed.

Lemma u8_small x : 0 <= x < 256 -> u8 x = x.
Proof. intros Hx. unfold u8. change (2 ^ 8) with 256. apply Z.mod_small. exact Hx. Qed.

Lemma u32_small x : 0 <= x < 2 ^ 32 -> u32 x = x.
Proof. intros Hx. unfold u32. apply Z.mod_small. exact Hx. Qed.

Lemma s32_small x : 0 <= x < 2 ^ 31 -> s32 x = x.
Proof.
  intros Hx. unfold s32. rewrite Z.mod_small by lia.
  destruct (Z.ltb_spec x (2 ^ 31)); lia.
Qed.

(** ** C4: the KSV validator *)

Lemma b2z_range b : 0 <= Z.b2z b <= 1.
Proof. destruct b; simpl; lia. Qed.

Lemma hweight8_range w : 0 <= hweight8 w <= 8.
Proof.
  unfold hweight8. simpl.
  repeat match goal with
         | |- context [Z.b2z ?b] =>
             let H := fresh in pose proof (b2z_range b) as H;
             generalize dependent (Z.b2z b); intros
         end.
  lia.
Qed.

Lemma byte_of_value_bit v k j :
  0 <= k -> 0 <= j < 8 ->
  Z.testbit (Z.land (Z.shiftr v (8 * k)) 255) j = Z.testbit v (8 * k + j).
Proof.
  intros Hk Hj. rewrite Z.land_spec, Z.shiftr_spec by lia.
  replace (j + 8 * k) with (8 * k + j) by lia.
  assert (Z.testbit 255 j = true) as ->.
  { assert (j = 0 \/ j = 1 \/ j = 2 \/ j = 3 \/ j = 4 \/ j = 5 \/ j = 6 \/ j = 7)
      as D by lia.
    repeat (destruct D as [-> | D]; [reflexivity |]). subst. reflexivity. }
  apply andb_true_r.
Qed.

Lemma land_255_byte x : 0 <= Z.land x 255 < 256.
Proof.
  change 255 with (Z.ones 8). rewrite Z.land_ones by lia.
  apply Z.mod_pos_bound. lia.
Qed.

Lemma ksv_ones_unfold a0 a1 a2 a3 a4 rest :
  ksv_ones (a0 :: a1 :: a2 :: a3 :: a4 :: rest) =
  s32 (s32 (s32 (s32 (s32 (0 + hweight8 (u8 a0)) + hweight8 (u8 a1)) +
                 hweight8 (u8 a2)) + hweight8 (u8 a3)) + hweight8 (u8 a4)).
Proof. reflexivity. Qed.

Lemma ksv_ones_sum a0 a1 a2 a3 a4 rest :
  ksv_ones (a0 :: a1 :: a2 :: a3 :: a4 :: rest) =
  hweight8 (u8 a0) + hweight8 (u8 a1) + hweight8 (u8 a2) + hweight8 (u8 a3) +
  hweight8 (u8 a4).
Proof.
  rewrite ksv_ones_unfold.
  pose proof (hweight8_range (u8 a0)). pose proof (hweight8_range (u8 a1)).
  pose proof (hweight8_range (u8 a2)). pose proof (hweight8_range (u8 a3)).
  pose proof (hweight8_range (u8 a4)).
  rewrite (s32_small (0 + _)) by lia.
  rewrite (s32_small (0 + _ + _)) by lia.
  rewrite (s32_small (0 + _ + _ + _)) by lia.
  rewrite (s32_small (0 + _ + _ + _ + _)) by lia.
  rewrite (s32_small (0 + _ + _ + _ + _ + _)) by lia.
  lia.
Qed.

Lemma hweight8_of_value v k :
  0 <= k ->
  hweight8 (u8 (Z.land (Z.shiftr v (8 * k)) 255)) =
  Z.b2z (Z.testbit v (8 * k)) + Z.b2z (Z.testbit v (8 * k + 1)) +
  Z.b2z (Z.testbit v (8 * k + 2)) + Z.b2z (Z.testbit v (8 * k + 3)) +
  Z.b2z (Z.testbit v (8 * k + 4)) + Z.b2z (Z.testbit v (8 * k + 5)) +
  Z.b2z (Z.testbit v (8 * k + 6)) + Z.b2z (Z.testbit v (8 * k + 7)).
Proof.
  intros Hk. rewrite u8_small by apply land_255_byte.
  change (hweight8 (Z.land (Z.shiftr v (8 * k)) 255)) with
    (let w := Z.land (Z.shiftr v (8 * k)) 255 in
     0 + Z.b2z (Z.testbit w 0) + Z.b2z (Z.testbit w 1) + Z.b2z (Z.testbit w 2) +
     Z.b2z (Z.testbit w 3) + Z.b2z (Z.testbit w 4) + Z.b2z (Z.testbit w 5) +
     Z.b2z (Z.testbit w 6) + Z.b2z (Z.testbit w 7)).
  cbv zeta. rewrite !byte_of_value_bit by lia.
  rewrite Z.add_0_r. lia.
Qed.

Lemma ksv_ones_of_value v : ksv_ones (ksv_of_value v) = popcount40 v.
Proof.
  change (ksv_of_value v) with
    [Z.land (Z.shiftr v (8 * 0)) 255; Z.land (Z.shiftr v (8 * 1)) 255;
     Z.land (Z.shiftr v (8 * 2)) 255; Z.land (Z.shiftr v (8 * 3)) 255;
     Z.land (Z.shiftr v (8 * 4)) 255].
  rewrite ksv_ones_sum, !hweight8_of_value by lia.
  unfold popcount40.
  cbn [seq fold_left Z.of_nat Pos.of_succ_nat Pos.succ Z.mul Pos.mul Z.add
       Pos.add Pos.add_carry].
  lia.
Qed.

(** C4. For every 40-bit value the KSV validator answers true exactly when
    the population count of its 5 bytes is 20.  The validator is a function of
    the bytes alone: it reads no state and leaves none behind. *)
Theorem intel_hdcp_is_ksv_valid_popcount (v : Z) :
  intel_hdcp_is_ksv_valid (ksv_of_value v) = true <-> popcount40 v = 20.
Proof.
  unfold intel_hdcp_is_ksv_valid. rewrite ksv_ones_of_value.
  destruct (Z.eqb_spec (popcount40 v) 20) as [E | E]; simpl; split;
    intros; congruence.
Qed.

(** ** C5: revocation membership *)

Lemma ksv_match_spec ksvs ko rev ro :
  ksv_match ksvs ko rev ro = true <-> ksv_at ksvs ko = ksv_at rev ro.
Proof.
  unfold ksv_match, ksv_at.
  change (Z.to_nat DRM_HDCP_KSV_LEN) with 5%nat. unfold DRM_HDCP_KSV_LEN.
  cbn [ksv_match_from seq map Z.of_nat Pos.of_succ_nat Pos.succ].
  change (0 + 1) with 1. change (1 + 1) with 2. change (1 + 1 + 1) with 3.
  change (2 + 1) with 3. change (3 + 1) with 4.
  change (0 =? 5 - 1) with false. change (1 =? 5 - 1) with false.
  change (2 =? 5 - 1) with false. change (3 =? 5 - 1) with false.
  change (4 =? 5 - 1) with true.
  repeat match goal with
         | |- context [?a =? ?b] => destruct (Z.eqb_spec a b)
         end; cbn [negb]; split; intros E; try discriminate; try reflexivity;
    try (injection E; intros; congruence).
  all: unfold DRM_HDCP_KSV_LEN in *; try congruence; lia.
Qed.

Lemma rev_scan_spec n ksvs ko rev ro :
  rev_scan n ksvs ko rev ro = true <->
  exists i, (i < n)%nat /\ ksv_at ksvs ko = ksv_at rev (ro + 5 * Z.of_nat i).
Proof.
  revert ro. induction n as [| n IH]; intros ro; cbn [rev_scan].
  - split; [discriminate | intros (i & Hi & _); lia].
  - destruct (ksv_match ksvs ko rev ro) eqn:E.
    + split; [intros _ | reflexivity].
      exists 0%nat. split; [lia |]. apply ksv_match_spec in E.
      rewrite E. f_equal. lia.
    + rewrite IH. unfold DRM_HDCP_KSV_LEN. split.
      * intros (i & Hi & Hm). exists (S i). split; [lia |].
        rewrite Hm. f_equal. lia.
      * intros ([| i] & Hi & Hm).
        -- exfalso. replace (ro + 5 * Z.of_nat 0) with ro in Hm by lia.
           apply ksv_match_spec in Hm. congruence.
        -- exists i. split; [lia |]. rewrite Hm. f_equal. lia.
Qed.

Lemma cand_scan_spec n ksvs ko rev cnt :
  cand_scan n ksvs ko rev cnt = true <->
  exists c i, (c < n)%nat /\ (i < Z.to_nat cnt)%nat /\
              ksv_at ksvs (ko + 5 * Z.of_nat c) = ksv_at rev (5 * Z.of_nat i).
Proof.
  revert ko. induction n as [| n IH]; intros ko; cbn [cand_scan].
  - split; [discriminate | intros (c & i & Hc & _); lia].
  - destruct (rev_scan (Z.to_nat cnt) ksvs ko rev 0) eqn:E.
    + split; [intros _ | reflexivity].
      apply rev_scan_spec in E. destruct E as (i & Hi & Hm).
      exists 0%nat, i. repeat split; [lia | exact Hi |].
      replace (ko + 5 * Z.of_nat 0) with ko by lia. exact Hm.
    + rewrite IH. unfold DRM_HDCP_KSV_LEN. split.
      * intros (c & i & Hc & Hi & Hm). exists (S c), i.
        repeat split; [lia | exact Hi |]. rewrite <- Hm. f_equal. lia.
      * intros ([| c] & i & Hc & Hi & Hm).
        -- exfalso. replace (ko + 5 * Z.of_nat 0) with ko in Hm by lia.
           assert (rev_scan (Z.to_nat cnt) ksvs ko rev 0 = true) as T
               by (apply rev_scan_spec; exists i; split; [exact Hi | exact Hm]).
           congruence.
        -- exists c, i. repeat split; [lia | exact Hi |]. rewrite <- Hm.
           f_equal. lia.
Qed.

Lemma byte_at_app_l a b off :
  0 <= off < Z.of_nat (length a) -> byte_at (a ++ b) off = byte_at a off.
Proof.
  intros Ho. unfold byte_at. destruct (Z.ltb_spec off 0); [lia |].
  rewrite app_nth1 by lia. reflexivity.
Qed.

Lemma byte_at_app_r a b off :
  Z.of_nat (length a) <= off ->
  byte_at (a ++ b) off = byte_at b (off - Z.of_nat (length a)).
Proof.
  intros Ho. unfold byte_at.
  destruct (Z.ltb_spec off 0); [lia |].
  destruct (Z.ltb_spec (off - Z.of_nat (length a)) 0); [lia |].
  rewrite app_nth2 by lia. do 2 f_equal. lia.
Qed.

Lemma ksv_at_app_r a b off :
  Z.of_nat (length a) <= off ->
  ksv_at (a ++ b) off = ksv_at b (off - Z.of_nat (length a)).
Proof.
  intros Ho. unfold ksv_at. apply map_ext. intros j.
  rewrite byte_at_app_r by lia. f_equal. lia.
Qed.

Lemma ksv_at_head k rest : is_ksv k -> ksv_at (k ++ rest) 0 = k.
Proof.
  intros [Hl Hb]. destruct k as [| a0 [| a1 [| a2 [| a3 [| a4 [| ? ?]]]]]];
    try discriminate Hl.
  unfold ksv_at, byte_at. cbn.
  repeat match goal with
         | H : Forall _ (_ :: _) |- _ => inversion H; clear H; subst
         end.
  rewrite !u8_small by assumption. reflexivity.
Qed.

Lemma length_concat_ksvs l :
  Forall is_ksv l -> length (concat l) = (5 * length l)%nat.
Proof.
  induction 1 as [| k l [Hk _] _ IH]; [reflexivity |].
  cbn [concat length]. rewrite length_app, IH, Hk. lia.
Qed.

Lemma ksv_at_concat l i :
  Forall is_ksv l -> (i < length l)%nat ->
  ksv_at (concat l) (5 * Z.of_nat i) = nth i l [].
Proof.
  intros Hl. revert i. induction Hl as [| k l Hk Hl IH]; intros i Hi.
  - cbn in Hi. lia.
  - cbn [concat]. destruct i as [| i].
    + apply ksv_at_head. exact Hk.
    + rewrite ksv_at_app_r by (destruct Hk as [-> _]; lia).
      cbn [nth length] in *. rewrite <- IH by lia. f_equal.
      destruct Hk as [-> _]. lia.
Qed.

Lemma In_nth_iff (l : list (list Z)) k :
  In k l <-> exists i, (i < length l)%nat /\ nth i l [] = k.
Proof.
  split.
  - intros Hin. destruct (In_nth l k [] Hin) as (i & Hi & Hn).
    exists i. split; assumption.
  - intros (i & Hi & <-). apply nth_In. exact Hi.
Qed.

Lemma cand_scan_lists entries cands :
  Forall is_ksv entries -> Forall is_ksv cands ->
  cand_scan (length cands) (concat cands) 0 (concat entries)
            (Z.of_nat (length entries)) = true <->
  exists k, In k cands /\ In k entries.
Proof.
  intros He Hc. rewrite cand_scan_spec, Nat2Z.id. split.
  - intros (c & i & Hlc & Hli & Hm).
    rewrite Z.add_0_l, !ksv_at_concat in Hm by assumption.
    exists (nth c cands []). split.
    + apply nth_In. exact Hlc.
    + rewrite Hm. apply nth_In. exact Hli.
  - intros (k & Hkc & Hke).
    apply In_nth_iff in Hkc. destruct Hkc as (c & Hlc & Hnc).
    apply In_nth_iff in Hke. destruct Hke as (i & Hli & Hni).
    exists c, i. repeat split; try assumption.
    rewrite Z.add_0_l, !ksv_at_concat by assumption. congruence.
Qed.

(** The membership check on a well-formed store and candidate list. *)
Lemma ksvs_revocated_lists entries cands :
  Forall is_ksv entries -> Forall is_ksv cands ->
  exists b,
    intel_hdcp_ksvs_revocated (Live (concat entries))
      (Z.of_nat (length entries)) (concat cands) (Z.of_nat (length cands))
    = Some b /\
    (b = true <-> exists k, In k cands /\ In k entries).
Proof.
  intros He Hc. unfold intel_hdcp_ksvs_revocated.
  destruct (Z.eqb_spec (Z.of_nat (length entries)) 0) as [E | E].
  - exists false. split; [reflexivity |]. split; [discriminate |].
    intros (k & _ & Hk). destruct entries; [contradiction | cbn in E; lia].
  - eexists. split; [reflexivity |]. rewrite Nat2Z.id.
    apply cand_scan_lists; assumption.
Qed.

(** ** The SRM segment walks *)

Lemma rd_byte data off v : rd data off = Some v -> 0 <= v < 256.
Proof.
  unfold rd. destruct (off <? 0); [discriminate |].
  destruct (nth_error data (Z.to_nat off)); [| discriminate].
  cbn. intros [= <-]. apply u8_range.
Qed.

(** The counting walk and the copying walk advance alike, so the copy returns
    the count of the first pass whenever both come to an end. *)
Lemma walks_agree fuel data : forall buf parsed cnt vrls acc c c' l,
  revocated_ksv_count_loop fuel data buf parsed cnt vrls = Walked c ->
  revocated_ksvs_loop fuel data buf parsed cnt vrls acc = Walked (c', l) ->
  c' = c.
Proof.
  induction fuel as [| fuel IH]; intros buf parsed cnt vrls acc c c' l;
    cbn [revocated_ksv_count_loop revocated_ksvs_loop]; [discriminate |].
  destruct (rd data buf) as [v |] eqn:Ev; [| discriminate].
  pose proof (rd_byte _ _ _ Ev) as Hv.
  unfold DRM_HDCP_KSV_LEN.
  rewrite (u32_small (v * 5 + 1)) by lia.
  rewrite (u32_small (v * 5)) by lia.
  rewrite (u32_small (v * 5 + 1)) by lia.
  destruct (rd_range data (buf + 1) (Z.to_nat (v * 5))) as [copied |];
    [| discriminate].
  replace (buf + 1 + v * 5) with (buf + (v * 5 + 1)) by lia.
  destruct (u32 (parsed + (v * 5 + 1)) <? vrls).
  - apply IH.
  - intros [= <-] [= <- _]. reflexivity.
Qed.

Lemma get_revocated_ksvs_count data buf vrls c c' l :
  intel_hdcp_get_revocated_ksv_count data buf vrls = Walked c ->
  intel_hdcp_get_revocated_ksvs data buf vrls = Walked (c', l) ->
  c' = c.
Proof. apply walks_agree. Qed.

(** *** The walks never outlive their budget *)

Lemma revocated_ksv_count_within_budget fuel data :
  forall buf parsed cnt vrls,
    0 <= parsed <= 2 ^ 32 - 1277 -> vrls <= 2 ^ 32 - 1277 ->
    (0 < fuel)%nat ->
    vrls - parsed < Z.of_nat fuel ->
    revocated_ksv_count_loop fuel data buf parsed cnt vrls <> OutOfBudget.
Proof.
  induction fuel as [| fuel IH]; intros buf parsed cnt vrls Hp Hv Hpv Hf.
  - exfalso. lia.
  - cbn [revocated_ksv_count_loop].
    destruct (rd data buf) as [c |] eqn:Hc; [| discriminate].
    apply rd_byte in Hc. unfold DRM_HDCP_KSV_LEN.
    rewrite (u32_small (c * 5 + 1)) by lia.
    destruct (Z.ltb_spec (u32 (parsed + (c * 5 + 1))) vrls) as [Hlt | Hge];
      [| discriminate].
    assert (Hs : 0 <= parsed + (c * 5 + 1) < 2 ^ 32) by lia.
    rewrite (u32_small _ Hs) in *.
    apply IH; lia.
Qed.

Lemma revocated_ksvs_within_budget fuel data :
  forall buf parsed cnt vrls acc,
    0 <= parsed <= 2 ^ 32 - 1277 -> vrls <= 2 ^ 32 - 1277 ->
    (0 < fuel)%nat ->
    vrls - parsed < Z.of_nat fuel ->
    revocated_ksvs_loop fuel data buf parsed cnt vrls acc <> OutOfBudget.
Proof.
  induction fuel as [| fuel IH]; intros buf parsed cnt vrls acc Hp Hv Hpv Hf.
  - exfalso. lia.
  - cbn [revocated_ksvs_loop].
    destruct (rd data buf) as [c |] eqn:Hc; [| discriminate].
    apply rd_byte in Hc. unfold DRM_HDCP_KSV_LEN.
    rewrite (u32_small (c * 5)) by lia.
    destruct (rd_range data (buf + 1) (Z.to_nat (c * 5))); [| discriminate].
    rewrite (u32_small (c * 5 + 1)) by lia.
    destruct (Z.ltb_spec (u32 (parsed + (c * 5 + 1))) vrls) as [Hlt | Hge];
      [| discriminate].
    assert (Hs : 0 <= parsed + (c * 5 + 1) < 2 ^ 32) by lia.
    rewrite (u32_small _ Hs) in *.
    apply IH; lia.
Qed.

(** Whatever the blob holds, the count walk comes to an end or reads outside
    the blob. *)
Lemma get_revocated_ksv_count_within_budget data buf vrls :
  vrls <= 2 ^ 32 - 1277 ->
  intel_hdcp_get_revocated_ksv_count data buf vrls <> OutOfBudget.
Proof.
  intros Hv. unfold intel_hdcp_get_revocated_ksv_count.
  apply revocated_ksv_count_within_budget; lia.
Qed.

Lemma get_revocated_ksvs_within_budget data buf vrls :
  vrls <= 2 ^ 32 - 1277 ->
  intel_hdcp_get_revocated_ksvs data buf vrls <> OutOfBudget.
Proof.
  intros Hv. unfold intel_hdcp_get_revocated_ksvs.
  apply revocated_ksvs_within_budget; lia.
Qed.

(** The length the parser reads from three bytes stays far below that
    bound. *)
Lemma vrl_length_bound b0 b1 b2 :
  0 <= b0 < 256 -> 0 <= b1 < 256 -> 0 <= b2 < 256 ->
  0 <= u32 (Z.lor (Z.shiftl b0 16) (Z.lor (Z.shiftl b1 8) b2)) < 2 ^ 24.
Proof.
  intros H0 H1 H2.
  assert (Hl : 0 <= Z.lor (Z.shiftl b0 16) (Z.lor (Z.shiftl b1 8) b2) < 2 ^ 24).
  { split.
    - apply Z.lor_nonneg. split; [apply Z.shiftl_nonneg; lia |].
      apply Z.lor_nonneg. split; [apply Z.shiftl_nonneg; lia | lia].
    - assert (Hb : forall x, 0 <= x -> x < 2 ^ 24 <-> forall i, 24 <= i -> Z.testbit x i = false).
      { intros x Hx. split.
        - intros Hlt i Hi. destruct (Z.eq_dec x 0) as [-> | Hnz]; [apply Z.bits_0 |].
          apply Z.bits_above_log2; [lia |].
          assert (Z.log2 x < 24) by (apply Z.log2_lt_pow2; lia). lia.
        - intros Hbits. destruct (Z.ltb_spec x (2 ^ 24)) as [| Hge]; [assumption |].
          exfalso. destruct (Z.eq_dec x 0) as [-> | Hnz]; [lia |].
          assert (Hlog : 24 <= Z.log2 x) by (apply Z.log2_le_pow2; lia).
          specialize (Hbits (Z.log2 x) Hlog).
          rewrite Z.bit_log2 in Hbits by lia. discriminate. }
      apply Hb.
      + apply Z.lor_nonneg. split; [apply Z.shiftl_nonneg; lia |].
        apply Z.lor_nonneg. split; [apply Z.shiftl_nonneg; lia | lia].
      + intros i Hi. rewrite !Z.lor_spec, !Z.shiftl_spec by lia.
        rewrite !orb_false_iff. repeat split.
        * destruct (Z.eq_dec b0 0) as [-> | ?]; [apply Z.bits_0 |].
          apply Z.bits_above_log2; [lia |].
          assert (Z.log2 b0 < 8) by (apply Z.log2_lt_pow2; lia). lia.
        * destruct (Z.eq_dec b1 0) as [-> | ?]; [apply Z.bits_0 |].
          apply Z.bits_above_log2; [lia |].
          assert (Z.log2 b1 < 8) by (apply Z.log2_lt_pow2; lia). lia.
        * destruct (Z.eq_dec b2 0) as [-> | ?]; [apply Z.bits_0 |].
          apply Z.bits_above_log2; [lia |].
          assert (Z.log2 b2 < 8) by (apply Z.log2_lt_pow2; lia). lia. }
  rewrite u32_small; lia.
Qed.

(** ** Stepping through statements *)

Section Stepping.

Context {H : Type}.
Local Abbreviation M := (@M H).

Lemma bind_bind {A B C} (m : M A) (k1 : A -> M B) (k2 : B -> M C) s :
  bind (bind m k1) k2 s = bind m (fun a => bind (k1 a) k2) s.
Proof. unfold bind. destruct (m s) as [[a | r |] s1]; reflexivity. Qed.

Lemma bind_ret {A B} (a : A) (k : A -> M B) s : bind (ret a) k s = k a s.
Proof. reflexivity. Qed.

Lemma bind_return {A B} r (k : A -> M B) s :
  bind (return_ r) k s = (Return r, s).
Proof. reflexivity. Qed.

Lemma bind_abort {A B} (k : A -> M B) s : bind abort k s = (Abort, s).
Proof. reflexivity. Qed.

Lemma bind_ev {B} e (k : unit -> M B) s : bind (ev e) k s = k tt (emit e s).
Proof. reflexivity. Qed.

Lemma bind_drm_log {B} msg (k : unit -> M B) s :
  bind (drm_log msg) k s = k tt (emit (EvLog msg) s).
Proof. reflexivity. Qed.

Lemma bind_get_conn {B} (k : intel_connector H -> M B) s :
  bind get_conn k s = k (conn s) s.
Proof. reflexivity. Qed.

Lemma bind_modify_conn {B} f (k : unit -> M B) s :
  bind (modify_conn f) k s = k tt (set_conn (f (conn s)) s).
Proof. reflexivity. Qed.

Lemma bind_when {B} c body (k : unit -> M B) s :
  bind (when c body) k s = if c then bind body k s else k tt s.
Proof. destruct c; reflexivity. Qed.

Lemma bind_lift {A B} (f : H -> A * H) (k : A -> M B) s :
  bind (lift f) k s = k (fst (f (hw s))) (set_hw (snd (f (hw s))) s).
Proof. unfold bind, lift. destruct (f (hw s)). reflexivity. Qed.

Lemma bind_deref {A B} (o : option A) (k : A -> M B) s :
  bind (deref o) k s = match o with Some a => k a s | None => (Abort, s) end.
Proof. destruct o; reflexivity. Qed.

Lemma bind_walked {A B} (w : walk A) (k : A -> M B) s :
  bind (walked w) k s = match w with Walked a => k a s | _ => (Abort, s) end.
Proof. destruct w; reflexivity. Qed.

Lemma bind_call {B} (f : M Z) (k : Z -> M B) s :
  bind (call f) k s =
  match f s with
  | (Next r, s') => k r s'
  | (Return r, s') => k r s'
  | (Abort, s') => (Abort, s')
  end.
Proof. unfold bind, call. destruct (f s) as [[a | r |] s1]; reflexivity. Qed.

Lemma bind_kfree {B} p (k : unit -> M B) s :
  bind (kfree p) k s =
  match p with
  | Dangling => (Abort, s)
  | _ => k tt (emit EvKfree s)
  end.
Proof. destruct p; reflexivity. Qed.

Lemma bind_i915_write {B} {plat : platform H} r v (k : unit -> M B) s :
  bind (i915_write r v) k s =
  k tt (emit (EvWrite r v) (set_hw (I915_WRITE r v (hw s)) s)).
Proof. reflexivity. Qed.

Lemma bind_if {A B} (c : bool) (m1 m2 : M A) (k : A -> M B) s :
  bind (if c then m1 else m2) k s = if c then bind m1 k s else bind m2 k s.
Proof. destruct c; reflexivity. Qed.

Lemma when_run c (body : M unit) s :
  when c body s = if c then body s else (Next tt, s).
Proof. destruct c; reflexivity. Qed.

Lemma ret_run {A} (a : A) (s : state H) : ret a s = (Next a, s).
Proof. reflexivity. Qed.

Lemma return_run {A} r (s : state H) : @return_ H A r s = (Return r, s).
Proof. reflexivity. Qed.

Lemma ev_run e (s : state H) : ev e s = (Next tt, emit e s).
Proof. reflexivity. Qed.

Lemma modify_conn_run f (s : state H) :
  modify_conn f s = (Next tt, set_conn (f (conn s)) s).
Proof. reflexivity. Qed.

End Stepping.

(** One step of the run on the left of the equation [H]. *)
Ltac mstep_in H :=
  lazymatch type of H with
  | bind (bind _ _) _ _ = _ => rewrite bind_bind in H
  | bind (ret _) _ _ = _ => rewrite bind_ret in H
  | bind (return_ _) _ _ = _ => rewrite bind_return in H
  | bind abort _ _ = _ => rewrite bind_abort in H
  | bind (ev _) _ _ = _ => rewrite bind_ev in H
  | bind (drm_log _) _ _ = _ => rewrite bind_drm_log in H
  | bind get_conn _ _ = _ => rewrite bind_get_conn in H
  | bind (modify_conn _) _ _ = _ => rewrite bind_modify_conn in H
  | bind (when _ _) _ _ = _ => rewrite bind_when in H
  | bind (lift _) _ _ = _ => rewrite bind_lift in H
  | bind (deref _) _ _ = _ => rewrite bind_deref in H
  | bind (walked _) _ _ = _ => rewrite bind_walked in H
  | bind (call _) _ _ = _ => rewrite bind_call in H
  | bind (kfree _) _ _ = _ => rewrite bind_kfree in H
  | bind (if _ then _ else _) _ _ = _ => rewrite bind_if in H
  | bind (i915_write _ _) _ _ = _ => rewrite bind_i915_write in H
  | bind (i915_read _) _ _ = _ => unfold i915_read at 1 in H
  | bind (shim_call _ _) _ _ = _ => unfold shim_call at 1 in H
  | bind (out _) _ _ = _ => unfold out at 1 in H
  | ret _ _ = _ => rewrite ret_run in H
  | return_ _ _ = _ => rewrite return_run in H
  | ev _ _ = _ => rewrite ev_run in H
  | out _ _ = _ => unfold out at 1 in H
  | modify_conn _ _ = _ => rewrite modify_conn_run in H
  | when _ _ _ = _ => rewrite when_run in H
  | (if ?c then _ else _) = _ => destruct c eqn:?
  | match ?x with _ => _ end = _ => destruct x eqn:?
  | (match ?x with _ => _ end) _ = _ => destruct x eqn:?
  end; cbv beta in H; cbn [hw conn trace emit set_hw set_conn fst snd] in H.

Ltac mrun_in H := repeat mstep_in H.

(** The same on the left of the goal; branches are left to the proof. *)
Ltac mstep :=
  lazymatch goal with
  | |- bind (bind _ _) _ _ = _ => rewrite bind_bind
  | |- bind (ret _) _ _ = _ => rewrite bind_ret
  | |- bind (return_ _) _ _ = _ => rewrite bind_return
  | |- bind abort _ _ = _ => rewrite bind_abort
  | |- bind (ev _) _ _ = _ => rewrite bind_ev
  | |- bind (drm_log _) _ _ = _ => rewrite bind_drm_log
  | |- bind get_conn _ _ = _ => rewrite bind_get_conn
  | |- bind (modify_conn _) _ _ = _ => rewrite bind_modify_conn
  | |- bind (when _ _) _ _ = _ => rewrite bind_when
  | |- bind (lift _) _ _ = _ => rewrite bind_lift
  | |- bind (deref _) _ _ = _ => rewrite bind_deref
  | |- bind (walked _) _ _ = _ => rewrite bind_walked
  | |- bind (call _) _ _ = _ => rewrite bind_call
  | |- bind (kfree _) _ _ = _ => rewrite bind_kfree
  | |- bind (if _ then _ else _) _ _ = _ => rewrite bind_if
  | |- bind (i915_write _ _) _ _ = _ => rewrite bind_i915_write
  | |- bind (i915_read _) _ _ = _ => unfold i915_read at 1
  | |- bind (shim_call _ _) _ _ = _ => unfold shim_call at 1
  | |- bind (out _) _ _ = _ => unfold out at 1
  | |- ret _ _ = _ => rewrite ret_run
  | |- return_ _ _ = _ => rewrite return_run
  | |- ev _ _ = _ => rewrite ev_run
  | |- out _ _ = _ => unfold out at 1
  | |- modify_conn _ _ = _ => rewrite modify_conn_run
  | |- when _ _ _ = _ => rewrite when_run
  end; cbv beta; cbn [hw conn trace emit set_hw set_conn fst snd].

Ltac mrun := repeat mstep.

Section SrmFacts.

Context {regs : i915_reg_h} {drm : drm_hdcp_h} {H : Type} {plat : platform H}.

(** ** C2: what a failed parse leaves behind *)

(** A parse that fails returns -EINVAL and has not touched the connector, or
    returns -ENOMEM after it released the previous list. *)
Lemma parse_srm_failure blob (s s' : state H) r :
  intel_hdcp_parse_srm blob s = (Return r, s') ->
  r <> 0 ->
  (r = - EINVAL /\ conn s' = conn s) \/
  (r = - ENOMEM /\ conn s' = with_revocated_ksv_list Null (conn s)).
Proof.
  intros Hrun Hr. unfold intel_hdcp_parse_srm in Hrun.
  mrun_in Hrun; try discriminate;
    injection Hrun as <- <-; cbn [conn emit set_conn set_hw]; auto;
    try contradiction.
  all: try match goal with
           | Hk : negb (fst (kzalloc ?n ?h)) = true |- _ =>
               apply negb_true_iff in Hk; rewrite Hk; right; split; reflexivity
           end.
  all: exfalso;
    match goal with
    | Hc : intel_hdcp_get_revocated_ksv_count _ _ _ = Walked ?c,
      Hk : intel_hdcp_get_revocated_ksvs _ _ _ = Walked (?c', _),
      Hne : negb (?c' =? ?c) = true |- _ =>
        rewrite (get_revocated_ksvs_count _ _ _ _ _ _ Hc Hk), Z.eqb_refl in Hne;
        discriminate
    end.
Qed.

End SrmFacts.

(** ** The walks on a synthetic SRM *)

Lemma rd_app_mid pre x post :
  rd (pre ++ x :: post) (Z.of_nat (length pre)) = Some (u8 x).
Proof.
  unfold rd. destruct (Z.ltb_spec (Z.of_nat (length pre)) 0); [lia |].
  rewrite Nat2Z.id, nth_error_app2, Nat.sub_diag by lia. reflexivity.
Qed.

Lemma rd_range_app_mid k : forall pre post,
  Forall is_byte k ->
  rd_range (pre ++ k ++ post) (Z.of_nat (length pre)) (length k) = Some k.
Proof.
  induction k as [| b k IH]; intros pre post Hk; [reflexivity |].
  inversion Hk as [| ? ? Hb Hk']; subst.
  cbn [rd_range length app]. rewrite rd_app_mid, u8_small by exact Hb.
  replace (pre ++ b :: k ++ post) with ((pre ++ [b]) ++ k ++ post)
    by (rewrite <- app_assoc; reflexivity).
  replace (Z.of_nat (length pre) + 1) with (Z.of_nat (length (pre ++ [b])))
    by (rewrite length_app; cbn; lia).
  rewrite IH by exact Hk'. reflexivity.
Qed.

Lemma Forall_byte_concat (seg : list (list Z)) :
  Forall is_ksv seg -> Forall is_byte (concat seg).
Proof.
  induction 1 as [| k seg [_ Hk] _ IH]; cbn [concat]; [constructor |].
  apply Forall_app. split; assumption.
Qed.

Lemma length_vrl_segment seg :
  Forall is_ksv seg -> length (vrl_segment seg) = (5 * length seg + 1)%nat.
Proof.
  intros Hs. unfold vrl_segment. cbn [length].
  rewrite length_concat_ksvs by exact Hs. lia.
Qed.

Lemma vrl_payload_cons seg segs :
  vrl_payload (seg :: segs) = vrl_segment seg ++ vrl_payload segs.
Proof. reflexivity. Qed.

Lemma vrl_payload_nonempty seg segs : (1 <= length (vrl_payload (seg :: segs)))%nat.
Proof. rewrite vrl_payload_cons, length_app. unfold vrl_segment. cbn. lia. Qed.

Lemma rd_range_segment pre seg rest :
  Forall is_ksv seg ->
  rd_range (pre ++ vrl_segment seg ++ rest) (Z.of_nat (length pre) + 1)
           (length (concat seg)) = Some (concat seg).
Proof.
  intros Hk. unfold vrl_segment. cbn [app].
  replace (pre ++ Z.of_nat (length seg) :: concat seg ++ rest)
    with ((pre ++ [Z.of_nat (length seg)]) ++ concat seg ++ rest)
    by (rewrite <- app_assoc; reflexivity).
  replace (Z.of_nat (length pre) + 1)
    with (Z.of_nat (length (pre ++ [Z.of_nat (length seg)])))
    by (rewrite length_app; cbn; lia).
  apply rd_range_app_mid, Forall_byte_concat, Hk.
Qed.

Lemma count_walk_payload segs : forall fuel pre post parsed cnt,
  Forall wf_segment segs -> segs <> [] ->
  (length segs <= fuel)%nat ->
  0 <= parsed -> 0 <= cnt ->
  parsed + Z.of_nat (length (vrl_payload segs)) < 2 ^ 32 ->
  cnt + Z.of_nat (length (concat segs)) < 2 ^ 32 ->
  revocated_ksv_count_loop fuel (pre ++ vrl_payload segs ++ post)
    (Z.of_nat (length pre)) parsed cnt
    (parsed + Z.of_nat (length (vrl_payload segs)))
  = Walked (cnt + Z.of_nat (length (concat segs))).
Proof.
  induction segs as [| seg segs IH]; intros fuel pre post parsed cnt Hwf Hne
    Hfuel Hp Hc Hbytes Htotal; [contradiction |].
  inversion Hwf as [| ? ? [Hlen Hk] Hwf']; subst.
  destruct fuel as [| fuel]; [cbn in Hfuel; lia |].
  rewrite vrl_payload_cons in *. cbn [concat] in *.
  rewrite !length_app, length_vrl_segment in * by exact Hk.
  cbn [revocated_ksv_count_loop].
  unfold vrl_segment at 1. rewrite <- !app_assoc. cbn [app].
  rewrite rd_app_mid, (u8_small (Z.of_nat (length seg))) by lia.
  unfold DRM_HDCP_KSV_LEN.
  rewrite (u32_small (Z.of_nat (length seg) * 5 + 1)) by lia.
  rewrite (u32_small (cnt + _)), (u32_small (parsed + _)) by lia.
  destruct segs as [| seg' segs].
  - cbn [vrl_payload map concat length app] in *.
    destruct (Z.ltb_spec (parsed + (Z.of_nat (length seg) * 5 + 1))
                (parsed + Z.of_nat (5 * length seg + 1 + 0))); [lia |].
    f_equal. lia.
  - pose proof (vrl_payload_nonempty seg' segs) as Hn.
    destruct (Z.ltb_spec (parsed + (Z.of_nat (length seg) * 5 + 1))
                (parsed + Z.of_nat (5 * length seg + 1 +
                                    length (vrl_payload (seg' :: segs)))));
      [| lia].
    specialize (IH fuel (pre ++ vrl_segment seg) post
                  (parsed + (Z.of_nat (length seg) * 5 + 1))
                  (cnt + Z.of_nat (length seg)) Hwf').
    rewrite length_app, length_vrl_segment in IH by exact Hk.
    rewrite <- app_assoc in IH.
    replace (Z.of_nat (length pre) + (Z.of_nat (length seg) * 5 + 1))
      with (Z.of_nat (length pre + (5 * length seg + 1))) by lia.
    replace (parsed + Z.of_nat (5 * length seg + 1 +
                                length (vrl_payload (seg' :: segs))))
      with (parsed + (Z.of_nat (length seg) * 5 + 1) +
            Z.of_nat (length (vrl_payload (seg' :: segs)))) by lia.
    rewrite IH; [f_equal; lia | discriminate | cbn in *; lia | lia | lia | lia | lia].
Qed.

Lemma copy_walk_payload segs : forall fuel pre post parsed cnt acc,
  Forall wf_segment segs -> segs <> [] ->
  (length segs <= fuel)%nat ->
  0 <= parsed -> 0 <= cnt ->
  parsed + Z.of_nat (length (vrl_payload segs)) < 2 ^ 32 ->
  cnt + Z.of_nat (length (concat segs)) < 2 ^ 32 ->
  revocated_ksvs_loop fuel (pre ++ vrl_payload segs ++ post)
    (Z.of_nat (length pre)) parsed cnt
    (parsed + Z.of_nat (length (vrl_payload segs))) acc
  = Walked (cnt + Z.of_nat (length (concat segs)), acc ++ concat (concat segs)).
Proof.
  induction segs as [| seg segs IH]; intros fuel pre post parsed cnt acc Hwf Hne
    Hfuel Hp Hc Hbytes Htotal; [contradiction |].
  inversion Hwf as [| ? ? [Hlen Hk] Hwf']; subst.
  destruct fuel as [| fuel]; [cbn in Hfuel; lia |].
  rewrite vrl_payload_cons in *. cbn [concat] in *.
  rewrite !length_app, length_vrl_segment in * by exact Hk.
  cbn [revocated_ksvs_loop].
  unfold vrl_segment at 1. rewrite <- !app_assoc. cbn [app].
  rewrite rd_app_mid, (u8_small (Z.of_nat (length seg))) by lia.
  unfold DRM_HDCP_KSV_LEN.
  rewrite (u32_small (Z.of_nat (length seg) * 5)) by lia.
  rewrite (u32_small (Z.of_nat (length seg) * 5 + 1)) by lia.
  rewrite (u32_small (cnt + _)), (u32_small (parsed + _)) by lia.
  replace (Z.to_nat (Z.of_nat (length seg) * 5)) with (length (concat seg))
    by (rewrite length_concat_ksvs by exact Hk; lia).
  rewrite rd_range_segment by exact Hk.
  destruct segs as [| seg' segs].
  - cbn [vrl_payload map concat length app] in *.
    destruct (Z.ltb_spec (parsed + (Z.of_nat (length seg) * 5 + 1))
                (parsed + Z.of_nat (5 * length seg + 1 + 0))); [lia |].
    rewrite concat_app. cbn [concat]. rewrite !app_nil_r. f_equal. f_equal. lia.
  - pose proof (vrl_payload_nonempty seg' segs) as Hn.
    destruct (Z.ltb_spec (parsed + (Z.of_nat (length seg) * 5 + 1))
                (parsed + Z.of_nat (5 * length seg + 1 +
                                    length (vrl_payload (seg' :: segs)))));
      [| lia].
    specialize (IH fuel (pre ++ vrl_segment seg) post
                  (parsed + (Z.of_nat (length seg) * 5 + 1))
                  (cnt + Z.of_nat (length seg)) (acc ++ concat seg) Hwf').
    rewrite length_app, length_vrl_segment in IH by exact Hk.
    rewrite <- app_assoc in IH.
    replace (Z.of_nat (length pre) + 1 + Z.of_nat (length seg) * 5)
      with (Z.of_nat (length pre + (5 * length seg + 1))) by lia.
    replace (parsed + Z.of_nat (5 * length seg + 1 +
                                length (vrl_payload (seg' :: segs))))
      with (parsed + (Z.of_nat (length seg) * 5 + 1) +
            Z.of_nat (length (vrl_payload (seg' :: segs)))) by lia.
    rewrite IH; [| discriminate | cbn in *; lia | lia | lia | lia | lia].
    rewrite <- app_assoc, concat_app. f_equal. f_equal. lia.
Qed.

Lemma be24_decode L :
  0 <= L < 2 ^ 24 ->
  u32 (Z.lor (Z.shiftl (u8 (Z.shiftr L 16)) 16)
             (Z.lor (Z.shiftl (u8 (Z.shiftr L 8)) 8) (u8 L))) = L.
Proof.
  intros HL. unfold u8, u32.
  rewrite <- !Z.land_ones by lia.
  apply Z.bits_inj'. intros i Hi.
  rewrite Z.land_spec, !Z.lor_spec, !Z.shiftl_spec, !Z.land_spec by lia.
  rewrite !Z.testbit_ones by lia.
  destruct (Z.ltb_spec i 8).
  { rewrite (Z.testbit_neg_r _ (i - 16)), (Z.testbit_neg_r _ (i - 8)) by lia.
    destruct (Z.leb_spec 0 i); [| lia].
    destruct (Z.ltb_spec i 32); [| lia].
    cbn. rewrite !andb_true_r. reflexivity. }
  destruct (Z.ltb_spec i 16).
  { rewrite (Z.testbit_neg_r _ (i - 16)) by lia.
    rewrite !Z.shiftr_spec by lia.
    destruct (Z.leb_spec 0 (i - 8)); [| lia].
    destruct (Z.ltb_spec (i - 8) 8); [| lia].
    destruct (Z.leb_spec 0 i); [| lia].
    destruct (Z.ltb_spec i 32); [| lia].
    replace (i - 8 + 8) with i by lia.
    cbn. rewrite !andb_true_r, ?andb_false_r, ?orb_false_r. cbn.
    destruct (Z.testbit L i); reflexivity. }
  destruct (Z.ltb_spec i 24).
  { rewrite !Z.shiftr_spec by lia.
    destruct (Z.leb_spec 0 (i - 16)); [| lia].
    destruct (Z.ltb_spec (i - 16) 8); [| lia].
    destruct (Z.leb_spec 0 (i - 8)); [| lia].
    destruct (Z.ltb_spec (i - 8) 8); [lia |].
    destruct (Z.leb_spec 0 i); [| lia].
    destruct (Z.ltb_spec i 32); [| lia].
    replace (i - 16 + 16) with i by lia.
    cbn. rewrite !andb_true_r, ?andb_false_r, ?orb_false_r. reflexivity. }
  assert (Z.testbit L i = false) as HLi.
  { destruct (Z.eq_dec L 0) as [-> | Hnz]; [apply Z.bits_0 |].
    apply Z.bits_above_log2; [lia |].
    assert (Z.log2 L < 24) by (apply Z.log2_lt_pow2; lia). lia. }
  rewrite HLi.
  rewrite !Z.shiftr_spec by lia.
  destruct (Z.ltb_spec (i - 16) 8).
  - replace (i - 16 + 16) with i by lia. rewrite HLi.
    destruct (Z.ltb_spec (i - 8) 8); [lia |].
    rewrite !andb_false_r. reflexivity.
  - destruct (Z.ltb_spec (i - 8) 8); [lia |].
    rewrite !andb_false_r. reflexivity.
Qed.

Lemma rd_app_at pre x post off :
  off = Z.of_nat (length pre) -> rd (pre ++ x :: post) off = Some (u8 x).
Proof. intros ->. apply rd_app_mid. Qed.

Lemma overwrite_zeros n l :
  Z.of_nat (length l) = n -> overwrite (zeros n) l = l.
Proof.
  intros <-. unfold overwrite, zeros. rewrite Nat2Z.id.
  rewrite skipn_all2 by (rewrite repeat_length; lia). apply app_nil_r.
Qed.

Lemma length_concat_segments segs :
  Forall wf_segment segs ->
  length (concat (concat segs)) = (5 * length (concat segs))%nat.
Proof.
  intros Hwf. apply length_concat_ksvs.
  induction Hwf as [| seg segs [_ Hk] _ IH]; cbn [concat]; [constructor |].
  apply Forall_app. split; assumption.
Qed.

Lemma length_payload_bound segs :
  Forall wf_segment segs ->
  (length segs <= length (vrl_payload segs))%nat /\
  (length (concat (concat segs)) <= length (vrl_payload segs))%nat.
Proof.
  induction 1 as [| seg segs [_ Hk] _ [IH1 IH2]]; [cbn; lia |].
  rewrite vrl_payload_cons. cbn [concat].
  rewrite concat_app, !length_app, length_vrl_segment by exact Hk.
  rewrite (length_concat_ksvs seg) by exact Hk. cbn [length]. lia.
Qed.

Section SrmRoundTrip.

Context {regs : i915_reg_h} {drm : drm_hdcp_h} {H : Type} {plat : platform H}.

(** Parsing a synthetic SRM with at least one revoked KSV installs exactly
    its KSVs, in order, provided the new list can be allocated. *)
Lemma parse_srm_synthetic header segs sig (s : state H) :
  Z.of_nat (length header) = sizeof_cp_srm_header ->
  srm_id header = DRM_HDCP_1_4_SRM_ID ->
  DRM_HDCP_1_4_VRL_LENGTH_SIZE = 3 ->
  Z.of_nat (length sig) = DRM_HDCP_1_4_DCP_SIG_SIZE ->
  Forall wf_segment segs ->
  srm_ksvs segs <> [] ->
  Z.of_nat (length (vrl_payload segs)) + 3 + DRM_HDCP_1_4_DCP_SIG_SIZE < 2 ^ 24 ->
  revocated_ksv_list (conn s) <> Dangling ->
  fst (kzalloc (5 * Z.of_nat (length (srm_ksvs segs))) (hw s)) = true ->
  exists s',
    intel_hdcp_parse_srm (srm_blob header segs sig) s = (Return 0, s') /\
    revocated_ksv_list (conn s') = Live (concat (srm_ksvs segs)) /\
    revocated_ksv_cnt (conn s') = Z.of_nat (length (srm_ksvs segs)) /\
    srm_blob_id (conn s') = srm_blob_id (conn s).
Proof.
  intros Hhdr Hid Hvl Hsig Hwf Hks Hlen Hlive Halloc.
  assert (segs <> []) as Hne by (intros ->; apply Hks; reflexivity).
  destruct (length_payload_bound segs Hwf) as [Hb1 Hb2].
  pose proof (length_concat_segments segs Hwf) as Hcc.
  unfold srm_ksvs in *.
  set (L := Z.of_nat (length (vrl_payload segs)) + 3 + DRM_HDCP_1_4_DCP_SIG_SIZE).
  assert (0 <= DRM_HDCP_1_4_DCP_SIG_SIZE) as Hs0 by lia.
  assert (blob_length (srm_blob header segs sig) = sizeof_cp_srm_header + L) as Hbl.
  { unfold srm_blob, srm_data. cbn [blob_length].
    rewrite Hvl, !length_app. cbn [be24 length]. subst L. lia. }
  assert (0 < length (concat segs))%nat as Hpos
      by (destruct (concat segs); [contradiction | cbn; lia]).
  cut (exists c' s',
         intel_hdcp_parse_srm (srm_blob header segs sig) s = (Return 0, s') /\
         conn s' = c' /\
         c' = with_revocated_ksv_cnt (Z.of_nat (length (concat segs)))
                (with_revocated_ksv_list (Live (concat (concat segs))) (conn s))).
  { intros (c' & s' & Hrun & Hc & ->). exists s'. rewrite Hc.
    repeat split; [exact Hrun | reflexivity ..]. }
  eexists. eexists. split; [| split; [reflexivity |]].
  unfold intel_hdcp_parse_srm. rewrite Hbl.
  mstep. destruct (Z.ltb_spec (sizeof_cp_srm_header + L)
                     (sizeof_cp_srm_header + DRM_HDCP_1_4_VRL_LENGTH_SIZE +
                      DRM_HDCP_1_4_DCP_SIG_SIZE)); [subst L; lia |].
  mstep. cbn [blob_data srm_blob]. mstep.
  assert (firstn (Z.to_nat sizeof_cp_srm_header) (srm_data header segs sig)
          = header) as ->.
  { unfold srm_data. rewrite <- Hhdr, Nat2Z.id, firstn_app, Nat.sub_diag.
    rewrite firstn_all. cbn [firstn]. apply app_nil_r. }
  mstep. rewrite Hid, Z.eqb_refl. cbn [negb].
  assert (srm_data header segs sig =
          header ++ u8 (Z.shiftr L 16) :: u8 (Z.shiftr L 8) :: u8 L ::
          vrl_payload segs ++ sig) as Hdata.
  { unfold srm_data, be24. rewrite Hvl. reflexivity. }
  assert (rd (srm_data header segs sig) sizeof_cp_srm_header
          = Some (u8 (Z.shiftr L 16))) as R0.
  { rewrite Hdata, (rd_app_at header) by lia.
    rewrite u8_small by apply u8_range. reflexivity. }
  assert (rd (srm_data header segs sig) (sizeof_cp_srm_header + 1)
          = Some (u8 (Z.shiftr L 8))) as R1.
  { rewrite Hdata.
    replace (header ++ u8 (Z.shiftr L 16) :: u8 (Z.shiftr L 8) :: u8 L ::
             vrl_payload segs ++ sig)
      with ((header ++ [u8 (Z.shiftr L 16)]) ++ u8 (Z.shiftr L 8) :: u8 L ::
            vrl_payload segs ++ sig)
      by (rewrite <- app_assoc; reflexivity).
    rewrite rd_app_at by (rewrite length_app; cbn [length]; lia).
    rewrite u8_small by apply u8_range. reflexivity. }
  assert (rd (srm_data header segs sig) (sizeof_cp_srm_header + 2)
          = Some (u8 L)) as R2.
  { rewrite Hdata.
    replace (header ++ u8 (Z.shiftr L 16) :: u8 (Z.shiftr L 8) :: u8 L ::
             vrl_payload segs ++ sig)
      with ((header ++ [u8 (Z.shiftr L 16); u8 (Z.shiftr L 8)]) ++ u8 L ::
            vrl_payload segs ++ sig)
      by (rewrite <- app_assoc; reflexivity).
    rewrite rd_app_at by (rewrite length_app; cbn [length]; lia).
    rewrite u8_small by apply u8_range. reflexivity. }
  assert (srm_data header segs sig =
          (header ++ [u8 (Z.shiftr L 16); u8 (Z.shiftr L 8); u8 L]) ++
          vrl_payload segs ++ sig) as Hdata'.
  { rewrite Hdata, <- app_assoc. reflexivity. }
  assert (sizeof_cp_srm_header + DRM_HDCP_1_4_VRL_LENGTH_SIZE =
          Z.of_nat (length (header ++ [u8 (Z.shiftr L 16); u8 (Z.shiftr L 8); u8 L])))
    as Hoff by (rewrite length_app; cbn [length]; lia).
  assert (intel_hdcp_get_revocated_ksv_count (srm_data header segs sig)
            (sizeof_cp_srm_header + DRM_HDCP_1_4_VRL_LENGTH_SIZE)
            (0 + Z.of_nat (length (vrl_payload segs)))
          = Walked (0 + Z.of_nat (length (concat segs)))) as Wc.
  { unfold intel_hdcp_get_revocated_ksv_count. rewrite Hdata', Hoff.
    apply count_walk_payload; try assumption; lia. }
  assert (intel_hdcp_get_revocated_ksvs (srm_data header segs sig)
            (sizeof_cp_srm_header + DRM_HDCP_1_4_VRL_LENGTH_SIZE)
            (0 + Z.of_nat (length (vrl_payload segs)))
          = Walked (0 + Z.of_nat (length (concat segs)),
                  [] ++ concat (concat segs))) as Wk.
  { unfold intel_hdcp_get_revocated_ksvs. rewrite Hdata', Hoff.
    apply copy_walk_payload; try assumption; lia. }
  rewrite !Z.add_0_l in Wc, Wk. cbn [app] in Wk.
  clear Hdata Hdata'.
  mstep. rewrite R0. mstep. rewrite R1. mstep. rewrite R2.
  rewrite be24_decode by (subst L; lia).
  mstep.
  destruct (Z.ltb_spec (sizeof_cp_srm_header + L) (sizeof_cp_srm_header + L));
    [lia |].
  destruct (Z.ltb_spec L (DRM_HDCP_1_4_VRL_LENGTH_SIZE + DRM_HDCP_1_4_DCP_SIG_SIZE));
    [subst L; lia |].
  cbn [orb].
  replace (u32 (L - (DRM_HDCP_1_4_VRL_LENGTH_SIZE + DRM_HDCP_1_4_DCP_SIG_SIZE)))
    with (Z.of_nat (length (vrl_payload segs)))
    by (rewrite u32_small; subst L; lia).
  mstep.
  assert (truthy (Z.of_nat (length (vrl_payload segs))) = true) as ->.
  { unfold truthy. destruct (Z.eqb_spec (Z.of_nat (length (vrl_payload segs))) 0);
      [lia | reflexivity]. }
  cbn [negb].
  mstep. rewrite Wc.
  mstep.
  assert (truthy (Z.of_nat (length (concat segs))) = true) as ->.
  { unfold truthy. destruct (Z.eqb_spec (Z.of_nat (length (concat segs))) 0);
      [lia | reflexivity]. }
  cbn [negb]. mstep. mstep.
  unfold DRM_HDCP_KSV_LEN.
  rewrite (u32_small (Z.of_nat (length (concat segs)) * 5)) by lia.
  replace (Z.of_nat (length (concat segs)) * 5)
    with (5 * Z.of_nat (length (concat segs))) by lia.
  destruct (revocated_ksv_list (conn s)) eqn:Eold; [| | contradiction];
    mrun; rewrite Halloc; cbn [negb]; mstep; rewrite Wk; mrun;
    rewrite Z.eqb_refl; cbn [negb]; mrun; reflexivity.
  cbn [conn set_conn with_revocated_ksv_cnt with_revocated_ksv_list
       revocated_ksv_list revocated_ksv_cnt srm_blob_id dig_port hdcp_shim
       hdcp_value downstream_info].
  rewrite overwrite_zeros by (rewrite Hcc; lia). reflexivity.
Qed.

End SrmRoundTrip.

Section SrmClaims.

Context {regs : i915_reg_h} {drm : drm_hdcp_h} {H : Type} {plat : platform H}.

(** C2, as amended.  When the blob of an SRM update is found and its parse
    fails, the recorded blob identifier is what it was.  The revocation store
    is what it was as well unless the failure is the allocation of the new
    list (-ENOMEM): by then the previous list has been released, the list
    pointer is null and membership checks report nothing revoked. *)
Theorem update_srm_failed_parse id (s s1 : state H) blob data r :
  fst (drm_property_lookup_blob id (hw s)) = Some blob ->
  blob_data blob = Some data ->
  intel_hdcp_parse_srm blob (set_hw (snd (drm_property_lookup_blob id (hw s))) s)
    = (Return r, s1) ->
  r <> 0 ->
  intel_hdcp_update_srm id s = (Next tt, s1) /\
  srm_blob_id (conn s1) = srm_blob_id (conn s) /\
  (r <> - ENOMEM -> conn s1 = conn s) /\
  (r = - ENOMEM ->
   conn s1 = with_revocated_ksv_list Null (conn s) /\
   forall ksvs n,
     intel_hdcp_ksvs_revocated (revocated_ksv_list (conn s1))
       (revocated_ksv_cnt (conn s1)) ksvs n = Some false).
Proof.
  intros Hblob Hdata Hrun Hr.
  pose proof (parse_srm_failure _ _ _ _ Hrun Hr) as Hfail.
  cbn [conn set_hw] in Hfail.
  split.
  - unfold intel_hdcp_update_srm. mstep. rewrite Hblob, Hdata. mstep.
    rewrite Hrun. mstep.
    assert (truthy r = true) as ->
        by (unfold truthy; destruct (Z.eqb_spec r 0); [contradiction | reflexivity]).
    reflexivity.
  - destruct Hfail as [[-> ->] | [-> ->]].
    + split; [reflexivity |]. split; [reflexivity |]. intros E. discriminate E.
    + split; [reflexivity |]. split.
      * intros E. contradiction E. reflexivity.
      * intros _. split; [reflexivity |].
        intros ksvs n. unfold intel_hdcp_ksvs_revocated. cbn.
        destruct (revocated_ksv_cnt (conn s) =? 0); reflexivity.
Qed.

(** C5.  On a store of well-formed entries the membership check answers true
    exactly when some candidate equals some entry byte for byte.  Parsing a
    synthetic SRM that revokes these entries installs exactly that store, so
    that afterwards a query for a KSV of the SRM is answered true and a query
    for a KSV that differs from each of them is answered false. *)
Theorem ksvs_revocated_membership (entries cands : list (list Z)) :
  Forall is_ksv entries -> Forall is_ksv cands ->
  (exists b,
      intel_hdcp_ksvs_revocated (Live (concat entries))
        (Z.of_nat (length entries)) (concat cands) (Z.of_nat (length cands))
      = Some b /\
      (b = true <-> exists k, In k cands /\ In k entries)) /\
  (forall header segs sig (s : state H),
      srm_ksvs segs = entries ->
      entries <> [] ->
      Z.of_nat (length header) = sizeof_cp_srm_header ->
      srm_id header = DRM_HDCP_1_4_SRM_ID ->
      DRM_HDCP_1_4_VRL_LENGTH_SIZE = 3 ->
      Z.of_nat (length sig) = DRM_HDCP_1_4_DCP_SIG_SIZE ->
      Forall wf_segment segs ->
      Z.of_nat (length (vrl_payload segs)) + 3 + DRM_HDCP_1_4_DCP_SIG_SIZE
        < 2 ^ 24 ->
      revocated_ksv_list (conn s) <> Dangling ->
      fst (kzalloc (5 * Z.of_nat (length entries)) (hw s)) = true ->
      exists s',
        intel_hdcp_parse_srm (srm_blob header segs sig) s = (Return 0, s') /\
        revocated_ksv_list (conn s') = Live (concat entries) /\
        revocated_ksv_cnt (conn s') = Z.of_nat (length entries) /\
        forall k, is_ksv k ->
          exists b,
            intel_hdcp_ksvs_revocated (revocated_ksv_list (conn s'))
              (revocated_ksv_cnt (conn s')) k 1 = Some b /\
            (b = true <-> In k entries)).
Proof.
  intros He Hc. split.
  - apply ksvs_revocated_lists; assumption.
  - intros header segs sig s <- Hne Hh Hid Hvl Hsig Hwf Hlen Hlive Halloc.
    destruct (parse_srm_synthetic header segs sig s) as (s' & Hrun & Hl & Hn & _);
      try assumption.
    exists s'. repeat split; try assumption.
    intros k Hk. rewrite Hl, Hn.
    destruct (ksvs_revocated_lists (srm_ksvs segs) [k] He
                (Forall_cons k Hk (Forall_nil _))) as (b & Hb & Hiff).
    cbn [concat length Z.of_nat Pos.of_succ_nat] in Hb. rewrite app_nil_r in Hb.
    exists b. split; [exact Hb |]. rewrite Hiff. split.
    + intros (k' & [<- | []] & Hin). exact Hin.
    + intros Hin. exists k. split; [left; reflexivity | exact Hin].
Qed.

End SrmClaims.

Section SrmRuns.

#[local] Existing Instance Bench.regs.
#[local] Existing Instance Bench.drm.
#[local] Existing Instance Bench.plat.

(** C2, refuted as stated: with one revoked KSV in the store, an update whose
    blob parses up to the allocation of the new list fails with -ENOMEM and
    leaves the connector without its list. *)
Lemma update_srm_enomem_drops_store :
  fst (intel_hdcp_parse_srm BenchSrm.one_ksv BenchSrm.no_memory_start)
    = Return (- ENOMEM) /\
  revocated_ksv_list (conn BenchSrm.no_memory_start) = Live BenchSrm.ksv_old /\
  revocated_ksv_list (conn (snd (intel_hdcp_update_srm 7 BenchSrm.no_memory_start)))
    = Null /\
  srm_blob_id (conn (snd (intel_hdcp_update_srm 7 BenchSrm.no_memory_start)))
    = srm_blob_id (conn BenchSrm.no_memory_start).
Proof. vm_compute. repeat split. Qed.

(** C3, the code at the failing input.  The payload of the blob is one byte
    long and that byte announces one KSV, a segment of 6 bytes.  The parse
    returns success and installs the 5 bytes that follow the payload, the
    start of the signature, as a revoked KSV. *)
Theorem parse_srm_accepts_overrunning_segment :
  rd BenchSrm.overrun_data 5 = Some 0 /\
  rd BenchSrm.overrun_data 6 = Some 0 /\
  rd BenchSrm.overrun_data 7 = Some (1 + 3 + 40) /\
  rd BenchSrm.overrun_data 8 = Some 1 /\
  fst (intel_hdcp_parse_srm BenchSrm.overrun BenchSrm.quiet_start) = Return 0 /\
  revocated_ksv_list
    (conn (snd (intel_hdcp_parse_srm BenchSrm.overrun BenchSrm.quiet_start)))
    = Live (firstn 5 BenchSrm.sig) /\
  revocated_ksv_cnt
    (conn (snd (intel_hdcp_parse_srm BenchSrm.overrun BenchSrm.quiet_start)))
    = 1.
Proof. vm_compute. repeat split. Qed.

(** A run of C2's theorem. *)
Lemma update_srm_failed_parse_witness :
  intel_hdcp_update_srm 7 BenchSrm.no_memory_start
    = (Next tt, snd (intel_hdcp_parse_srm BenchSrm.one_ksv BenchSrm.no_memory_start)) /\
  srm_blob_id
    (conn (snd (intel_hdcp_parse_srm BenchSrm.one_ksv BenchSrm.no_memory_start)))
    = srm_blob_id (conn BenchSrm.no_memory_start).
Proof.
  pose proof (update_srm_failed_parse (plat := Bench.plat) 7
                BenchSrm.no_memory_start
                (snd (intel_hdcp_parse_srm BenchSrm.one_ksv BenchSrm.no_memory_start))
                BenchSrm.one_ksv
                (srm_data BenchSrm.header [[BenchSrm.ksv1]] BenchSrm.sig)
                (- ENOMEM)) as W.
  destruct W as (W1 & W2 & _).
  - reflexivity.
  - reflexivity.
  - vm_compute. reflexivity.
  - discriminate.
  - split; [exact W1 | exact W2].
Defined.

(** A run of C5's theorem: the SRM that revokes [ksv1] is parsed and queried
    for [ksv1]. *)
Lemma ksvs_revocated_membership_witness :
  (exists b,
      intel_hdcp_ksvs_revocated (Live (concat [BenchSrm.ksv1])) 1
        (concat [BenchSrm.ksv1]) 1 = Some b /\
      (b = true <-> exists k, In k [BenchSrm.ksv1] /\ In k [BenchSrm.ksv1])) /\
  (exists s',
      intel_hdcp_parse_srm BenchSrm.one_ksv BenchSrm.quiet_start = (Return 0, s') /\
      revocated_ksv_list (conn s') = Live (concat [BenchSrm.ksv1]) /\
      revocated_ksv_cnt (conn s') = 1 /\
      forall k, is_ksv k ->
        exists b,
          intel_hdcp_ksvs_revocated (revocated_ksv_list (conn s'))
            (revocated_ksv_cnt (conn s')) k 1 = Some b /\
          (b = true <-> In k [BenchSrm.ksv1])).
Proof.
  assert (Forall is_ksv [BenchSrm.ksv1]) as Hk.
  { constructor; [| constructor]. split; [reflexivity |].
    unfold BenchSrm.ksv1, is_byte. repeat constructor; lia. }
  destruct (ksvs_revocated_membership (plat := Bench.plat)
              [BenchSrm.ksv1] [BenchSrm.ksv1] Hk Hk) as [W1 W2].
  split; [exact W1 |].
  apply (W2 BenchSrm.header [[BenchSrm.ksv1]] BenchSrm.sig BenchSrm.quiet_start).
  - reflexivity.
  - discriminate.
  - reflexivity.
  - reflexivity.
  - reflexivity.
  - reflexivity.
  - constructor; [| constructor]. split; [cbn; lia | exact Hk].
  - vm_compute. reflexivity.
  - discriminate.
  - reflexivity.
Defined.

End SrmRuns.

(** ** The session entry points *)

Section DriverFacts.

Context {regs : i915_reg_h} {drm : drm_hdcp_h} {H : Type} {plat : platform H}.

(** _intel_hdcp_disable touches neither the protection state nor the shim. *)
Lemma _intel_hdcp_disable_keeps (s s' : state H) x :
  _intel_hdcp_disable s = (x, s') ->
  hdcp_value (conn s') = hdcp_value (conn s) /\
  hdcp_shim (conn s') = hdcp_shim (conn s).
Proof.
  intros Hrun. unfold _intel_hdcp_disable in Hrun.
  mrun_in Hrun; injection Hrun as <- <-;
    cbn [conn set_conn emit set_hw with_downstream_info hdcp_value hdcp_shim];
    split; first [reflexivity | assumption | congruence].
Qed.

(** C9.  A disable on a session leaves the state Undesired, and a second
    disable right after it returns success, leaves the state Undesired and
    does nothing but take and release the mutex and cancel the periodic
    check: no register is written and the shim is not called. *)
Theorem intel_hdcp_disable_twice (s s1 : state H) r1 :
  has_shim (conn s) = true ->
  intel_hdcp_disable s = (Return r1, s1) ->
  hdcp_value (conn s1) = UNDESIRED /\
  intel_hdcp_disable s1 =
    (Return 0,
     {| hw := hw s1; conn := conn s1;
        trace := trace s1 ++ [EvMutexLock hdcp_mutex; EvMutexUnlock hdcp_mutex;
                              EvCancelDelayedWorkSync hdcp_check_work] |}).
Proof.
  intros Hshim Hrun.
  assert (hdcp_value (conn s1) = UNDESIRED /\ has_shim (conn s1) = true)
    as [Hv Hs].
  { unfold intel_hdcp_disable in Hrun. mstep_in Hrun. mstep_in Hrun.
    rewrite Hshim in Hrun. cbn [negb] in Hrun.
    mstep_in Hrun.
    destruct (content_protection_eqb (hdcp_value (conn s)) UNDESIRED) eqn:Ev;
      cbn [negb] in Hrun.
    - mrun_in Hrun. injection Hrun as <- <-. cbn [conn emit].
      split; [| exact Hshim].
      destruct (hdcp_value (conn s)); [reflexivity | discriminate Ev ..].
    - mstep_in Hrun. mstep_in Hrun. mstep_in Hrun. mstep_in Hrun.
      match goal with
      | Ed : _intel_hdcp_disable _ = _ |- _ =>
          apply _intel_hdcp_disable_keeps in Ed;
          cbn [conn set_conn emit with_hdcp_value hdcp_value hdcp_shim] in Ed;
          destruct Ed as [Edv Eds]
      end.
      mrun_in Hrun; try discriminate; injection Hrun as <- <-;
        cbn [conn emit]; unfold has_shim in *; rewrite Edv, Eds;
        (split; [reflexivity | exact Hshim]). }
  split; [exact Hv |].
  unfold intel_hdcp_disable. mstep. mstep. rewrite Hs. cbn [negb].
  mstep. rewrite Hv. cbn [content_protection_eqb negb]. mrun.
  unfold emit. cbn [hw conn trace]. rewrite <- !app_assoc. reflexivity.
Qed.

End DriverFacts.

Section Phase2Facts.

Context {regs : i915_reg_h} {drm : drm_hdcp_h} {H : Type} {plat : platform H}.

(** C7.  Once the KSV list is ready and BSTATUS is read without a limit bit,
    a device count of zero ends Part 2 with -EINVAL.  By then the driver has
    called the shim twice, for the ready poll and for BSTATUS, and nothing
    else has happened: the connector is untouched, no FIFO buffer has been
    allocated or read, no revocation check has run over FIFO entries and no
    register has been written. *)
Theorem auth_downstream_zero_devices (s : state H) p shim bst h1 h2 :
  dig_port (conn s) = Some p ->
  hdcp_shim (conn s) = Some shim ->
  __wait_for (read_ksv_ready shim) (fun x => truthy (fst x) || snd x)
             (5 * 1000 * 1000) 1000 (100 * 1000) (hw s)
    = ((0, (0, true)), h1) ->
  read_bstatus shim h1 = ((0, bst), h2) ->
  truthy (DRM_HDCP_MAX_DEVICE_EXCEEDED (byte_at (filled [0; 0] bst) 0)) = false ->
  truthy (DRM_HDCP_MAX_CASCADE_EXCEEDED (byte_at (filled [0; 0] bst) 1)) = false ->
  u8 (DRM_HDCP_NUM_DOWNSTREAM (byte_at (filled [0; 0] bst) 0)) = 0 ->
  intel_hdcp_auth_downstream s =
    (Return (- EINVAL),
     {| hw := h2; conn := conn s;
        trace := trace s ++ [EvShim SHIM_read_ksv_ready;
                             EvShim SHIM_read_bstatus] |}).
Proof.
  intros Hp Hshim Hpoll Hbst Hdev Hcas Hnum.
  assert (intel_hdcp_poll_ksv_fifo shim s =
          (Return 0, set_hw h1 (emit (EvShim SHIM_read_ksv_ready) s))) as Hready.
  { unfold intel_hdcp_poll_ksv_fifo. mrun. rewrite Hpoll.
    cbn [fst snd truthy Z.eqb negb orb]. mrun. reflexivity. }
  unfold intel_hdcp_auth_downstream. mstep. rewrite Hp. mstep. rewrite Hshim.
  mstep. rewrite Hready. cbn [truthy Z.eqb negb]. mrun.
  rewrite Hbst. cbn [fst snd truthy Z.eqb negb]. mrun.
  rewrite Hdev, Hcas. cbn [orb]. mrun. rewrite Hnum. cbn [Z.eqb]. mrun.
  unfold emit, set_hw. cbn [hw conn trace]. rewrite <- !app_assoc. reflexivity.
Qed.

End Phase2Facts.

Section Phase1Facts.

Context {regs : i915_reg_h} {drm : drm_hdcp_h} {H : Type} {plat : platform H}.

Lemma length_filled old new : length (filled old new) = length old.
Proof. unfold filled. rewrite length_map, length_seq. reflexivity. Qed.

Lemma u8_idem x : u8 (u8 x) = u8 x.
Proof. apply u8_small, u8_range. Qed.

(** The validator looks at the KSV the shim has just stored in the union. *)
Lemma ksv_valid_store buf new :
  length buf = 8%nat -> length new = 5%nat ->
  intel_hdcp_is_ksv_valid (store_ksv buf new) = intel_hdcp_is_ksv_valid new.
Proof.
  intros Hb Hn.
  destruct buf as [| c0 [| c1 [| c2 [| c3 [| c4 [| c5 [| c6 [| c7 [| ? ?]]]]]]]]];
    try discriminate Hb.
  destruct new as [| a0 [| a1 [| a2 [| a3 [| a4 [| ? ?]]]]]]; try discriminate Hn.
  change (store_ksv [c0; c1; c2; c3; c4; c5; c6; c7] [a0; a1; a2; a3; a4])
    with [u8 a0; u8 a1; u8 a2; u8 a3; u8 a4; c5; c6; c7].
  unfold intel_hdcp_is_ksv_valid. rewrite !ksv_ones_sum, !u8_idem. reflexivity.
Qed.

(** C6.  When the attempt has come as far as the read of Bksv, and the read
    and its one retry each yield a KSV that the validator rejects, Part 1
    returns -ENODEV, whatever a further read would yield.  By then it has
    read Bksv twice and logged the failure, and the connector is what it was
    before the reads. *)
Theorem auth_bksv_exhausted (s s1 : state H) p shim r0_prime_gen_start
        k1 k2 h1 h2 :
  dig_port (conn s) = Some p ->
  hdcp_shim (conn s) = Some shim ->
  auth_send_an shim p s = (Next r0_prime_gen_start, s1) ->
  read_bksv shim (hw s1) = ((0, k1), h1) ->
  length k1 = 5%nat -> intel_hdcp_is_ksv_valid k1 = false ->
  read_bksv shim h1 = ((0, k2), h2) ->
  length k2 = 5%nat -> intel_hdcp_is_ksv_valid k2 = false ->
  intel_hdcp_auth s =
    (Return (- ENODEV),
     {| hw := h2; conn := conn s1;
        trace := trace s1 ++ [EvShim SHIM_read_bksv; EvShim SHIM_read_bksv;
                              EvLog "HDCP failed, Bksv is invalid"] |}).
Proof.
  intros Hp Hshim Hpre Hr1 Hl1 Hv1 Hr2 Hl2 Hv2.
  assert (Hb1 : length (store_ksv (zeros 8) k1) = 8%nat)
    by (unfold store_ksv; rewrite length_filled; reflexivity).
  unfold intel_hdcp_auth. mstep. rewrite Hp. mstep. rewrite Hshim.
  unfold bind at 1. rewrite Hpre.
  unfold auth_from_bksv. change (Z.to_nat 2) with 2%nat.
  cbn [bksv_loop]. mrun. rewrite Hr1. cbn [fst snd].
  change (truthy 0) with false. mrun.
  rewrite (ksv_valid_store (zeros 8) k1 eq_refl Hl1), Hv1.
  mrun. rewrite Hr2. cbn [fst snd]. change (truthy 0) with false. mrun.
  rewrite (ksv_valid_store _ k2 Hb1 Hl2), Hv2.
  mrun. change (0 + 1 + 1 =? 2) with true. cbv iota. mrun.
  unfold emit, set_hw. cbn [hw conn trace].
  rewrite <- !app_assoc. reflexivity.
Qed.

End Phase1Facts.

Section LinkCheckFacts.

Context {regs : i915_reg_h} {drm : drm_hdcp_h} {H : Type} {plat : platform H}.

Lemma truthy_nonzero r : r <> 0 -> truthy r = true.
Proof.
  intros Hr. unfold truthy. destruct (Z.eqb_spec r 0); [contradiction | reflexivity].
Qed.

Lemma call_inv (f : M Z) (s s' : state H) r :
  call f s = (Next r, s') -> f s = (Next r, s') \/ f s = (Return r, s').
Proof.
  unfold call. destruct (f s) as [[a | a |] s0]; intros E; inversion E; subst;
    [left | right]; reflexivity.
Qed.

(** C8, as amended.  With the encryption bit set and the shim's link check
    failing, the monitor switches HDCP off and on again.  An error of the
    disable step is returned, the state is demoted to Desired and the enable
    step is not run.  After a disable that succeeded the enable step is run,
    and its error is returned with the state demoted to Desired. *)
Theorem check_link_retry (s : state H) p shim v h1 h2 :
  dig_port (conn s) = Some p ->
  hdcp_shim (conn s) = Some shim ->
  hdcp_value (conn s) <> UNDESIRED ->
  I915_READ (PORT_HDCP_STATUS p) (hw s) = (v, h1) ->
  truthy (Z.land v HDCP_STATUS_ENC) = true ->
  check_link shim h1 = (false, h2) ->
  forall r sd,
    call _intel_hdcp_disable (retrying h1 h2 s) = (Next r, sd) ->
    (r <> 0 ->
     intel_hdcp_check_link s =
       (Return r, demoted "Failed to disable hdcp (%d)" sd)) /\
    (r = 0 ->
     forall r' se,
       call _intel_hdcp_enable sd = (Next r', se) ->
       r' <> 0 ->
       intel_hdcp_check_link s =
         (Return r', demoted "Failed to enable hdcp (%d)" se) /\
       hdcp_value (conn (demoted "Failed to enable hdcp (%d)" se)) = DESIRED).
Proof.
  intros Hp Hshim Hv Hread Henc Hlink r sd Hdis.
  assert (has_shim (conn s) = true) as Hhas
      by (unfold has_shim; rewrite Hshim; reflexivity).
  assert (content_protection_eqb (hdcp_value (conn s)) UNDESIRED = false) as Hu
      by (destruct (hdcp_value (conn s)); [contradiction Hv | ..]; reflexivity).
  unfold retrying in Hdis. apply call_inv in Hdis.
  assert (forall k : Z -> M Z,
             bind (call _intel_hdcp_disable) k
               (emit (EvLog "[%s:%d] HDCP link failed, retrying authentication")
                  (set_hw h2 (emit (EvShim SHIM_check_link)
                                (set_hw h1 (emit (EvMutexLock hdcp_mutex) s)))))
             = k r sd) as Hcall.
  { intros k. rewrite bind_call. destruct Hdis as [-> | ->]; reflexivity. }
  assert (intel_hdcp_check_link s =
          bind (when (truthy r)
                  (bind (drm_log "Failed to disable hdcp (%d)")
                     (fun _ => bind (modify_conn (with_hdcp_value DESIRED))
                        (fun _ => bind (ev (EvScheduleWork hdcp_prop_work))
                           (fun _ => out r)))))
            (fun _ =>
               bind (call _intel_hdcp_enable)
                 (fun r =>
                    bind (when (truthy r)
                            (bind (drm_log "Failed to enable hdcp (%d)")
                               (fun _ => bind (modify_conn (with_hdcp_value DESIRED))
                                  (fun _ => bind (ev (EvScheduleWork hdcp_prop_work))
                                     (fun _ => out r)))))
                      (fun _ => out r))) sd) as Hhead.
  { unfold intel_hdcp_check_link.
    mrun. rewrite Hp. mrun. rewrite Hhas. cbn [negb]. mrun. rewrite Hu. mrun.
    rewrite Hread. cbn [fst snd]. rewrite Henc. cbn [negb]. mrun.
    rewrite Hshim. mrun. rewrite Hlink. cbn [fst snd]. mstep.
    rewrite Hcall. reflexivity. }
  rewrite Hhead. clear Hhead Hcall. split.
  - intros Hr. mstep. rewrite (truthy_nonzero r Hr). mrun. reflexivity.
  - intros -> r' se Hen Hr'. split; [| reflexivity].
    mstep. cbn [truthy Z.eqb negb]. rewrite bind_call.
    apply call_inv in Hen. destruct Hen as [-> | ->];
      mstep; rewrite (truthy_nonzero r' Hr'); mrun; reflexivity.
Qed.

End LinkCheckFacts.

Section LinkCheckRuns.

#[local] Existing Instance Bench.regs.
#[local] Existing Instance Bench.drm.
#[local] Existing Instance Bench.plat.

(** C8, refuted as stated: the link is encrypting, the link check fails and
    the disable step times out.  The link check returns that error with the
    state demoted to Desired, and the enable step has not been started. *)
Lemma check_link_disable_error_skips_enable :
  hdcp_value (conn BenchLink.stuck_start) = ENABLED /\
  fst (intel_hdcp_check_link BenchLink.stuck_start) = Return (- ETIMEDOUT) /\
  logged disabling_msg (trace (snd (intel_hdcp_check_link BenchLink.stuck_start)))
    = true /\
  logged enabling_msg (trace (snd (intel_hdcp_check_link BenchLink.stuck_start)))
    = false /\
  hdcp_value (conn (snd (intel_hdcp_check_link BenchLink.stuck_start))) = DESIRED.
Proof. vm_compute. repeat split. Qed.

(** A run of C8's theorem, on the same input. *)
Lemma check_link_retry_witness :
  intel_hdcp_check_link BenchLink.stuck_start =
    (Return (- ETIMEDOUT),
     demoted "Failed to disable hdcp (%d)"
       (snd (_intel_hdcp_disable
               (retrying BenchLink.stuck BenchLink.stuck BenchLink.stuck_start)))).
Proof.
  refine (proj1 (check_link_retry (plat := Bench.plat) BenchLink.stuck_start
                   PORT_B Bench.shim (Bench.BIT 20) BenchLink.stuck
                   BenchLink.stuck eq_refl eq_refl _ eq_refl eq_refl eq_refl
                   (- ETIMEDOUT) _ _) _).
  - discriminate.
  - vm_compute. reflexivity.
  - discriminate.
Defined.

End LinkCheckRuns.

(** ** The SHA-1 text framer *)

Section FramerFacts.

Context {regs : i915_reg_h} {drm : drm_hdcp_h} {H : Type} {plat : platform H}.

(** *** The leftover count *)

Lemma sha_ksv_step_leftovers rep_ctl ksv_fifo i st (s s' : state H) st' :
  0 <= sha_leftovers st < 4 ->
  sha_ksv_step rep_ctl ksv_fifo i st s = (Next st', s') ->
  sha_leftovers st' = (sha_leftovers st + 1) mod 4.
Proof.
  intros Hl Hrun. unfold sha_ksv_step in Hrun.
  unfold DRM_HDCP_KSV_LEN in Hrun.
  rewrite (u32_small (4 - sha_leftovers st)) in Hrun by lia.
  rewrite (u32_small (5 - (4 - sha_leftovers st))) in Hrun by lia.
  remember (5 - (4 - sha_leftovers st)) as l1 eqn:El1.
  mrun_in Hrun; try discriminate Hrun; injection Hrun as <- _;
    match goal with
    | |- context [sha_leftovers (Build_sha_state ?a ?b ?c)] =>
        change (sha_leftovers (Build_sha_state a b c)) with c
    end;
    match goal with
    | Hc : (4 >? _) = true |- _ =>
        apply Z.gtb_lt in Hc; rewrite Z.mod_small by lia; lia
    | Hc : (4 >? _) = false |- _ =>
        destruct (Z.gtb_spec 4 l1); [discriminate Hc |];
        replace (sha_leftovers st) with 3 by lia; reflexivity
    end.
Qed.

Lemma sha_ksv_loop_leftovers n : forall rep_ctl ksv_fifo i st (s s' : state H) st',
  0 <= sha_leftovers st < 4 ->
  sha_ksv_loop n rep_ctl ksv_fifo i st s = (Next st', s') ->
  sha_leftovers st' = (sha_leftovers st + Z.of_nat n) mod 4.
Proof.
  induction n as [| n IH]; intros rep_ctl ksv_fifo i st s s' st' Hl Hrun.
  - cbn [sha_ksv_loop] in Hrun. rewrite ret_run in Hrun. injection Hrun as <- _.
    change (Z.of_nat 0) with 0. rewrite Z.add_0_r, Z.mod_small by lia. reflexivity.
  - cbn [sha_ksv_loop] in Hrun. unfold bind at 1 in Hrun.
    destruct (sha_ksv_step rep_ctl ksv_fifo i st s) as [[st1 | r |] s1] eqn:E;
      try discriminate Hrun.
    pose proof (sha_ksv_step_leftovers _ _ _ _ _ _ _ Hl E) as E1.
    apply IH in Hrun.
    + rewrite Hrun, E1, Zplus_mod_idemp_l. f_equal. lia.
    + rewrite E1. apply Z.mod_pos_bound. lia.
Qed.

End FramerFacts.

(** *** Runs that never report an invalid number of leftovers *)

Section Silence.

Context {regs : i915_reg_h} {drm : drm_hdcp_h} {H : Type} {plat : platform H}.

Local Abbreviation bad := invalid_leftovers_msg.
Local Abbreviation M := (@M H).

Lemma logged_emit msg e (s : state H) :
  logged msg (trace (emit e s)) =
  logged msg (trace s) ||
  match e with EvLog m => String.eqb m msg | _ => false end.
Proof.
  unfold logged, emit. cbn [trace]. rewrite existsb_app. cbn [existsb].
  rewrite orb_false_r. reflexivity.
Qed.

Lemma silent_ret {A} (a : A) : silent (@ret H A a).
Proof. intros s Hs. exact Hs. Qed.

Lemma silent_return {A} r : silent (@return_ H A r).
Proof. intros s Hs. exact Hs. Qed.

Lemma silent_abort {A} : silent (@abort H A).
Proof. intros s Hs. exact Hs. Qed.

Lemma silent_ev e :
  match e with EvLog m => String.eqb m bad | _ => false end = false ->
  silent (@ev H e).
Proof.
  intros He s Hs. cbn [ev snd]. rewrite logged_emit, Hs, He. reflexivity.
Qed.

Lemma silent_drm_log msg : String.eqb msg bad = false -> silent (@drm_log H msg).
Proof. intros He. apply silent_ev. exact He. Qed.

Lemma silent_lift {A} (f : H -> A * H) : silent (lift f).
Proof. intros s Hs. unfold lift. destruct (f (hw s)). exact Hs. Qed.

Lemma silent_get_conn : silent (@get_conn H).
Proof. intros s Hs. exact Hs. Qed.

Lemma silent_modify_conn f : silent (@modify_conn H f).
Proof. intros s Hs. exact Hs. Qed.

Lemma silent_deref {A} (o : option A) : silent (@deref H A o).
Proof. destruct o; intros s Hs; exact Hs. Qed.

Lemma silent_bind_post {A B} (m : M A) (k : A -> M B) (Q : A -> Prop) :
  silent m ->
  (forall s a s', m s = (Next a, s') -> Q a) ->
  (forall a, Q a -> silent (k a)) ->
  silent (bind m k).
Proof.
  intros Hm HQ Hk s Hs. unfold bind. specialize (Hm s Hs).
  destruct (m s) as [[a | r |] s1] eqn:E; cbn [snd] in *; try exact Hm.
  apply (Hk a); [apply (HQ s a s1 E) | exact Hm].
Qed.

Lemma silent_bind {A B} (m : M A) (k : A -> M B) :
  silent m -> (forall a, silent (k a)) -> silent (bind m k).
Proof.
  intros Hm Hk. apply (silent_bind_post m k (fun _ => True)); auto.
Qed.

Lemma silent_when c (body : M unit) : silent body -> silent (when c body).
Proof. intros Hb. destruct c; [exact Hb | apply silent_ret]. Qed.

Lemma silent_call (f : M Z) : silent f -> silent (call f).
Proof.
  intros Hf s Hs. unfold call. specialize (Hf s Hs).
  destruct (f s) as [[a | r |] s1]; exact Hf.
Qed.

Lemma silent_i915_write r v : silent (i915_write r v).
Proof.
  intros s Hs. cbn [i915_write snd]. rewrite logged_emit. cbn [set_hw trace].
  rewrite Hs. reflexivity.
Qed.

Lemma silent_i915_read r : silent (i915_read r).
Proof. apply silent_lift. Qed.

Lemma silent_shim_call {A} op (f : H -> A * H) : silent (shim_call op f).
Proof.
  unfold shim_call. apply silent_bind; [apply silent_ev; reflexivity |].
  intros _. apply silent_lift.
Qed.

Create HintDb silence.

(** Silence of a statement made of the ones above and of statements whose
    silence is known. *)
Ltac silence :=
  repeat
    lazymatch goal with
    | |- silent (bind _ _) => apply silent_bind; [| intros ?]
    | |- silent (ret _) => apply silent_ret
    | |- silent (return_ _) => apply silent_return
    | |- silent abort => apply silent_abort
    | |- silent (lift _) => apply silent_lift
    | |- silent get_conn => apply silent_get_conn
    | |- silent (modify_conn _) => apply silent_modify_conn
    | |- silent (deref _) => apply silent_deref
    | |- silent (i915_write _ _) => apply silent_i915_write
    | |- silent (i915_read _) => apply silent_i915_read
    | |- silent (shim_call _ _) => apply silent_shim_call
    | |- silent (drm_log _) => apply silent_drm_log; reflexivity
    | |- silent (ev _) => apply silent_ev; reflexivity
    | |- silent (when _ _) => apply silent_when
    | |- silent (call _) => apply silent_call
    | |- silent (let _ := _ in _) => cbv zeta
    | |- silent (match ?x with (_, _) => _ end) => destruct x
    | |- silent (if ?c then _ else _) => destruct c
    | |- silent _ => solve [auto with silence]
    end.

Lemma silent_poll_ksv_fifo shim : silent (intel_hdcp_poll_ksv_fifo shim).
Proof. unfold intel_hdcp_poll_ksv_fifo. silence. Qed.
#[local] Hint Resolve silent_poll_ksv_fifo : silence.

Lemma silent_write_sha_text w : silent (intel_write_sha_text w).
Proof. unfold intel_write_sha_text. silence. Qed.
#[local] Hint Resolve silent_write_sha_text : silence.

Lemma silent_get_repeater_ctl p :
  silent (intel_hdcp_get_repeater_ctl (H := H) p).
Proof. unfold intel_hdcp_get_repeater_ctl. destruct p; silence. Qed.
#[local] Hint Resolve silent_get_repeater_ctl : silence.

Lemma silent_sha_write w idx : silent (sha_write w idx).
Proof. unfold sha_write. silence. Qed.
#[local] Hint Resolve silent_sha_write : silence.

Lemma silent_sha_ksv_step rep_ctl ksv_fifo i st :
  silent (sha_ksv_step rep_ctl ksv_fifo i st).
Proof. unfold sha_ksv_step. silence. Qed.
#[local] Hint Resolve silent_sha_ksv_step : silence.

Lemma silent_sha_ksv_loop n : forall rep_ctl ksv_fifo i st,
  silent (sha_ksv_loop n rep_ctl ksv_fifo i st).
Proof.
  induction n as [| n IH]; intros; cbn [sha_ksv_loop]; silence.
Qed.
#[local] Hint Resolve silent_sha_ksv_loop : silence.

(** With a leftover count that the splice handles, the splice is silent. *)
Lemma silent_sha_tail rep_ctl b0 b1 st :
  0 <= sha_leftovers st < 4 -> silent (sha_tail rep_ctl b0 b1 st).
Proof.
  intros Hl. unfold sha_tail.
  destruct (Z.eqb_spec (sha_leftovers st) 0);
    [silence |].
  destruct (Z.eqb_spec (sha_leftovers st) 1);
    [silence |].
  destruct (Z.eqb_spec (sha_leftovers st) 2);
    [silence |].
  destruct (Z.eqb_spec (sha_leftovers st) 3);
    [silence | lia].
Qed.
#[local] Hint Resolve silent_sha_tail : silence.

Lemma silent_sha_fill_loop fuel : forall idx, silent (sha_fill_loop fuel idx).
Proof.
  induction fuel as [| fuel IH]; intros idx; cbn [sha_fill_loop]; silence.
Qed.
#[local] Hint Resolve silent_sha_fill_loop : silence.

Lemma silent_sha_finish rep_ctl n b0 b1 st :
  0 <= sha_leftovers st < 4 -> silent (sha_finish rep_ctl n b0 b1 st).
Proof.
  intros Hl. unfold sha_finish. silence.
Qed.
#[local] Hint Resolve silent_sha_finish : silence.

Lemma silent_sha_frame p n ksv_fifo b0 b1 : silent (sha_frame p n ksv_fifo b0 b1).
Proof.
  unfold sha_frame.
  apply silent_bind; [silence | intros rep_ctl].
  apply silent_bind; [silence | intros _].
  apply (silent_bind_post _ _ (fun st => 0 <= sha_leftovers st < 4)).
  - silence.
  - intros s st s' Hrun.
    apply sha_ksv_loop_leftovers in Hrun; [| cbn; lia].
    rewrite Hrun. apply Z.mod_pos_bound. lia.
  - intros st Hl. silence.
Qed.
#[local] Hint Resolve silent_sha_frame : silence.

Lemma silent_v_prime_loop n : forall shim i, silent (v_prime_loop n shim i).
Proof.
  induction n as [| n IH]; intros; cbn [v_prime_loop]; silence.
Qed.
#[local] Hint Resolve silent_v_prime_loop : silence.

Lemma silent_auth_downstream : silent intel_hdcp_auth_downstream.
Proof.
  unfold intel_hdcp_auth_downstream.
  apply silent_bind; [silence | intros c].
  destruct (dig_port c); silence.
Qed.

(** C10.  An iteration of the KSV loop that starts with 0 to 3 leftover bytes
    ends with 0 to 3 leftover bytes, one more modulo 4; after [n] iterations
    from the start of the framer there are [n mod 4]; and no run of Part 2
    reports an invalid number of leftovers. *)
Theorem sha_leftovers_invariant :
  (forall rep_ctl ksv_fifo i st (s s' : state H) st',
      0 <= sha_leftovers st < 4 ->
      sha_ksv_step rep_ctl ksv_fifo i st s = (Next st', s') ->
      0 <= sha_leftovers st' < 4 /\
      sha_leftovers st' = (sha_leftovers st + 1) mod 4) /\
  (forall n rep_ctl ksv_fifo (s s' : state H) st',
      sha_ksv_loop n rep_ctl ksv_fifo 0
        {| sha_idx := 0; sha_text := 0; sha_leftovers := 0 |} s = (Next st', s') ->
      0 <= sha_leftovers st' < 4 /\
      sha_leftovers st' = Z.of_nat n mod 4) /\
  (forall s : state H,
      logged invalid_leftovers_msg (trace s) = false ->
      logged invalid_leftovers_msg
             (trace (snd (intel_hdcp_auth_downstream s))) = false).
Proof.
  split; [| split].
  - intros rep_ctl ksv_fifo i st s s' st' Hl Hrun.
    pose proof (sha_ksv_step_leftovers _ _ _ _ _ _ _ Hl Hrun) as E.
    split; [rewrite E; apply Z.mod_pos_bound; lia | exact E].
  - intros n rep_ctl ksv_fifo s s' st' Hrun.
    apply sha_ksv_loop_leftovers in Hrun; [| cbn; lia].
    cbn [sha_leftovers] in Hrun. rewrite Z.add_0_l in Hrun.
    split; [rewrite Hrun; apply Z.mod_pos_bound; lia | exact Hrun].
  - exact silent_auth_downstream.
Qed.

End Silence.

(** *** The framer never outlives the budget of its zero fill *)

Section Returns.

Context {regs : i915_reg_h} {drm : drm_hdcp_h} {H : Type} {plat : platform H}.

Local Abbreviation M := (@M H).
Local Abbreviation any := (fun _ => True).

Lemma yields_weaken {A} (m : M A) (Q R : A -> Prop) :
  yields m Q -> (forall a, Q a -> R a) -> yields m R.
Proof.
  intros Hm HQ s. specialize (Hm s).
  destruct (fst (m s)); auto.
Qed.

Lemma yields_ret {A} (a : A) (Q : A -> Prop) : Q a -> yields (@ret H A a) Q.
Proof. intros Ha s. exact Ha. Qed.

Lemma yields_return {A} r (Q : A -> Prop) : yields (@return_ H A r) Q.
Proof. intros s. exact I. Qed.

Lemma yields_bind {A B} (m : M A) (k : A -> M B) (Q : A -> Prop) (R : B -> Prop) :
  yields m Q -> (forall a, Q a -> yields (k a) R) -> yields (bind m k) R.
Proof.
  intros Hm Hk s. unfold bind. specialize (Hm s).
  destruct (m s) as [[a | r |] s1]; cbn [fst] in *.
  - apply (Hk a Hm s1).
  - exact I.
  - exact Hm.
Qed.

Lemma yields_bind_any {A B} (m : M A) (k : A -> M B) (R : B -> Prop) :
  yields m any -> (forall a, yields (k a) R) -> yields (bind m k) R.
Proof. intros Hm Hk. apply (yields_bind m k any R); auto. Qed.

Lemma yields_when c (body : M unit) : yields body any -> yields (when c body) any.
Proof. intros Hb. destruct c; [exact Hb | apply yields_ret; exact I]. Qed.

Lemma yields_call (f : M Z) : yields f any -> yields (call f) any.
Proof.
  intros Hf s. unfold call. specialize (Hf s).
  destruct (f s) as [[a | r |] s1]; cbn [fst] in *; auto.
Qed.

Lemma yields_lift {A} (f : H -> A * H) : yields (lift f) any.
Proof. intros s. unfold lift. destruct (f (hw s)). exact I. Qed.

Lemma yields_ev e : yields (@ev H e) any.
Proof. intros s. exact I. Qed.

Lemma yields_i915_write r v : yields (i915_write r v) any.
Proof. intros s. exact I. Qed.

Lemma yields_write_sha_text w : yields (intel_write_sha_text w) any.
Proof.
  unfold intel_write_sha_text.
  apply yields_bind_any; [apply yields_i915_write | intros _].
  apply yields_bind_any; [apply yields_lift | intros r].
  apply yields_bind_any; [| intros _; apply yields_return].
  apply yields_when.
  apply yields_bind_any; [apply yields_ev | intros _; apply yields_return].
Qed.

Lemma yields_sha_write w idx :
  yields (sha_write w idx) (fun i => i = s32 (idx + 4)).
Proof.
  unfold sha_write.
  apply yields_bind_any; [apply yields_call, yields_write_sha_text | intros r].
  apply yields_bind_any; [apply yields_when, yields_return | intros _].
  apply yields_ret. reflexivity.
Qed.

Lemma yields_get_repeater_ctl p : yields (intel_hdcp_get_repeater_ctl (H := H) p) any.
Proof.
  unfold intel_hdcp_get_repeater_ctl.
  destruct p;
    first [ apply yields_return
          | apply yields_bind_any; [apply yields_ev | intros _; apply yields_return] ].
Qed.

(** A step keeps the leftover count below four and the byte index a multiple
    of four, which it advances by one word or two. *)
Lemma yields_sha_ksv_step rep_ctl ksv_fifo i st :
  0 <= sha_leftovers st < 4 ->
  0 <= sha_idx st <= 2 ^ 31 - 9 ->
  sha_idx st mod 4 = 0 ->
  yields (sha_ksv_step (H := H) rep_ctl ksv_fifo i st)
    (fun st' => 0 <= sha_leftovers st' < 4 /\
                sha_idx st <= sha_idx st' <= sha_idx st + 8 /\
                sha_idx st' mod 4 = 0).
Proof.
  intros Hl Hi Hm. unfold sha_ksv_step, DRM_HDCP_KSV_LEN.
  rewrite (u32_small (4 - sha_leftovers st)) by lia.
  rewrite (u32_small (5 - (4 - sha_leftovers st))) by lia.
  rewrite (s32_small (sha_idx st + 4)) by lia.
  rewrite (s32_small (sha_idx st + 4 + 4)) by lia.
  apply yields_bind_any; [apply yields_call, yields_write_sha_text | intros r].
  apply yields_bind_any; [apply yields_when, yields_return | intros _].
  apply yields_bind_any; [apply yields_when, yields_i915_write | intros _].
  destruct (Z.gtb_spec 4 (5 - (4 - sha_leftovers st))) as [Hc | Hc].
  - apply yields_ret. cbn [sha_leftovers sha_idx].
    repeat split; try lia. Z.div_mod_to_equations. lia.
  - apply yields_bind_any; [apply yields_call, yields_write_sha_text | intros r'].
    apply yields_bind_any; [apply yields_when, yields_return | intros _].
    apply yields_ret. cbn [sha_leftovers sha_idx].
    repeat split; try lia. Z.div_mod_to_equations. lia.
Qed.

Lemma yields_sha_ksv_loop n : forall rep_ctl ksv_fifo i st,
  0 <= sha_leftovers st < 4 ->
  0 <= sha_idx st ->
  sha_idx st + 8 * Z.of_nat n <= 2 ^ 31 - 9 ->
  sha_idx st mod 4 = 0 ->
  yields (sha_ksv_loop (H := H) n rep_ctl ksv_fifo i st)
    (fun st' => 0 <= sha_leftovers st' < 4 /\
                0 <= sha_idx st' <= sha_idx st + 8 * Z.of_nat n /\
                sha_idx st' mod 4 = 0).
Proof.
  induction n as [| n IH]; intros rep_ctl ksv_fifo i st Hl Hi Hb Hm.
  - cbn [sha_ksv_loop]. apply yields_ret. repeat split; first [assumption | lia].
  - cbn [sha_ksv_loop].
    eapply yields_bind; [apply yields_sha_ksv_step; try assumption; lia |].
    intros st1 (Hl1 & Hi1 & Hm1).
    eapply yields_weaken; [apply IH; try assumption; lia |].
    cbv beta. intros st2 (Hl2 & Hi2 & Hm2). repeat split; try assumption; lia.
Qed.

(** The write of BSTATUS and M0 advances the byte index by three words, or
    by four when three bytes are left over. *)
Lemma yields_sha_tail rep_ctl b0 b1 st :
  0 <= sha_leftovers st < 4 ->
  0 <= sha_idx st <= 2 ^ 31 - 17 ->
  yields (sha_tail (H := H) rep_ctl b0 b1 st)
    (fun idx => idx = sha_idx st + (if sha_leftovers st =? 3 then 16 else 12)).
Proof.
  intros Hl Hi. unfold sha_tail.
  assert (Hq : forall idx, 0 <= idx <= 2 ^ 31 - 5 -> s32 (idx + 4) = idx + 4).
  { intros idx Hidx. apply s32_small; lia. }
  assert (Hc : sha_leftovers st = 0 \/ sha_leftovers st = 1 \/
               sha_leftovers st = 2 \/ sha_leftovers st = 3) by lia.
  destruct Hc as [-> | [-> | [-> | ->]]];
    repeat
      match goal with
      | |- yields (if ?c then _ else _) _ =>
          let v := eval compute in c in change c with v; cbv iota
      | |- yields (bind (i915_write _ _) _) _ =>
          apply yields_bind_any; [apply yields_i915_write | intros _]
      | |- yields (bind (sha_write _ ?i) _) _ =>
          eapply yields_bind; [apply yields_sha_write |];
          let j := fresh "idx" in
          intros j ->; rewrite (Hq i) by lia
      | |- yields (sha_write _ ?i) _ =>
          eapply yields_weaken; [apply yields_sha_write |];
          let j := fresh "idx" in
          intros j ->; rewrite (Hq i) by lia;
          try match goal with
              | |- context [if ?c then _ else _] =>
                  let v := eval compute in c in change c with v
              end;
          cbv iota; lia
      end.
Qed.

(** Sixteen iterations are a budget the zero fill cannot outlive: it starts
    at a multiple of four and stops fifteen words into a block at the
    latest. *)
Lemma yields_sha_fill_loop fuel : forall idx,
  0 <= idx <= 2 ^ 31 - 65 ->
  idx mod 4 = 0 ->
  60 - idx mod 64 <= 4 * Z.of_nat fuel ->
  yields (sha_fill_loop (H := H) fuel idx) any.
Proof.
  induction fuel as [| fuel IH]; intros idx Hi Hm Hf.
  - cbn [sha_fill_loop].
    rewrite Z.rem_mod_nonneg by lia.
    assert (Hr : 0 <= idx mod 64 < 64) by (apply Z.mod_pos_bound; lia).
    unfold u64. rewrite (Z.mod_small (idx mod 64)) by lia.
    destruct (Z.ltb_spec (idx mod 64) (64 - 4)) as [Hc | Hc].
    + exfalso. Z.div_mod_to_equations. lia.
    + apply yields_ret. exact I.
  - cbn [sha_fill_loop].
    rewrite Z.rem_mod_nonneg by lia.
    assert (Hr : 0 <= idx mod 64 < 64) by (apply Z.mod_pos_bound; lia).
    unfold u64. rewrite (Z.mod_small (idx mod 64)) by lia.
    destruct (Z.ltb_spec (idx mod 64) (64 - 4)) as [Hc | Hc].
    + eapply yields_bind; [apply yields_sha_write |].
      intros idx' ->. rewrite s32_small by lia.
      apply IH; Z.div_mod_to_equations; lia.
    + apply yields_ret. exact I.
Qed.

(** The framer comes to its end for every device count a byte can hold:
    neither the byte index overflows nor the zero fill outlives its budget. *)
Lemma yields_sha_frame p n ksv_fifo b0 b1 :
  n <= 255 ->
  yields (sha_frame (H := H) p n ksv_fifo b0 b1) any.
Proof.
  intros Hn. unfold sha_frame.
  apply yields_bind_any; [apply yields_call, yields_get_repeater_ctl | intros rep_ctl].
  apply yields_bind_any; [apply yields_i915_write | intros _].
  assert (Hb : 8 * Z.of_nat (Z.to_nat n) <= 2040) by lia.
  eapply yields_bind.
  { apply yields_sha_ksv_loop; cbn [sha_leftovers sha_idx]; try lia. reflexivity. }
  cbn [sha_idx]. intros st (Hl & Hi & Hm).
  apply yields_bind_any; [| intros _; apply yields_ret; exact I].
  unfold sha_finish.
  eapply yields_bind; [apply yields_sha_tail; try assumption; lia |].
  intros idx Hidx.
  assert (Hr : sha_idx st <= idx <= sha_idx st + 16 /\ idx mod 4 = 0).
  { cbv beta in Hidx. subst idx. destruct (sha_leftovers st =? 3);
      (split; [lia | Z.div_mod_to_equations; lia]). }
  destruct Hr as [Hr Hmod].
  apply yields_bind_any; [apply yields_i915_write | intros _].
  apply yields_bind_any.
  { apply yields_sha_fill_loop; try assumption; try lia.
    assert (0 <= idx mod 64 < 64) by (apply Z.mod_pos_bound; lia).
    Z.div_mod_to_equations. lia. }
  intros _.
  apply yields_bind_any; [apply yields_call, yields_write_sha_text | intros r].
  apply yields_when, yields_return.
Qed.

End Returns.

(** *** The splice of BSTATUS and M0, for every input *)

Lemma land_disjoint a b k :
  0 <= k -> a mod 2 ^ k = 0 -> 0 <= b < 2 ^ k -> Z.land a b = 0.
Proof.
  intros Hk Ha Hb. apply Z.bits_inj'. intros n Hn.
  rewrite Z.land_spec, Z.bits_0.
  destruct (Z.lt_ge_cases n k) as [Hlt | Hge].
  - rewrite <- (Z.mod_pow2_bits_low a k n Hlt), Ha, Z.bits_0. reflexivity.
  - rewrite <- (Z.mod_small b (2 ^ k) Hb), Z.mod_pow2_bits_high by lia.
    apply andb_false_r.
Qed.

Lemma lor_disjoint a b k :
  0 <= k -> a mod 2 ^ k = 0 -> 0 <= b < 2 ^ k -> Z.lor a b = a + b.
Proof.
  intros Hk Ha Hb.
  rewrite <- Z.lxor_lor, <- Z.add_nocarry_lxor;
    [reflexivity | |]; apply (land_disjoint a b k); assumption.
Qed.

Lemma lor_multiple a b k :
  0 <= k -> a mod 2 ^ k = 0 -> b mod 2 ^ k = 0 -> Z.lor a b mod 2 ^ k = 0.
Proof.
  intros Hk Ha Hb.
  assert (Hp : 0 < 2 ^ k) by (apply Z.pow_pos_nonneg; lia).
  rewrite (Z.div_mod a (2 ^ k)), (Z.div_mod b (2 ^ k)), Ha, Hb, !Z.add_0_r by lia.
  rewrite !(Z.mul_comm (2 ^ k)), <- !Z.shiftl_mul_pow2, <- Z.shiftl_lor by lia.
  rewrite Z.shiftl_mul_pow2 by lia. apply Z.mod_mul. lia.
Qed.

Lemma u32_multiple x k :
  0 <= k <= 32 -> x mod 2 ^ k = 0 -> u32 x mod 2 ^ k = 0.
Proof.
  intros Hk Hx. unfold u32.
  replace 32 with (k + (32 - k)) by lia. rewrite Z.pow_add_r by lia.
  assert (Hp : 0 < 2 ^ k) by (apply Z.pow_pos_nonneg; lia).
  assert (Hq : 0 < 2 ^ (32 - k)) by (apply Z.pow_pos_nonneg; lia).
  rewrite Z.rem_mul_r by lia.
  rewrite Hx, Z.add_0_l, Z.mul_comm. apply Z.mod_mul. lia.
Qed.

(** The word of no leftover byte: BSTATUS in the low half. *)
Lemma splice_0 b0 b1 :
  is_byte b0 -> is_byte b1 ->
  u32 (Z.lor (Z.shiftl b0 8) b1) = be_word [b0; b1].
Proof.
  unfold is_byte, be_word. intros H0 H1. cbn [fold_left].
  rewrite Z.shiftl_mul_pow2 by lia.
  rewrite (lor_disjoint _ b1 8); [| lia | apply Z.mod_mul; lia | lia].
  rewrite u32_small; lia.
Qed.

(** The word of one leftover byte: the byte and BSTATUS in the low 24 bits. *)
Lemma splice_1 l0 b0 b1 :
  is_byte l0 -> is_byte b0 -> is_byte b1 ->
  Z.shiftr
    (Z.land (u32 (Z.lor (be_word [l0; 0; 0; 0])
                        (Z.lor (Z.shiftl b0 16) (Z.shiftl b1 8))))
            4294967040) 8
  = be_word [l0; b0; b1].
Proof.
  unfold is_byte, be_word. intros Hl H0 H1. cbn [fold_left].
  rewrite !Z.shiftl_mul_pow2 by lia.
  rewrite (lor_disjoint (b0 * 2 ^ 16) _ 16); [| lia | apply Z.mod_mul; lia | lia].
  rewrite (lor_disjoint _ _ 24); [| lia | | lia].
  2:{ replace ((((0 * 256 + l0) * 256 + 0) * 256 + 0) * 256 + 0)
        with (l0 * 2 ^ 24) by lia.
      apply Z.mod_mul. lia. }
  rewrite u32_small by lia.
  rewrite Z.shiftr_land.
  replace ((((0 * 256 + l0) * 256 + 0) * 256 + 0) * 256 + 0 +
           (b0 * 2 ^ 16 + b1 * 2 ^ 8))
    with ((((0 * 256 + l0) * 256 + b0) * 256 + b1) * 2 ^ 8) by lia.
  rewrite Z.shiftr_div_pow2, Z.div_mul by lia.
  change (Z.shiftr 4294967040 8) with (Z.ones 24).
  rewrite Z.land_ones by lia. apply Z.mod_small. lia.
Qed.

(** The word of two leftover bytes: BSTATUS lands on the leftover bytes and
    the low half stays empty. *)
Lemma splice_2 l0 l1 b0 b1 :
  is_byte l0 -> is_byte l1 -> is_byte b0 -> is_byte b1 ->
  u32 (Z.lor (be_word [l0; l1; 0; 0]) (Z.lor (Z.shiftl b0 24) (Z.shiftl b1 16)))
    mod 2 ^ 16 = 0 /\
  be_word [l0; l1; b0; b1] mod 2 ^ 16 = be_word [b0; b1].
Proof.
  unfold is_byte, be_word. intros Hl0 Hl1 H0 H1. cbn [fold_left]. split.
  - apply u32_multiple; [lia |].
    apply lor_multiple; [lia | |].
    + replace ((((0 * 256 + l0) * 256 + l1) * 256 + 0) * 256 + 0)
        with ((l0 * 256 + l1) * 2 ^ 16) by lia.
      apply Z.mod_mul. lia.
    + rewrite !Z.shiftl_mul_pow2 by lia.
      apply lor_multiple; [lia | |].
      * replace (b0 * 2 ^ 24) with (b0 * 2 ^ 8 * 2 ^ 16) by lia.
        apply Z.mod_mul. lia.
      * apply Z.mod_mul. lia.
  - replace ((((0 * 256 + l0) * 256 + l1) * 256 + b0) * 256 + b1)
      with ((0 * 256 + b0) * 256 + b1 + (l0 * 256 + l1) * 2 ^ 16) by lia.
    rewrite Z.mod_add by lia. apply Z.mod_small. lia.
Qed.

(** The word of three leftover bytes: the first byte of BSTATUS lands on the
    first leftover byte and the low byte stays empty. *)
Lemma splice_3 l0 l1 l2 b0 :
  is_byte l0 -> is_byte l1 -> is_byte l2 -> is_byte b0 ->
  u32 (Z.lor (be_word [l0; l1; l2; 0]) (Z.shiftl b0 24)) mod 2 ^ 8 = 0 /\
  be_word [l0; l1; l2; b0] mod 2 ^ 8 = b0.
Proof.
  unfold is_byte, be_word. intros Hl0 Hl1 Hl2 H0. cbn [fold_left]. split.
  - apply u32_multiple; [lia |].
    apply lor_multiple; [lia | |].
    + replace ((((0 * 256 + l0) * 256 + l1) * 256 + l2) * 256 + 0)
        with (((l0 * 256 + l1) * 256 + l2) * 2 ^ 8) by lia.
      apply Z.mod_mul. lia.
    + rewrite !Z.shiftl_mul_pow2 by lia.
      replace (b0 * 2 ^ 24) with (b0 * 2 ^ 16 * 2 ^ 8) by lia.
      apply Z.mod_mul. lia.
  - replace ((((0 * 256 + l0) * 256 + l1) * 256 + l2) * 256 + b0)
      with (b0 + ((l0 * 256 + l1) * 256 + l2) * 2 ^ 8) by lia.
    rewrite Z.mod_add by lia. apply Z.mod_small. lia.
Qed.

Lemma byte_at_range buf off : is_byte (byte_at buf off).
Proof.
  unfold byte_at, is_byte. destruct (off <? 0); [lia | apply u8_range].
Qed.

Lemma fifo_bytes_1 f p : fifo_bytes f p 1 = [byte_at f (p + 0)].
Proof. reflexivity. Qed.

Lemma fifo_bytes_2 f p : fifo_bytes f p 2 = [byte_at f (p + 0); byte_at f (p + 1)].
Proof. reflexivity. Qed.

Lemma fifo_bytes_3 f p :
  fifo_bytes f p 3 = [byte_at f (p + 0); byte_at f (p + 1); byte_at f (p + 2)].
Proof. reflexivity. Qed.

(** The bytes a KSV leaves over are held at the top of the word. *)
Lemma or_ksv_bytes_1 f base first :
  or_ksv_bytes f base first 1 0 = leftover_word (fifo_bytes f (base + first) 1).
Proof.
  rewrite fifo_bytes_1. unfold or_ksv_bytes.
  change (Z.to_nat 1) with 1%nat. cbn [seq fold_left].
  change (u64 ((4 - Z.of_nat 0 - 1) * 8)) with 24.
  change (Z.of_nat 0) with 0.
  change (leftover_word [byte_at f (base + first + 0)])
    with (be_word [byte_at f (base + first + 0); 0; 0; 0]).
  pose proof (byte_at_range f (base + first + 0)) as H0.
  set (x0 := byte_at f (base + first + 0)) in *.
  unfold is_byte, be_word in *. cbn [fold_left].
  rewrite Z.lor_0_l, Z.shiftl_mul_pow2 by lia.
  rewrite u32_small; lia.
Qed.

Lemma or_ksv_bytes_2 f base first :
  or_ksv_bytes f base first 2 0 = leftover_word (fifo_bytes f (base + first) 2).
Proof.
  rewrite fifo_bytes_2. unfold or_ksv_bytes.
  change (Z.to_nat 2) with 2%nat. cbn [seq fold_left].
  change (u64 ((4 - Z.of_nat 0 - 1) * 8)) with 24.
  change (u64 ((4 - Z.of_nat 1 - 1) * 8)) with 16.
  change (Z.of_nat 0) with 0. change (Z.of_nat 1) with 1.
  change (leftover_word [byte_at f (base + first + 0); byte_at f (base + first + 1)])
    with (be_word [byte_at f (base + first + 0); byte_at f (base + first + 1); 0; 0]).
  pose proof (byte_at_range f (base + first + 0)) as H0.
  pose proof (byte_at_range f (base + first + 1)) as H1.
  set (x0 := byte_at f (base + first + 0)) in *.
  set (x1 := byte_at f (base + first + 1)) in *.
  unfold is_byte, be_word in *. cbn [fold_left].
  rewrite Z.lor_0_l, !Z.shiftl_mul_pow2 by lia.
  rewrite (u32_small (x0 * 2 ^ 24)) by lia.
  rewrite (lor_disjoint _ _ 24); [| lia | apply Z.mod_mul; lia | lia].
  rewrite u32_small; lia.
Qed.

Lemma or_ksv_bytes_3 f base first :
  or_ksv_bytes f base first 3 0 = leftover_word (fifo_bytes f (base + first) 3).
Proof.
  rewrite fifo_bytes_3. unfold or_ksv_bytes.
  change (Z.to_nat 3) with 3%nat. cbn [seq fold_left].
  change (u64 ((4 - Z.of_nat 0 - 1) * 8)) with 24.
  change (u64 ((4 - Z.of_nat 1 - 1) * 8)) with 16.
  change (u64 ((4 - Z.of_nat 2 - 1) * 8)) with 8.
  change (Z.of_nat 0) with 0. change (Z.of_nat 1) with 1.
  change (Z.of_nat 2) with 2.
  change (leftover_word [byte_at f (base + first + 0); byte_at f (base + first + 1);
                         byte_at f (base + first + 2)])
    with (be_word [byte_at f (base + first + 0); byte_at f (base + first + 1);
                   byte_at f (base + first + 2); 0]).
  pose proof (byte_at_range f (base + first + 0)) as H0.
  pose proof (byte_at_range f (base + first + 1)) as H1.
  pose proof (byte_at_range f (base + first + 2)) as H2.
  set (x0 := byte_at f (base + first + 0)) in *.
  set (x1 := byte_at f (base + first + 1)) in *.
  set (x2 := byte_at f (base + first + 2)) in *.
  unfold is_byte, be_word in *. cbn [fold_left].
  rewrite Z.lor_0_l, !Z.shiftl_mul_pow2 by lia.
  rewrite (u32_small (x0 * 2 ^ 24)) by lia.
  rewrite (lor_disjoint (x0 * 2 ^ 24) (x1 * 2 ^ 16) 24);
    [| lia | apply Z.mod_mul; lia | lia].
  rewrite (u32_small (x0 * 2 ^ 24 + x1 * 2 ^ 16)) by lia.
  rewrite (lor_disjoint _ _ 16); [| lia | | lia].
  2:{ replace (x0 * 2 ^ 24 + x1 * 2 ^ 16) with ((x0 * 2 ^ 8 + x1) * 2 ^ 16) by lia.
      apply Z.mod_mul. lia. }
  rewrite u32_small; lia.
Qed.

(** The bytes the specification takes for left over are the bytes the
    framer holds. *)
Lemma skipn_fifo_bytes l :
  Forall is_byte l ->
  forall k, (k <= length l)%nat ->
    skipn k l = fifo_bytes l (Z.of_nat k) (Z.of_nat (length l - k)).
Proof.
  intros Hb k Hk. unfold fifo_bytes. rewrite Nat2Z.id.
  apply (nth_ext _ _ 0 0).
  - rewrite length_skipn, length_map, length_seq. reflexivity.
  - intros j Hj. rewrite length_skipn in Hj.
    rewrite nth_skipn.
    transitivity
      (nth j (map (fun j => byte_at l (Z.of_nat k + Z.of_nat j))
                  (seq 0 (length l - k)))
           (byte_at l (Z.of_nat k + Z.of_nat 0)));
      [| apply nth_indep; rewrite length_map, length_seq; exact Hj].
    rewrite (map_nth (fun j => byte_at l (Z.of_nat k + Z.of_nat j))).
    rewrite seq_nth by exact Hj. cbn [Nat.add].
    unfold byte_at.
    destruct (Z.ltb_spec (Z.of_nat k + Z.of_nat j) 0) as [Hn | _]; [lia |].
    rewrite <- Nat2Z.inj_add, Nat2Z.id.
    symmetry. apply u8_small.
    apply (proj1 (Forall_forall is_byte l) Hb). apply nth_In. lia.
Qed.

Lemma spec_leftover fifo n :
  0 <= n ->
  length fifo = Z.to_nat (5 * n) ->
  Forall is_byte fifo ->
  skipn (Z.to_nat (4 * (5 * n / 4))) (firstn (Z.to_nat (5 * n)) fifo)
  = fifo_bytes fifo (4 * (5 * n / 4)) ((5 * n) mod 4).
Proof.
  intros Hn Hlen Hb. rewrite <- Hlen, firstn_all.
  rewrite (skipn_fifo_bytes fifo Hb) by (rewrite Hlen; Z.div_mod_to_equations; lia).
  f_equal.
  - Z.div_mod_to_equations. lia.
  - rewrite Hlen. Z.div_mod_to_equations. lia.
Qed.

Section Splice.

Context {regs : i915_reg_h} {drm : drm_hdcp_h} {H : Type} {plat : platform H}.

Local Abbreviation M := (@M H).

Lemma reg_writes_app a b : reg_writes (a ++ b) = reg_writes a ++ reg_writes b.
Proof. unfold reg_writes. apply flat_map_app. Qed.

Lemma writes_eq {A} (m : M A) ws ws' : writes m ws -> ws = ws' -> writes m ws'.
Proof. intros Hm <-. exact Hm. Qed.

Lemma writes_ret {A} (a : A) : writes (@ret H A a) [].
Proof.
  intros s a' s' E. rewrite ret_run in E. injection E as _ <-.
  rewrite app_nil_r. reflexivity.
Qed.

Lemma writes_return {A} r ws : writes (@return_ H A r) ws.
Proof. intros s a s' E. rewrite return_run in E. discriminate E. Qed.

Lemma writes_bind_post {A B} (m : M A) (k : A -> M B) (Q : A -> Prop) w1 w2 :
  yields m Q -> writes m w1 -> (forall a, Q a -> writes (k a) w2) ->
  writes (bind m k) (w1 ++ w2).
Proof.
  intros Hy Hm Hk s b s' E. unfold bind in E. specialize (Hy s).
  destruct (m s) as [[a | r |] s1] eqn:Em; try discriminate E.
  cbn [fst] in Hy.
  rewrite (Hk a Hy s1 b s' E), (Hm s a s1 Em), app_assoc. reflexivity.
Qed.

Lemma writes_bind {A B} (m : M A) (k : A -> M B) w1 w2 :
  writes m w1 -> (forall a, writes (k a) w2) -> writes (bind m k) (w1 ++ w2).
Proof.
  intros Hm Hk s b s' E. unfold bind in E.
  destruct (m s) as [[a | r |] s1] eqn:Em; try discriminate E.
  rewrite (Hk a s1 b s' E), (Hm s a s1 Em), app_assoc. reflexivity.
Qed.

Lemma writes_i915_write r v : writes (i915_write r v) [(r, v)].
Proof.
  intros s a s' E. unfold i915_write in E. injection E as _ <-.
  cbn [trace emit set_hw]. rewrite reg_writes_app. reflexivity.
Qed.

Lemma writes_when_return c r : writes (when c (@return_ H unit r)) [].
Proof. destruct c; [apply writes_return | apply writes_ret]. Qed.

Lemma writes_call_write_sha_text w :
  writes (call (intel_write_sha_text w)) [(HDCP_SHA_TEXT, w)].
Proof.
  intros s a s' E. unfold call in E.
  destruct (intel_write_sha_text w s) as [[r | r |] s1] eqn:Ew;
    try discriminate E; injection E as _ <-;
    unfold intel_write_sha_text in Ew; mrun_in Ew;
    try discriminate Ew; injection Ew as _ <-;
    cbn [trace emit set_hw]; rewrite !reg_writes_app;
    cbn [reg_writes flat_map app]; rewrite ?app_nil_r; reflexivity.
Qed.

Lemma writes_sha_write w idx : writes (sha_write w idx) [(HDCP_SHA_TEXT, w)].
Proof.
  unfold sha_write. eapply writes_eq.
  - apply writes_bind; [apply writes_call_write_sha_text | intros r].
    apply writes_bind; [apply writes_when_return | intros _; apply writes_ret].
  - reflexivity.
Qed.

(** The writes of a statement made of register writes and text writes. *)
Ltac writing :=
  repeat
    lazymatch goal with
    | |- writes (bind _ _) _ => apply writes_bind; [| intros ?]
    | |- writes (i915_write _ _) _ => apply writes_i915_write
    | |- writes (sha_write _ _) _ => apply writes_sha_write
    | |- writes (let _ := _ in _) _ => cbv zeta
    end.

Ltac leftovers_are l :=
  match goal with
  | Hl : sha_leftovers _ = l |- _ => rewrite Hl
  end;
  repeat
    match goal with
    | |- writes (if ?c then _ else _) _ =>
        let v := eval compute in c in change c with v; cbv iota
    end.

(** With no byte left over, and with one, the driver writes BSTATUS and M0
    as specified. *)
Lemma writes_sha_tail_0 rep_ctl b0 b1 st :
  sha_leftovers st = 0 -> is_byte b0 -> is_byte b1 ->
  writes (sha_tail (H := H) rep_ctl b0 b1 st) (spec_tail rep_ctl [] b0 b1).
Proof.
  intros Hl H0 H1. unfold sha_tail. leftovers_are 0.
  rewrite splice_0 by assumption.
  eapply writes_eq; [writing | reflexivity].
Qed.

Lemma writes_sha_tail_1 rep_ctl b0 b1 st l0 :
  sha_leftovers st = 1 -> sha_text st = leftover_word [l0] ->
  is_byte l0 -> is_byte b0 -> is_byte b1 ->
  writes (sha_tail (H := H) rep_ctl b0 b1 st) (spec_tail rep_ctl [l0] b0 b1).
Proof.
  intros Hl Ht Hl0 H0 H1. unfold sha_tail. leftovers_are 1.
  rewrite Ht. change (leftover_word [l0]) with (be_word [l0; 0; 0; 0]).
  cbv zeta. rewrite splice_1 by assumption.
  eapply writes_eq; [writing | reflexivity].
Qed.

(** With two bytes left over, and with three, BSTATUS is or-ed onto the top
    of the word, where the leftover bytes are. *)
Lemma writes_sha_tail_2 rep_ctl b0 b1 st :
  sha_leftovers st = 2 ->
  writes (sha_tail (H := H) rep_ctl b0 b1 st)
    [ (HDCP_REP_CTL, Z.lor rep_ctl HDCP_SHA1_TEXT_32);
      (HDCP_SHA_TEXT,
       u32 (Z.lor (sha_text st) (Z.lor (Z.shiftl b0 24) (Z.shiftl b1 16))));
      (HDCP_REP_CTL, Z.lor rep_ctl HDCP_SHA1_TEXT_0);
      (HDCP_SHA_TEXT, 0);
      (HDCP_SHA_TEXT, 0) ].
Proof.
  intros Hl. unfold sha_tail. leftovers_are 2.
  eapply writes_eq; [writing | reflexivity].
Qed.

Lemma writes_sha_tail_3 rep_ctl b0 b1 st :
  sha_leftovers st = 3 ->
  writes (sha_tail (H := H) rep_ctl b0 b1 st)
    [ (HDCP_REP_CTL, Z.lor rep_ctl HDCP_SHA1_TEXT_32);
      (HDCP_SHA_TEXT, u32 (Z.lor (sha_text st) (Z.shiftl b0 24)));
      (HDCP_REP_CTL, Z.lor rep_ctl HDCP_SHA1_TEXT_8);
      (HDCP_SHA_TEXT, b1);
      (HDCP_REP_CTL, Z.lor rep_ctl HDCP_SHA1_TEXT_0);
      (HDCP_SHA_TEXT, 0);
      (HDCP_REP_CTL, Z.lor rep_ctl HDCP_SHA1_TEXT_24);
      (HDCP_SHA_TEXT, 0) ].
Proof.
  intros Hl. unfold sha_tail. leftovers_are 3.
  eapply writes_eq; [writing | reflexivity].
Qed.

(** The zero fill writes a zero word for every word that is missing up to
    byte 60 of the block. *)
Lemma writes_sha_fill_loop fuel : forall idx,
  0 <= idx <= 2 ^ 31 - 65 ->
  idx mod 4 = 0 ->
  60 - idx mod 64 <= 4 * Z.of_nat fuel ->
  writes (sha_fill_loop (H := H) fuel idx)
    (repeat (HDCP_SHA_TEXT, 0) (Z.to_nat ((60 - idx mod 64) / 4))).
Proof.
  induction fuel as [| fuel IH]; intros idx Hi Hm Hf;
    cbn [sha_fill_loop];
    rewrite Z.rem_mod_nonneg by lia;
    assert (Hr : 0 <= idx mod 64 < 64) by (apply Z.mod_pos_bound; lia);
    unfold u64; rewrite (Z.mod_small (idx mod 64)) by lia;
    destruct (Z.ltb_spec (idx mod 64) (64 - 4)) as [Hc | Hc].
  - exfalso. Z.div_mod_to_equations. lia.
  - replace (idx mod 64) with 60 by (Z.div_mod_to_equations; lia).
    apply writes_ret.
  - eapply writes_eq.
    + eapply writes_bind_post; [apply yields_sha_write | apply writes_sha_write |].
      intros idx' ->. rewrite s32_small by lia.
      apply IH; Z.div_mod_to_equations; lia.
    + replace (Z.to_nat ((60 - idx mod 64) / 4))
        with (S (Z.to_nat ((60 - (idx + 4) mod 64) / 4)))
        by (Z.div_mod_to_equations; lia).
      reflexivity.
  - replace (idx mod 64) with 60 by (Z.div_mod_to_equations; lia).
    apply writes_ret.
Qed.

(** After the splice: the text width, the zero fill and the length. *)
Lemma writes_sha_finish rep_ctl n b0 b1 st tail :
  0 <= sha_leftovers st < 4 ->
  0 <= sha_idx st <= 2 ^ 31 - 100 ->
  sha_idx st mod 4 = 0 ->
  writes (sha_tail (H := H) rep_ctl b0 b1 st) tail ->
  writes (sha_finish (H := H) rep_ctl n b0 b1 st)
    (tail ++
     [(HDCP_REP_CTL, Z.lor rep_ctl HDCP_SHA1_TEXT_32)] ++
     repeat (HDCP_SHA_TEXT, 0)
       (Z.to_nat ((60 - (sha_idx st +
                         (if sha_leftovers st =? 3 then 16 else 12)) mod 64) / 4)) ++
     [(HDCP_SHA_TEXT, u32 ((n * 5 + 10) * 8))]).
Proof.
  intros Hl Hi Hm Htail. unfold sha_finish.
  set (idx1 := sha_idx st + (if sha_leftovers st =? 3 then 16 else 12)).
  assert (Hidx : sha_idx st <= idx1 <= sha_idx st + 16 /\ idx1 mod 4 = 0).
  { subst idx1. destruct (sha_leftovers st =? 3);
      (split; [lia | Z.div_mod_to_equations; lia]). }
  destruct Hidx as [Hidx Hmod].
  eapply writes_eq.
  - eapply writes_bind_post; [apply yields_sha_tail; lia | exact Htail |].
    intros idx E. cbv beta in E. fold idx1 in E. subst idx.
    apply writes_bind; [apply writes_i915_write | intros _].
    apply writes_bind.
    { apply writes_sha_fill_loop; try assumption; try lia.
      assert (0 <= idx1 mod 64 < 64) by (apply Z.mod_pos_bound; lia).
      Z.div_mod_to_equations. lia. }
    intros _.
    apply writes_bind; [apply writes_call_write_sha_text | intros r].
    apply writes_when_return.
  - rewrite app_nil_r. reflexivity.
Qed.

(** The locals of the framer, KSV by KSV. *)
Lemma framed_init ksv_fifo :
  framed ksv_fifo 0 {| sha_idx := 0; sha_text := 0; sha_leftovers := 0 |}.
Proof. repeat split. Qed.

Ltac step_case l e l' b :=
  change (u32 (4 - l)) with e; change (u32 (5 - e)) with l';
  change (4 >? l') with b; cbv iota.

Lemma yields_sha_ksv_step_framed rep_ctl ksv_fifo i st :
  0 <= i <= 254 ->
  framed ksv_fifo i st ->
  yields (sha_ksv_step (H := H) rep_ctl ksv_fifo i st) (framed ksv_fifo (i + 1)).
Proof.
  intros Hi (Hl & Hx & Ht).
  assert (Hc : (5 * i) mod 4 = 0 \/ (5 * i) mod 4 = 1 \/
               (5 * i) mod 4 = 2 \/ (5 * i) mod 4 = 3)
    by (Z.div_mod_to_equations; lia).
  unfold sha_ksv_step, DRM_HDCP_KSV_LEN. rewrite Hl, Hx.
  rewrite (s32_small (4 * (5 * i / 4) + 4)) by (Z.div_mod_to_equations; lia).
  rewrite (s32_small (4 * (5 * i / 4) + 4 + 4)) by (Z.div_mod_to_equations; lia).
  apply yields_bind_any; [apply yields_call, yields_write_sha_text | intros r].
  apply yields_bind_any; [apply yields_when, yields_return | intros _].
  apply yields_bind_any; [apply yields_when, yields_i915_write | intros _].
  destruct Hc as [Hc | [Hc | [Hc | Hc]]]; rewrite Hc.
  - step_case 0 4 1 true. apply yields_ret. unfold framed.
    cbn [sha_leftovers sha_idx sha_text].
    assert (E1 : (5 * (i + 1)) mod 4 = 1) by (Z.div_mod_to_equations; lia).
    assert (E2 : 4 * (5 * (i + 1) / 4) = i * 5 + 4) by (Z.div_mod_to_equations; lia).
    rewrite E1, E2. repeat split;
      [Z.div_mod_to_equations; lia | apply or_ksv_bytes_1].
  - step_case 1 3 2 true. apply yields_ret. unfold framed.
    cbn [sha_leftovers sha_idx sha_text].
    assert (E1 : (5 * (i + 1)) mod 4 = 2) by (Z.div_mod_to_equations; lia).
    assert (E2 : 4 * (5 * (i + 1) / 4) = i * 5 + 3) by (Z.div_mod_to_equations; lia).
    rewrite E1, E2. repeat split;
      [Z.div_mod_to_equations; lia | apply or_ksv_bytes_2].
  - step_case 2 2 3 true. apply yields_ret. unfold framed.
    cbn [sha_leftovers sha_idx sha_text].
    assert (E1 : (5 * (i + 1)) mod 4 = 3) by (Z.div_mod_to_equations; lia).
    assert (E2 : 4 * (5 * (i + 1) / 4) = i * 5 + 2) by (Z.div_mod_to_equations; lia).
    rewrite E1, E2. repeat split;
      [Z.div_mod_to_equations; lia | apply or_ksv_bytes_3].
  - step_case 3 1 4 false.
    apply yields_bind_any; [apply yields_call, yields_write_sha_text | intros r'].
    apply yields_bind_any; [apply yields_when, yields_return | intros _].
    apply yields_ret. unfold framed.
    cbn [sha_leftovers sha_idx sha_text].
    assert (E1 : (5 * (i + 1)) mod 4 = 0) by (Z.div_mod_to_equations; lia).
    rewrite E1. repeat split.
    Z.div_mod_to_equations. lia.
Qed.

Lemma yields_sha_ksv_loop_framed n : forall rep_ctl ksv_fifo i st,
  0 <= i -> i + Z.of_nat n <= 255 ->
  framed ksv_fifo i st ->
  yields (sha_ksv_loop (H := H) n rep_ctl ksv_fifo i st)
         (framed ksv_fifo (i + Z.of_nat n)).
Proof.
  induction n as [| n IH]; intros rep_ctl ksv_fifo i st Hi Hn Hf;
    cbn [sha_ksv_loop].
  - apply yields_ret. change (Z.of_nat 0) with 0. rewrite Z.add_0_r. exact Hf.
  - eapply yields_bind; [apply yields_sha_ksv_step_framed; [lia | exact Hf] |].
    intros st1 H1.
    eapply yields_weaken; [apply IH; [lia | lia | exact H1] |].
    cbv beta. intros st2 H2.
    replace (i + Z.of_nat (S n)) with (i + 1 + Z.of_nat n) by lia. exact H2.
Qed.

(** The tail for every input.  After [n] KSVs whose count leaves no byte
    over or one, a run of the framer's tail that comes to its end has made
    exactly the writes of the specification.  When two bytes are left over,
    or three, and the BSTATUS bytes that are spliced are not zero, it has
    not.  The lemma holds for every count and every BSTATUS; in a run of
    Part 2 the count is the one that the first byte of BSTATUS reports. *)
Lemma sha_finish_splice rep_ctl n ksv_fifo b0 b1 (s s1 s2 : state H) st :
  1 <= n <= 255 ->
  length ksv_fifo = Z.to_nat (5 * n) ->
  Forall is_byte ksv_fifo ->
  is_byte b0 -> is_byte b1 ->
  sha_ksv_loop (Z.to_nat n) rep_ctl ksv_fifo 0
    {| sha_idx := 0; sha_text := 0; sha_leftovers := 0 |} s = (Next st, s1) ->
  sha_finish rep_ctl n b0 b1 st s1 = (Next tt, s2) ->
  (n mod 4 = 0 \/ n mod 4 = 1 ->
   reg_writes (trace s2)
   = reg_writes (trace s1) ++ spec_finish rep_ctl n ksv_fifo b0 b1) /\
  (n mod 4 = 2 -> b0 <> 0 \/ b1 <> 0 ->
   reg_writes (trace s2)
   <> reg_writes (trace s1) ++ spec_finish rep_ctl n ksv_fifo b0 b1) /\
  (n mod 4 = 3 -> b0 <> 0 ->
   reg_writes (trace s2)
   <> reg_writes (trace s1) ++ spec_finish rep_ctl n ksv_fifo b0 b1).
Proof.
  intros Hn Hlen Hb H0 H1 Hloop Hfin.
  pose proof (yields_sha_ksv_loop_framed (Z.to_nat n) rep_ctl ksv_fifo 0 _
                ltac:(lia) ltac:(lia) (framed_init ksv_fifo) s) as Hf.
  rewrite Hloop in Hf. cbn [fst] in Hf.
  replace (0 + Z.of_nat (Z.to_nat n)) with n in Hf by lia.
  destruct Hf as (Hl & Hx & Ht).
  assert (Hl4 : 0 <= sha_leftovers st < 4)
    by (rewrite Hl; apply Z.mod_pos_bound; lia).
  assert (Hx4 : 0 <= sha_idx st <= 2 ^ 31 - 100 /\ sha_idx st mod 4 = 0)
    by (rewrite Hx; split; Z.div_mod_to_equations; lia).
  destruct Hx4 as [Hxb Hxm].
  pose proof (fun tail Htail =>
                writes_sha_finish rep_ctl n b0 b1 st tail Hl4 Hxb Hxm Htail
                  s1 tt s2 Hfin) as Hw.
  assert (Hspec : forall l,
            (5 * n) mod 4 = l ->
            spec_finish rep_ctl n ksv_fifo b0 b1 =
            let tail := spec_tail rep_ctl
                          (fifo_bytes ksv_fifo (4 * (5 * n / 4)) l) b0 b1 in
            tail ++
            [(HDCP_REP_CTL, Z.lor rep_ctl HDCP_SHA1_TEXT_32)] ++
            repeat (HDCP_SHA_TEXT, 0)
              (Z.to_nat ((60 - (4 * (5 * n / 4 + text_words tail)) mod 64) / 4)) ++
            [(HDCP_SHA_TEXT, (n * 5 + 10) * 8)]).
  { intros l El. unfold spec_finish. cbv zeta.
    rewrite spec_leftover by (try assumption; lia). rewrite El. reflexivity. }
  assert (Hlen32 : u32 ((n * 5 + 10) * 8) = (n * 5 + 10) * 8)
    by (apply u32_small; lia).
  split; [| split].
  - intros Hmod.
    assert (Hc : (5 * n) mod 4 = 0 \/ (5 * n) mod 4 = 1)
      by (Z.div_mod_to_equations; lia).
    destruct Hc as [Hc | Hc]; rewrite Hc in Hl, Ht.
    + rewrite (Hw _ (writes_sha_tail_0 rep_ctl b0 b1 st Hl H0 H1)).
      rewrite (Hspec 0 Hc). cbv zeta.
      change (fifo_bytes ksv_fifo (4 * (5 * n / 4)) 0) with (@nil Z).
      change (text_words (spec_tail rep_ctl [] b0 b1)) with 3.
      rewrite Hl, Hx, Hlen32. change (0 =? 3) with false. cbv iota.
      replace (4 * (5 * n / 4 + 3)) with (4 * (5 * n / 4) + 12) by lia.
      reflexivity.
    + rewrite fifo_bytes_1 in Ht.
      rewrite (Hw _ (writes_sha_tail_1 rep_ctl b0 b1 st _ Hl Ht
                       (byte_at_range _ _) H0 H1)).
      rewrite (Hspec 1 Hc). cbv zeta. rewrite fifo_bytes_1.
      change (text_words (spec_tail rep_ctl [byte_at ksv_fifo (4 * (5 * n / 4) + 0)]
                            b0 b1)) with 3.
      rewrite Hl, Hx, Hlen32. change (1 =? 3) with false. cbv iota.
      replace (4 * (5 * n / 4 + 3)) with (4 * (5 * n / 4) + 12) by lia.
      reflexivity.
  - intros Hmod Hnz E.
    assert (Hc : (5 * n) mod 4 = 2) by (Z.div_mod_to_equations; lia).
    rewrite Hc in Hl, Ht.
    rewrite (Hw _ (writes_sha_tail_2 rep_ctl b0 b1 st Hl)) in E.
    apply app_inv_head in E. rewrite (Hspec 2 Hc) in E. cbv zeta in E.
    rewrite fifo_bytes_2 in E, Ht.
    apply (f_equal (fun l => snd (nth 1 l (HDCP_SHA_TEXT, 0)))) in E.
    cbn [spec_tail app nth snd] in E.
    rewrite Ht in E.
    change (leftover_word [byte_at ksv_fifo (4 * (5 * n / 4) + 0);
                           byte_at ksv_fifo (4 * (5 * n / 4) + 1)])
      with (be_word [byte_at ksv_fifo (4 * (5 * n / 4) + 0);
                     byte_at ksv_fifo (4 * (5 * n / 4) + 1); 0; 0]) in E.
    destruct (splice_2 (byte_at ksv_fifo (4 * (5 * n / 4) + 0))
                (byte_at ksv_fifo (4 * (5 * n / 4) + 1)) b0 b1
                (byte_at_range _ _) (byte_at_range _ _) H0 H1) as [Ea Eb].
    rewrite E, Eb in Ea. unfold be_word, is_byte in *. cbn [fold_left] in Ea. lia.
  - intros Hmod Hnz E.
    assert (Hc : (5 * n) mod 4 = 3) by (Z.div_mod_to_equations; lia).
    rewrite Hc in Hl, Ht.
    rewrite (Hw _ (writes_sha_tail_3 rep_ctl b0 b1 st Hl)) in E.
    apply app_inv_head in E. rewrite (Hspec 3 Hc) in E. cbv zeta in E.
    rewrite fifo_bytes_3 in E, Ht.
    apply (f_equal (fun l => snd (nth 1 l (HDCP_SHA_TEXT, 0)))) in E.
    cbn [spec_tail app nth snd] in E.
    rewrite Ht in E.
    change (leftover_word [byte_at ksv_fifo (4 * (5 * n / 4) + 0);
                           byte_at ksv_fifo (4 * (5 * n / 4) + 1);
                           byte_at ksv_fifo (4 * (5 * n / 4) + 2)])
      with (be_word [byte_at ksv_fifo (4 * (5 * n / 4) + 0);
                     byte_at ksv_fifo (4 * (5 * n / 4) + 1);
                     byte_at ksv_fifo (4 * (5 * n / 4) + 2); 0]) in E.
    destruct (splice_3 (byte_at ksv_fifo (4 * (5 * n / 4) + 0))
                (byte_at ksv_fifo (4 * (5 * n / 4) + 1))
                (byte_at ksv_fifo (4 * (5 * n / 4) + 2)) b0
                (byte_at_range _ _) (byte_at_range _ _) (byte_at_range _ _) H0)
      as [Ea Eb].
    rewrite E, Eb in Ea. lia.
Qed.

End Splice.

Section FramerRuns.

#[local] Existing Instance Bench.regs.
#[local] Existing Instance Bench.drm.
#[local] Existing Instance Bench.plat.

(** A run of C10's theorem: two KSVs leave two bytes over, and Part 2 on a
    repeater with two devices completes without the report. *)
Lemma sha_leftovers_invariant_witness :
  (0 <= 2 < 4 /\ 2 = Z.of_nat 2 mod 4) /\
  logged invalid_leftovers_msg
         (trace (snd (intel_hdcp_auth_downstream BenchSha.repeater2_start))) = false.
Proof.
  split.
  - refine (proj1 (proj2 (sha_leftovers_invariant (plat := Bench.plat)))
              2%nat BenchSha.rep_ctl BenchSha.ksv_fifo BenchSha.s0
              (snd (sha_ksv_loop 2 BenchSha.rep_ctl BenchSha.ksv_fifo 0
                      BenchSha.init BenchSha.s0))
              {| sha_idx := 8; sha_text := 2578055168; sha_leftovers := 2 |} _).
    vm_compute. reflexivity.
  - refine (proj2 (proj2 (sha_leftovers_invariant (plat := Bench.plat)))
              BenchSha.repeater2_start _).
    reflexivity.
Defined.

(** C1, the code at failing inputs.  A repeater reports [n] devices at depth
    2, so that BSTATUS is [n] 02, and Part 2 runs to its end and returns 0.
    Its register writes are the five parts of V', the text width, one text
    word for every four bytes of the KSVs, the tail, and the request to
    complete the hash.  With one, four and five devices (one byte, no byte
    and one byte left over) the tail is as specified.  With two devices the
    bytes 99 AA are left over: the specified text word is 99AA0202, the
    driver writes 9BAA0000, BSTATUS or-ed onto the leftover bytes; with six
    devices the words are 99AA0602 and 9FAA0000.  With three devices the
    bytes 3B 4B 5B are left over: the specified word is 3B4B5B03, the driver
    writes 3B4B5B00; with seven devices, BSTATUS 07 02, the bytes 3D 4D 5D
    are left over and the words are 3D4D5D07 and 3F4D5D00.  In these four
    runs the specified word is not among the writes at all. *)
Theorem sha_tail_overlaps_bstatus :
  Forall
    (fun n =>
       fst (intel_hdcp_auth_downstream (BenchSha.repeater_start n)) = Return 0 /\
       BenchSha.code_writes n
       = firstn (Z.to_nat (5 + 1 + (5 * n) / 4)) (BenchSha.code_writes n) ++
         BenchSha.code_tail n ++
         [(HDCP_REP_CTL, Z.lor BenchSha.rep_ctl HDCP_SHA1_COMPLETE_HASH)] /\
       map fst (firstn (Z.to_nat (5 + 1 + (5 * n) / 4)) (BenchSha.code_writes n))
       = map HDCP_SHA_V_PRIME [0; 1; 2; 3; 4] ++
         HDCP_REP_CTL :: repeat HDCP_SHA_TEXT (Z.to_nat ((5 * n) / 4)))
    [1; 2; 3; 4; 5; 6; 7] /\
  Forall (fun n => BenchSha.code_tail n = BenchSha.spec_tail_of n) [1; 4; 5] /\
  Forall
    (fun '(n, written, specified) =>
       nth 1 (BenchSha.code_tail n) (HDCP_SHA_TEXT, 0) = (HDCP_SHA_TEXT, written) /\
       nth 1 (BenchSha.spec_tail_of n) (HDCP_SHA_TEXT, 0)
       = (HDCP_SHA_TEXT, specified) /\
       BenchSha.code_tail n <> BenchSha.spec_tail_of n /\
       ~ In (HDCP_SHA_TEXT, specified) (BenchSha.code_writes n))
    [(2, 0x9BAA0000, 0x99AA0202); (6, 0x9FAA0000, 0x99AA0602);
     (3, 0x3B4B5B00, 0x3B4B5B03); (7, 0x3F4D5D00, 0x3D4D5D07)].
Proof.
  split; [| split].
  - repeat constructor; vm_compute; reflexivity.
  - repeat constructor; vm_compute; reflexivity.
  - repeat (apply Forall_cons; [| try apply Forall_nil]);
      (split; [vm_compute; reflexivity |]);
      (split; [vm_compute; reflexivity |]);
      (split; [vm_compute; intros E; discriminate E |]);
      vm_compute; intros E;
      repeat (destruct E as [E | E]; [discriminate E |]); exact E.
Qed.

(** A run of the splice lemma: the KSV loop and the tail of that repeater
    with two devices, BSTATUS 02 02. *)
Lemma sha_finish_splice_run :
  exists st s1 s2,
    sha_ksv_loop 2 BenchSha.rep_ctl (BenchSha.fifo 2) 0
      BenchSha.init (BenchSha.repeater_start 2) = (Next st, s1) /\
    sha_finish BenchSha.rep_ctl 2 2 2 st s1 = (Next tt, s2) /\
    reg_writes (trace s2)
    <> reg_writes (trace s1) ++
       spec_finish BenchSha.rep_ctl 2 (BenchSha.fifo 2) 2 2.
Proof.
  eexists. eexists. eexists.
  split; [vm_compute; reflexivity |].
  split; [vm_compute; reflexivity |].
  refine (proj1 (proj2 (sha_finish_splice (plat := Bench.plat)
                          BenchSha.rep_ctl 2 (BenchSha.fifo 2)
                          2 2 (BenchSha.repeater_start 2) _ _ _
                          _ _ _ _ _ _ _)) _ _).
  - lia.
  - reflexivity.
  - repeat constructor; unfold is_byte; cbn; lia.
  - unfold is_byte. lia.
  - unfold is_byte. lia.
  - vm_compute. reflexivity.
  - vm_compute. reflexivity.
  - reflexivity.
  - left. discriminate.
Qed.

End FramerRuns.

Section SessionRuns.

#[local] Existing Instance Bench.regs.
#[local] Existing Instance Bench.drm.
#[local] Existing Instance Bench.plat.

(** A run of C6's theorem: the receiver answers each read of Bksv with the
    all-zero KSV. *)
Lemma auth_bksv_exhausted_witness :
  intel_hdcp_auth BenchAuth.zero_bksv_start =
    (Return (- ENODEV),
     {| hw := Bench.quiet;
        conn := conn (snd (auth_send_an BenchAuth.zero_bksv_shim PORT_B
                             BenchAuth.zero_bksv_start));
        trace := trace (snd (auth_send_an BenchAuth.zero_bksv_shim PORT_B
                               BenchAuth.zero_bksv_start))
                 ++ [EvShim SHIM_read_bksv; EvShim SHIM_read_bksv;
                     EvLog "HDCP failed, Bksv is invalid"] |}).
Proof.
  refine (auth_bksv_exhausted (plat := Bench.plat) BenchAuth.zero_bksv_start
            (snd (auth_send_an BenchAuth.zero_bksv_shim PORT_B
                    BenchAuth.zero_bksv_start))
            PORT_B BenchAuth.zero_bksv_shim 0
            [0; 0; 0; 0; 0] [0; 0; 0; 0; 0] Bench.quiet Bench.quiet
            eq_refl eq_refl _ eq_refl eq_refl eq_refl eq_refl eq_refl eq_refl).
  vm_compute. reflexivity.
Defined.

(** A run of C7's theorem: BSTATUS is 00 00. *)
Lemma auth_downstream_zero_devices_witness :
  intel_hdcp_auth_downstream BenchAuth.no_device_start =
    (Return (- EINVAL),
     {| hw := Bench.quiet; conn := conn BenchAuth.no_device_start;
        trace := [EvShim SHIM_read_ksv_ready; EvShim SHIM_read_bstatus] |}).
Proof.
  exact (auth_downstream_zero_devices (plat := Bench.plat)
           BenchAuth.no_device_start PORT_B Bench.shim [0; 0] Bench.quiet
           Bench.quiet eq_refl eq_refl eq_refl eq_refl eq_refl eq_refl eq_refl).
Defined.

(** A run of C9's theorem: an enabled session is disabled twice. *)
Lemma intel_hdcp_disable_twice_witness :
  hdcp_value (conn (snd (intel_hdcp_disable BenchAuth.enabled_start))) = UNDESIRED /\
  fst (intel_hdcp_disable (snd (intel_hdcp_disable BenchAuth.enabled_start)))
    = Return 0.
Proof.
  destruct (intel_hdcp_disable_twice (plat := Bench.plat) BenchAuth.enabled_start
              (snd (intel_hdcp_disable BenchAuth.enabled_start)) 0 eq_refl)
    as [Hv Hrun].
  - vm_compute. reflexivity.
  - split; [exact Hv |]. rewrite Hrun. reflexivity.
Defined.

End SessionRuns.

(** * Properties of the rest of the driver *)

(** Steps of a run whose conditions are known. *)
Ltac mgo :=
  repeat first [ mstep
               | progress (cbn [negb andb orb fst snd content_protection_eqb];
                           cbv iota) ].

(** A run that stops at the pair a callee has returned goes on with its two
    components. *)
Ltac msplit_in H :=
  match type of H with
  | context [let '(_, _) := ?x in _] => destruct x as [? ?] eqn:?
  end; cbv beta iota in H; cbn [fst snd] in H.

Ltac mgo_in H := repeat first [ mstep_in H | msplit_in H ].

(** ** The periodic link check *)

Section LinkCheck.

Context {regs : i915_reg_h} {drm : drm_hdcp_h} {H : Type} {plat : platform H}
        {core : drm_core H}.


Lemma has_shim_some (c : intel_connector H) shim :
  hdcp_shim c = Some shim -> has_shim c = true.
Proof. intros E. unfold has_shim. rewrite E. reflexivity. Qed.

Lemma not_undesired v :
  v <> UNDESIRED -> content_protection_eqb v UNDESIRED = false.
Proof. destruct v; intros Hv; [contradiction Hv |..]; reflexivity. Qed.

(** The link check of a session that is Undesired. *)
Lemma check_link_undesired (s : state H) p shim :
  dig_port (conn s) = Some p ->
  hdcp_shim (conn s) = Some shim ->
  hdcp_value (conn s) = UNDESIRED ->
  intel_hdcp_check_link s =
    (Return 0,
     {| hw := hw s; conn := conn s;
        trace := trace s ++ [EvMutexLock hdcp_mutex; EvMutexUnlock hdcp_mutex] |}).
Proof.
  intros Hp Hshim Hv. unfold intel_hdcp_check_link.
  mstep. rewrite Hp. mstep. rewrite (has_shim_some _ _ Hshim), Hv.
  unfold out. mgo.
  unfold emit. cbn [hw conn trace]. rewrite <- app_assoc. reflexivity.
Qed.


(** The link check of a session whose link the receiver confirms. *)
Lemma check_link_confirmed (s : state H) p shim v h1 h2 :
  dig_port (conn s) = Some p ->
  hdcp_shim (conn s) = Some shim ->
  hdcp_value (conn s) <> UNDESIRED ->
  I915_READ (PORT_HDCP_STATUS p) (hw s) = (v, h1) ->
  Z.land v HDCP_STATUS_ENC <> 0 ->
  check_link shim h1 = (true, h2) ->
  intel_hdcp_check_link s =
    (Return 0,
     {| hw := h2; conn := with_hdcp_value ENABLED (conn s);
        trace := trace s ++
                 [EvMutexLock hdcp_mutex; EvShim SHIM_check_link;
                  EvScheduleWork hdcp_prop_work;
                  EvMutexUnlock hdcp_mutex] |}).
Proof.
  intros Hp Hshim Hv Hr1 Henc Hlink. unfold intel_hdcp_check_link.
  mstep. rewrite Hp. mstep.
  rewrite (has_shim_some _ _ Hshim), (not_undesired _ Hv). unfold out. mgo.
  rewrite Hr1. mgo. rewrite (truthy_nonzero _ Henc). mgo.
  rewrite Hshim. mgo. rewrite Hlink. mgo.
  rewrite (not_undesired _ Hv). mgo.
  unfold emit, set_hw, set_conn. cbn [hw conn trace].
  rewrite <- !app_assoc. reflexivity.
Qed.

(** X1.  The periodic check of a session that has been set Undesired takes
    and releases the mutex, reads no register, does not call the shim and
    leaves the connector as it is; as the link check returns 0 then, the
    work item arms itself again. *)
Theorem check_work_undesired_rearms (s : state H) p shim :
  dig_port (conn s) = Some p ->
  hdcp_shim (conn s) = Some shim ->
  hdcp_value (conn s) = UNDESIRED ->
  intel_hdcp_check_work s =
    (Next tt,
     {| hw := hw s; conn := conn s;
        trace := trace s ++
                 [EvMutexLock hdcp_mutex; EvMutexUnlock hdcp_mutex;
                  EvScheduleDelayedWork hdcp_check_work
                    DRM_HDCP_CHECK_PERIOD_MS] |}).
Proof.
  intros Hp Hshim Hv. unfold intel_hdcp_check_work.
  rewrite bind_call, (check_link_undesired s p shim Hp Hshim Hv).
  change (negb (truthy 0)) with true. rewrite when_run. cbv iota.
  rewrite ev_run. unfold emit. cbn [hw conn trace].
  rewrite <- app_assoc. reflexivity.
Qed.


(** X3.  When the link is encrypting and the receiver confirms it, the
    periodic check sets the session Enabled, schedules the property work and
    arms itself again after DRM_HDCP_CHECK_PERIOD_MS; no register is
    written. *)
Theorem check_work_confirmed_rearms (s : state H) p shim v h1 h2 :
  dig_port (conn s) = Some p ->
  hdcp_shim (conn s) = Some shim ->
  hdcp_value (conn s) <> UNDESIRED ->
  I915_READ (PORT_HDCP_STATUS p) (hw s) = (v, h1) ->
  Z.land v HDCP_STATUS_ENC <> 0 ->
  check_link shim h1 = (true, h2) ->
  intel_hdcp_check_work s =
    (Next tt,
     {| hw := h2; conn := with_hdcp_value ENABLED (conn s);
        trace := trace s ++
                 [EvMutexLock hdcp_mutex; EvShim SHIM_check_link;
                  EvScheduleWork hdcp_prop_work;
                  EvMutexUnlock hdcp_mutex;
                  EvScheduleDelayedWork hdcp_check_work
                    DRM_HDCP_CHECK_PERIOD_MS] |}).
Proof.
  intros Hp Hshim Hv Hr1 Henc Hlink. unfold intel_hdcp_check_work.
  rewrite bind_call,
    (check_link_confirmed s p shim v h1 h2 Hp Hshim Hv Hr1 Henc Hlink).
  change (negb (truthy 0)) with true. rewrite when_run. cbv iota.
  rewrite ev_run. unfold emit. cbn [hw conn trace].
  rewrite <- app_assoc. reflexivity.
Qed.

End LinkCheck.

Section LinkCheckRuns.

#[local] Existing Instance Bench.regs.
#[local] Existing Instance Bench.drm.
#[local] Existing Instance Bench.plat.
#[local] Existing Instance BenchHooks.core.

(** A run of X1: the periodic check of a session set Undesired. *)
Lemma check_work_undesired_rearms_witness :
  intel_hdcp_check_work (BenchHooks.ready_start UNDESIRED) =
    (Next tt,
     {| hw := BenchHooks.ready; conn := Bench.connector UNDESIRED Null 0;
        trace := [EvMutexLock hdcp_mutex; EvMutexUnlock hdcp_mutex;
                  EvScheduleDelayedWork hdcp_check_work 2048] |}).
Proof.
  exact (check_work_undesired_rearms (plat := Bench.plat)
           (BenchHooks.ready_start UNDESIRED) PORT_B Bench.shim
           eq_refl eq_refl eq_refl).
Defined.


(** A run of X3: the link encrypts and the receiver confirms it. *)
Lemma check_work_confirmed_rearms_witness :
  intel_hdcp_check_work (BenchHooks.ready_start DESIRED) =
    (Next tt,
     {| hw := BenchHooks.ready; conn := Bench.connector ENABLED Null 0;
        trace := [EvMutexLock hdcp_mutex; EvShim SHIM_check_link;
                  EvScheduleWork hdcp_prop_work;
                  EvMutexUnlock hdcp_mutex;
                  EvScheduleDelayedWork hdcp_check_work 2048] |}).
Proof.
  refine (check_work_confirmed_rearms (plat := Bench.plat)
            (BenchHooks.ready_start DESIRED) PORT_B Bench.shim
            (Z.lor (Bench.BIT 20) 3) BenchHooks.ready BenchHooks.ready
            eq_refl eq_refl _ eq_refl _ eq_refl).
  - discriminate.
  - vm_compute. discriminate.
Defined.

End LinkCheckRuns.

(** ** What the session operations leave alone *)

Section FrameLogic.

Context {regs : i915_reg_h} {drm : drm_hdcp_h} {H : Type} {plat : platform H}
        {core : drm_core H}.

Variable R : state H -> state H -> Prop.
Hypothesis Rrefl : forall s, R s s.
Hypothesis Rtrans : forall s1 s2 s3, R s1 s2 -> R s2 s3 -> R s1 s3.

(** What the hardware and the rest of the kernel do is kept, and so is an
    event that is not about a lock, and a lock taken and released around a
    call. *)
Hypothesis Rhw : forall h s, R s (set_hw h s).
Hypothesis Revent : forall e s, unlocked e = true -> R s (emit e s).
Hypothesis Rpair :
  forall l h s,
    R s (emit (EvMutexUnlock l) (set_hw h (emit (EvMutexLock l) s))).

Local Abbreviation M := (@M H).

Lemma keeps_ret {A} (a : A) : keeps R (@ret H A a).
Proof. intros s. apply Rrefl. Qed.

Lemma keeps_return {A} r : keeps R (@return_ H A r).
Proof. intros s. apply Rrefl. Qed.

Lemma keeps_abort {A} : keeps R (@abort H A).
Proof. intros s. apply Rrefl. Qed.

Lemma keeps_ev e : unlocked e = true -> keeps R (@ev H e).
Proof. intros He s. apply Revent. exact He. Qed.

Lemma keeps_drm_log msg : keeps R (@drm_log H msg).
Proof. apply keeps_ev. reflexivity. Qed.

Lemma keeps_lift {A} (f : H -> A * H) : keeps R (lift f).
Proof. intros s. unfold lift. destruct (f (hw s)). apply Rhw. Qed.

Lemma keeps_get_conn : keeps R (@get_conn H).
Proof. intros s. apply Rrefl. Qed.

Lemma keeps_deref {A} (o : option A) : keeps R (@deref H A o).
Proof. destruct o; intros s; apply Rrefl. Qed.

Lemma keeps_walked {A} (w : walk A) : keeps R (@walked H A w).
Proof. destruct w; intros s; apply Rrefl. Qed.

Lemma keeps_kfree p : keeps R (@kfree H p).
Proof.
  destruct p; first [apply keeps_abort | apply keeps_ev; reflexivity].
Qed.

Lemma keeps_i915_write r v : keeps R (i915_write r v).
Proof.
  intros s. cbn [i915_write snd].
  apply (Rtrans _ (set_hw (I915_WRITE r v (hw s)) s)); [apply Rhw |].
  apply Revent. reflexivity.
Qed.

Lemma keeps_i915_read r : keeps R (i915_read r).
Proof. apply keeps_lift. Qed.

Lemma keeps_modify_conn g :
  (forall s, R s (set_conn (g (conn s)) s)) -> keeps R (@modify_conn H g).
Proof. intros Hg s. apply Hg. Qed.

Lemma keeps_bind {A B} (m : M A) (k : A -> M B) :
  keeps R m -> (forall a, keeps R (k a)) -> keeps R (bind m k).
Proof.
  intros Hm Hk s. unfold bind. specialize (Hm s).
  destruct (m s) as [[a | r |] s1]; cbn [snd] in *; try exact Hm.
  apply (Rtrans _ _ _ Hm). apply Hk.
Qed.

Lemma keeps_when c (body : M unit) : keeps R body -> keeps R (when c body).
Proof. intros Hb. destruct c; [exact Hb | apply keeps_ret]. Qed.

Lemma keeps_call (f : M Z) : keeps R f -> keeps R (call f).
Proof.
  intros Hf s. unfold call. specialize (Hf s).
  destruct (f s) as [[a | r |] s1]; exact Hf.
Qed.

Lemma keeps_shim_call {A} op (f : H -> A * H) : keeps R (shim_call op f).
Proof.
  unfold shim_call.
  apply keeps_bind; [apply keeps_ev; reflexivity | intros _; apply keeps_lift].
Qed.

(** A lock that is taken around one call of the kernel. *)
Lemma keeps_locked_lift {A B} l (f : H -> A * H) (k : A -> M B) :
  (forall a, keeps R (k a)) ->
  keeps R (bind (ev (EvMutexLock l))
             (fun _ => bind (lift f)
                (fun a => bind (ev (EvMutexUnlock l)) (fun _ => k a)))).
Proof.
  intros Hk s. unfold bind, ev, lift. cbn [hw emit].
  destruct (f (hw s)) as [a h] eqn:E.
  apply (Rtrans _ (emit (EvMutexUnlock l) (set_hw h (emit (EvMutexLock l) s))));
    [apply Rpair | apply Hk].
Qed.

Lemma keeps_locked_ret {A B} l (a : A) (k : A -> M B) :
  (forall a, keeps R (k a)) ->
  keeps R (bind (ev (EvMutexLock l))
             (fun _ => bind (ret a)
                (fun a => bind (ev (EvMutexUnlock l)) (fun _ => k a)))).
Proof.
  intros Hk s. unfold bind, ev, ret.
  apply (Rtrans _ (emit (EvMutexUnlock l)
                     (set_hw (hw s) (emit (EvMutexLock l) s))));
    [apply Rpair | apply Hk].
Qed.

Create HintDb frame.

(** A statement made of the ones above, of changes of the connector that
    are known to be kept and of statements that are known to keep [R]. *)
Ltac keeping :=
  repeat
    lazymatch goal with
    | |- keeps _ (bind (ev (EvMutexLock _)) _) =>
        first [ apply keeps_locked_lift; intros ?
              | apply keeps_locked_ret; intros ?
              | apply keeps_bind; [| intros ?] ]
    | |- keeps _ (bind _ _) => apply keeps_bind; [| intros ?]
    | |- keeps _ (ret _) => apply keeps_ret
    | |- keeps _ (return_ _) => apply keeps_return
    | |- keeps _ abort => apply keeps_abort
    | |- keeps _ (lift _) => apply keeps_lift
    | |- keeps _ get_conn => apply keeps_get_conn
    | |- keeps _ (modify_conn _) =>
        apply keeps_modify_conn; intros ?; cbv beta; solve [auto with frame]
    | |- keeps _ (deref _) => apply keeps_deref
    | |- keeps _ (walked _) => apply keeps_walked
    | |- keeps _ (kfree _) => apply keeps_kfree
    | |- keeps _ (i915_write _ _) => apply keeps_i915_write
    | |- keeps _ (i915_read _) => apply keeps_i915_read
    | |- keeps _ (shim_call _ _) => apply keeps_shim_call
    | |- keeps _ (drm_log _) => apply keeps_drm_log
    | |- keeps _ (ev _) => first [apply keeps_ev; reflexivity | solve [auto with frame]]
    | |- keeps _ (when _ _) => apply keeps_when
    | |- keeps _ (call _) => apply keeps_call
    | |- keeps _ (let _ := _ in _) => cbv zeta
    | |- keeps _ (match ?x with _ => _ end) => destruct x
    | |- keeps _ _ => solve [auto with frame]
    end.

(** *** Statements that change the downstream topology at most *)

Hypothesis Rdown :
  forall d s, R s (set_conn (with_downstream_info d (conn s)) s).
#[local] Hint Resolve Rdown : frame.

Lemma keeps_poll_ksv_fifo shim : keeps R (intel_hdcp_poll_ksv_fifo shim).
Proof. unfold intel_hdcp_poll_ksv_fifo. keeping. Qed.
#[local] Hint Resolve keeps_poll_ksv_fifo : frame.

Lemma keeps_write_sha_text w : keeps R (intel_write_sha_text w).
Proof. unfold intel_write_sha_text. keeping. Qed.
#[local] Hint Resolve keeps_write_sha_text : frame.

Lemma keeps_get_repeater_ctl p : keeps R (intel_hdcp_get_repeater_ctl (H := H) p).
Proof. unfold intel_hdcp_get_repeater_ctl. keeping. Qed.
#[local] Hint Resolve keeps_get_repeater_ctl : frame.

Lemma keeps_sha_write w idx : keeps R (sha_write w idx).
Proof. unfold sha_write. keeping. Qed.
#[local] Hint Resolve keeps_sha_write : frame.

Lemma keeps_sha_ksv_step rep_ctl ksv_fifo i st :
  keeps R (sha_ksv_step rep_ctl ksv_fifo i st).
Proof. unfold sha_ksv_step. keeping. Qed.
#[local] Hint Resolve keeps_sha_ksv_step : frame.

Lemma keeps_sha_ksv_loop n : forall rep_ctl ksv_fifo i st,
  keeps R (sha_ksv_loop n rep_ctl ksv_fifo i st).
Proof. induction n as [| n IH]; intros; cbn [sha_ksv_loop]; keeping. Qed.
#[local] Hint Resolve keeps_sha_ksv_loop : frame.

Lemma keeps_sha_tail rep_ctl b0 b1 st : keeps R (sha_tail rep_ctl b0 b1 st).
Proof. unfold sha_tail. keeping. Qed.
#[local] Hint Resolve keeps_sha_tail : frame.

Lemma keeps_sha_fill_loop fuel : forall idx, keeps R (sha_fill_loop fuel idx).
Proof. induction fuel as [| fuel IH]; intros idx; cbn [sha_fill_loop]; keeping. Qed.
#[local] Hint Resolve keeps_sha_fill_loop : frame.

Lemma keeps_sha_finish rep_ctl n b0 b1 st :
  keeps R (sha_finish rep_ctl n b0 b1 st).
Proof. unfold sha_finish. keeping. Qed.
#[local] Hint Resolve keeps_sha_finish : frame.

Lemma keeps_sha_frame p n ksv_fifo b0 b1 :
  keeps R (sha_frame p n ksv_fifo b0 b1).
Proof. unfold sha_frame. keeping. Qed.
#[local] Hint Resolve keeps_sha_frame : frame.

Lemma keeps_v_prime_loop n : forall shim i, keeps R (v_prime_loop n shim i).
Proof. induction n as [| n IH]; intros; cbn [v_prime_loop]; keeping. Qed.
#[local] Hint Resolve keeps_v_prime_loop : frame.

Lemma keeps_auth_downstream : keeps R intel_hdcp_auth_downstream.
Proof. unfold intel_hdcp_auth_downstream. keeping. Qed.
#[local] Hint Resolve keeps_auth_downstream : frame.

Lemma keeps_bksv_loop n : forall shim i u, keeps R (bksv_loop n shim i u).
Proof. induction n as [| n IH]; intros; cbn [bksv_loop]; keeping. Qed.
#[local] Hint Resolve keeps_bksv_loop : frame.

Lemma keeps_ri_loop n : forall shim p i, keeps R (ri_loop n shim p i).
Proof. induction n as [| n IH]; intros; cbn [ri_loop]; keeping. Qed.
#[local] Hint Resolve keeps_ri_loop : frame.

Lemma keeps_auth_send_an shim p : keeps R (auth_send_an shim p).
Proof. unfold auth_send_an. keeping. Qed.
#[local] Hint Resolve keeps_auth_send_an : frame.

Lemma keeps_auth_from_bksv shim p t : keeps R (auth_from_bksv shim p t).
Proof. unfold auth_from_bksv. keeping. Qed.
#[local] Hint Resolve keeps_auth_from_bksv : frame.

Lemma keeps_auth : keeps R intel_hdcp_auth.
Proof. unfold intel_hdcp_auth. keeping. Qed.
#[local] Hint Resolve keeps_auth : frame.

Lemma keeps__disable : keeps R _intel_hdcp_disable.
Proof. unfold _intel_hdcp_disable. keeping. Qed.
#[local] Hint Resolve keeps__disable : frame.

Lemma keeps_key_loadable : keeps R hdcp_key_loadable.
Proof.
  unfold hdcp_key_loadable. cbv zeta.
  match goal with
  | |- context [find ?f ?l] => destruct (find f l)
  end; cbv beta iota; keeping.
Qed.
#[local] Hint Resolve keeps_key_loadable : frame.

Lemma keeps_clear_keys : keeps R intel_hdcp_clear_keys.
Proof. unfold intel_hdcp_clear_keys. keeping. Qed.
#[local] Hint Resolve keeps_clear_keys : frame.

Lemma keeps_load_keys : keeps R intel_hdcp_load_keys.
Proof. unfold intel_hdcp_load_keys. keeping. Qed.
#[local] Hint Resolve keeps_load_keys : frame.

Lemma keeps_load_keys_loop n : forall r, keeps R (load_keys_loop n r).
Proof. induction n as [| n IH]; intros; cbn [load_keys_loop]; keeping. Qed.
#[local] Hint Resolve keeps_load_keys_loop : frame.

(** *** Statements that change the protection state as well *)

Hypothesis Rvalue :
  forall v s, R s (set_conn (with_hdcp_value v (conn s)) s).
#[local] Hint Resolve Rvalue : frame.

Lemma keeps_auth_loop n : forall r, keeps R (auth_loop n r).
Proof. induction n as [| n IH]; intros; cbn [auth_loop]; keeping. Qed.
#[local] Hint Resolve keeps_auth_loop : frame.

Lemma keeps__enable : keeps R _intel_hdcp_enable.
Proof. unfold _intel_hdcp_enable. keeping. Qed.
#[local] Hint Resolve keeps__enable : frame.

(** *** Statements that hold the mutex over what they do

    A relation that takes no notice of locks is kept by them as well. *)

Hypothesis Rlocks : forall e s, R s (emit e s).

Lemma keeps_ev_lock e : keeps R (@ev H e).
Proof. intros s. apply Rlocks. Qed.
#[local] Hint Resolve keeps_ev_lock : frame.

Lemma keeps_out {A} r : keeps R (@out H A r).
Proof.
  unfold out. apply keeps_bind; [apply keeps_ev_lock | intros _; apply keeps_return].
Qed.
#[local] Hint Resolve keeps_out : frame.

Lemma keeps_enable : keeps R intel_hdcp_enable.
Proof. unfold intel_hdcp_enable. keeping. Qed.
#[local] Hint Resolve keeps_enable : frame.

Lemma keeps_disable : keeps R intel_hdcp_disable.
Proof. unfold intel_hdcp_disable. keeping. Qed.
#[local] Hint Resolve keeps_disable : frame.

Lemma keeps_check_link : keeps R intel_hdcp_check_link.
Proof. unfold intel_hdcp_check_link. keeping. Qed.
#[local] Hint Resolve keeps_check_link : frame.

Lemma keeps_enable_work : keeps R intel_hdcp_enable_work.
Proof. unfold intel_hdcp_enable_work. keeping. Qed.

Lemma keeps_check_work : keeps R intel_hdcp_check_work.
Proof. unfold intel_hdcp_check_work. keeping. Qed.

Lemma keeps_prop_work st : keeps R (intel_hdcp_prop_work st).
Proof. unfold intel_hdcp_prop_work. keeping. Qed.

Lemma keeps_atomic_pre_commit old_state new_state :
  keeps R (intel_hdcp_atomic_pre_commit old_state new_state).
Proof. unfold intel_hdcp_atomic_pre_commit. keeping. Qed.

(** *** Statements that change the revocation store *)

Hypothesis Rlist :
  forall p s, R s (set_conn (with_revocated_ksv_list p (conn s)) s).
Hypothesis Rcnt :
  forall n s, R s (set_conn (with_revocated_ksv_cnt n (conn s)) s).
Hypothesis Rblob :
  forall n s, R s (set_conn (with_srm_blob_id n (conn s)) s).
#[local] Hint Resolve Rlist Rcnt Rblob : frame.

Lemma keeps_parse_srm blob : keeps R (intel_hdcp_parse_srm blob).
Proof. unfold intel_hdcp_parse_srm. keeping. Qed.
#[local] Hint Resolve keeps_parse_srm : frame.

Lemma keeps_update_srm id_ : keeps R (intel_hdcp_update_srm id_).
Proof. unfold intel_hdcp_update_srm. keeping. Qed.
#[local] Hint Resolve keeps_update_srm : frame.

Lemma keeps_atomic_commit new_state :
  keeps R (intel_hdcp_atomic_commit new_state).
Proof. unfold intel_hdcp_atomic_commit. keeping. Qed.

End FrameLogic.

Section Frames.

Context {regs : i915_reg_h} {drm : drm_hdcp_h} {H : Type} {plat : platform H}
        {core : drm_core H}.

Lemma same_store_refl (c : intel_connector H) : same_store c c.
Proof. repeat split. Qed.

Lemma same_store_trans (c1 c2 c3 : intel_connector H) :
  same_store c1 c2 -> same_store c2 c3 -> same_store c1 c3.
Proof.
  intros (A1 & A2 & A3) (B1 & B2 & B3). repeat split; congruence.
Qed.

Lemma same_session_refl (c : intel_connector H) : same_session c c.
Proof. repeat split. Qed.

Lemma same_session_trans (c1 c2 c3 : intel_connector H) :
  same_session c1 c2 -> same_session c2 c3 -> same_session c1 c3.
Proof.
  intros (A1 & A2 & A3 & A4) (B1 & B2 & B3 & B4). repeat split; congruence.
Qed.

Lemma same_but_downstream_refl (c : intel_connector H) : same_but_downstream c c.
Proof. repeat split. Qed.

Lemma same_but_downstream_trans (c1 c2 c3 : intel_connector H) :
  same_but_downstream c1 c2 -> same_but_downstream c2 c3 ->
  same_but_downstream c1 c3.
Proof.
  intros (A1 & A2 & A3 & A4) (B1 & B2 & B3 & B4).
  repeat split; try congruence;
    destruct A4 as (? & ? & ?), B4 as (? & ? & ?); congruence.
Qed.

(** A statement that changes the downstream topology at most keeps
    everything else of the connector. *)
Lemma keeps_but_downstream {A} (m : M A) :
  (forall R : state H -> state H -> Prop,
      (forall s, R s s) ->
      (forall s1 s2 s3, R s1 s2 -> R s2 s3 -> R s1 s3) ->
      (forall h s, R s (set_hw h s)) ->
      (forall e s, unlocked e = true -> R s (emit e s)) ->
      (forall l h s,
          R s (emit (EvMutexUnlock l) (set_hw h (emit (EvMutexLock l) s)))) ->
      (forall d s, R s (set_conn (with_downstream_info d (conn s)) s)) ->
      keeps R m) ->
  keeps (on_conn same_but_downstream) m.
Proof.
  intros Hm. apply Hm; unfold on_conn; intros;
    first [ apply same_but_downstream_refl
          | eapply same_but_downstream_trans; eassumption
          | solve [repeat split] ].
Qed.

Lemma enable_keeps_store :
  keeps (on_conn same_store) (intel_hdcp_enable (H := H)).
Proof.
  apply keeps_enable; unfold on_conn; intros;
    first [ apply same_store_refl
          | eapply same_store_trans; eassumption
          | solve [repeat split] ].
Qed.

Lemma update_srm_keeps_session id_ :
  keeps (on_conn same_session) (intel_hdcp_update_srm (H := H) id_).
Proof.
  apply keeps_update_srm; unfold on_conn; intros;
    first [ apply same_session_refl
          | eapply same_session_trans; eassumption
          | solve [repeat split] ].
Qed.

(** X4.  No operation on the session changes the revocation store: after any
    run of the two authentication parts, of the internal and the public
    enable and disable, of the link check, of the three work items and of
    the pre-commit hook, the revoked list, its count and the recorded SRM
    blob identifier are what they were. *)
Theorem session_operations_keep_store :
  keeps (on_conn same_store) (intel_hdcp_auth (H := H)) /\
  keeps (on_conn same_store) (intel_hdcp_auth_downstream (H := H)) /\
  keeps (on_conn same_store) (_intel_hdcp_enable (H := H)) /\
  keeps (on_conn same_store) (_intel_hdcp_disable (H := H)) /\
  keeps (on_conn same_store) (intel_hdcp_enable (H := H)) /\
  keeps (on_conn same_store) (intel_hdcp_disable (H := H)) /\
  keeps (on_conn same_store) (intel_hdcp_check_link (H := H)) /\
  keeps (on_conn same_store) (intel_hdcp_enable_work (H := H)) /\
  keeps (on_conn same_store) (intel_hdcp_check_work (H := H)) /\
  (forall st, keeps (on_conn same_store) (intel_hdcp_prop_work (H := H) st)) /\
  (forall old_state new_state,
      keeps (on_conn same_store)
        (intel_hdcp_atomic_pre_commit (H := H) old_state new_state)).
Proof.
  repeat match goal with |- _ /\ _ => split end; intros;
    first [ apply keeps_auth | apply keeps_auth_downstream
          | apply keeps__enable | apply keeps__disable
          | apply keeps_enable | apply keeps_disable
          | apply keeps_check_link | apply keeps_enable_work
          | apply keeps_check_work | apply keeps_prop_work
          | apply keeps_atomic_pre_commit ];
    unfold on_conn; intros;
    first [ apply same_store_refl
          | eapply same_store_trans; eassumption
          | solve [repeat split] ].
Qed.

(** X5.  No operation on the revocation store changes the session: after any
    run of the SRM parser, of the SRM update and of the commit hook, the
    port, the shim, the protection state and the downstream topology of the
    connector are what they were.  The commit hook asks for protection by
    scheduling the enable work, not by a change of the state. *)
Theorem store_operations_keep_session :
  (forall blob, keeps (on_conn same_session) (intel_hdcp_parse_srm (H := H) blob)) /\
  (forall id_, keeps (on_conn same_session) (intel_hdcp_update_srm (H := H) id_)) /\
  (forall new_state,
      keeps (on_conn same_session)
        (intel_hdcp_atomic_commit (H := H) new_state)).
Proof.
  repeat match goal with |- _ /\ _ => split end; intros;
    first [ apply keeps_parse_srm | apply keeps_update_srm
          | apply keeps_atomic_commit ];
    unfold on_conn; intros;
    first [ apply same_session_refl
          | eapply same_session_trans; eassumption
          | solve [repeat split] ].
Qed.

End Frames.

(** ** Enabling a session *)

Section Enable.

Context {regs : i915_reg_h} {drm : drm_hdcp_h} {H : Type} {plat : platform H}
        {core : drm_core H}.

Lemma truthy_false_zero r : truthy r = false -> r = 0.
Proof.
  unfold truthy. destruct (Z.eqb_spec r 0); [auto | discriminate].
Qed.

Lemma call_never_returns (f : M Z) (s s' : state H) r :
  call f s <> (Return r, s').
Proof. unfold call. destruct (f s) as [[a | a |] s0]; discriminate. Qed.

Lemma auth_but_downstream :
  keeps (on_conn same_but_downstream) (intel_hdcp_auth (H := H)).
Proof. apply keeps_but_downstream. intros. apply keeps_auth; assumption. Qed.

Lemma _disable_but_downstream :
  keeps (on_conn same_but_downstream) (_intel_hdcp_disable (H := H)).
Proof. apply keeps_but_downstream. intros. apply keeps__disable; assumption. Qed.

Lemma key_loadable_but_downstream :
  keeps (on_conn same_but_downstream) (hdcp_key_loadable (H := H)).
Proof. apply keeps_but_downstream. intros. apply keeps_key_loadable; assumption. Qed.

Lemma load_keys_loop_but_downstream n r :
  keeps (on_conn same_but_downstream) (load_keys_loop (H := H) n r).
Proof.
  apply keeps_but_downstream. intros. apply keeps_load_keys_loop; assumption.
Qed.

Lemma call_value (f : M Z) (s s' : state H) x :
  keeps (on_conn same_but_downstream) f ->
  call f s = (x, s') ->
  hdcp_value (conn s') = hdcp_value (conn s).
Proof.
  intros K E. specialize (K s). unfold call in E.
  destruct (f s) as [[a | a |] s0]; inversion E; subst;
    destruct K as (_ & _ & K & _); exact K.
Qed.

(** The value of a call that authenticates or disables comes with the
    protection state it found. *)
Lemma call_auth_value (s s' : state H) x :
  call intel_hdcp_auth s = (x, s') ->
  hdcp_value (conn s') = hdcp_value (conn s).
Proof. apply call_value, auth_but_downstream. Qed.

Lemma call__disable_value (s s' : state H) x :
  call _intel_hdcp_disable s = (x, s') ->
  hdcp_value (conn s') = hdcp_value (conn s).
Proof. apply call_value, _disable_but_downstream. Qed.

Lemma call__disable_shim (s s' : state H) x :
  call _intel_hdcp_disable s = (x, s') ->
  hdcp_shim (conn s') = hdcp_shim (conn s).
Proof.
  intros E. pose proof (_disable_but_downstream s) as K. unfold call in E.
  destruct (_intel_hdcp_disable s) as [[a | a |] s0]; inversion E; subst;
    destruct K as (_ & K & _); exact K.
Qed.

Lemma load_keys_loop_never_returns n : forall r0 (t t' : state H) x,
  load_keys_loop n r0 t = (Return x, t') -> False.
Proof.
  induction n as [| n IH]; intros r0 t t' x E; cbn [load_keys_loop] in E.
  - discriminate E.
  - unfold bind at 1 in E.
    destruct (call intel_hdcp_load_keys t) as [[a | a |] t1] eqn:Ec;
      try discriminate E.
    + destruct (negb (truthy a)); [discriminate E |].
      unfold intel_hdcp_clear_keys in E. mrun_in E.
      exact (IH _ _ _ _ E).
    + exact (call_never_returns _ _ _ _ Ec).
Qed.

Lemma auth_loop_outcome n : forall r0 (s s' : state H) x,
  auth_loop n r0 s = (x, s') ->
  match x with
  | Return r =>
      r = 0 /\ hdcp_value (conn s') = ENABLED /\
      exists t,
        trace s' = t ++ [EvScheduleWork hdcp_prop_work;
                         EvScheduleDelayedWork hdcp_check_work
                           DRM_HDCP_CHECK_PERIOD_MS]
  | Next r =>
      ((n = 0%nat /\ r = r0) \/ truthy r = true) /\
      hdcp_value (conn s') = hdcp_value (conn s)
  | Abort => True
  end.
Proof.
  induction n as [| n IH]; intros r0 s s' x Hrun; cbn [auth_loop] in Hrun.
  - rewrite ret_run in Hrun. injection Hrun as <- <-. auto.
  - unfold bind at 1 in Hrun.
    destruct (call intel_hdcp_auth s) as [[r | r |] s1] eqn:Ea.
    + pose proof (call_auth_value _ _ _ Ea) as Hv1.
      destruct (truthy r) eqn:Er; cbn [negb] in Hrun.
      * mstep_in Hrun.
        unfold bind at 1 in Hrun.
        destruct (call _intel_hdcp_disable (emit (EvLog "HDCP Auth failure (%d)") s1))
          as [[r2 | r2 |] s2] eqn:Ed.
        -- pose proof (call__disable_value _ _ _ Ed) as Hv2.
           cbn [conn emit] in Hv2.
           specialize (IH r s2 s' x Hrun).
           destruct x as [r' | r' |]; [| exact IH | exact I].
           destruct IH as [[[_ ->] | Ht] Hv3];
             (split; [right; assumption | congruence]).
        -- exfalso. exact (call_never_returns _ _ _ _ Ed).
        -- injection Hrun as <- <-. exact I.
      * mrun_in Hrun. injection Hrun as <- <-.
        split; [reflexivity |]. split; [reflexivity |].
        cbn [trace emit set_conn].
        exists (trace s1). rewrite <- app_assoc. reflexivity.
    + exfalso. exact (call_never_returns _ _ _ _ Ea).
    + injection Hrun as <- <-. exact I.
Qed.

(** X6.  The internal enable promotes the session exactly when it returns 0:
    a run that returns 0 has set the protection state Enabled and has, as
    its last two actions, scheduled the property work and the periodic
    check; a run that returns an error has left the protection state as it
    found it. *)
Theorem _intel_hdcp_enable_promotes_on_success (s s' : state H) r :
  _intel_hdcp_enable s = (Return r, s') ->
  (r = 0 ->
   hdcp_value (conn s') = ENABLED /\
   exists t,
     trace s' = t ++ [EvScheduleWork hdcp_prop_work;
                      EvScheduleDelayedWork hdcp_check_work
                        DRM_HDCP_CHECK_PERIOD_MS]) /\
  (r <> 0 -> hdcp_value (conn s') = hdcp_value (conn s)).
Proof.
  intros Hrun. unfold _intel_hdcp_enable in Hrun.
  mstep_in Hrun. unfold bind at 1 in Hrun.
  destruct (hdcp_key_loadable (emit (EvLog enabling_msg) s))
    as [[loadable | r1 |] s1] eqn:Ek; try discriminate Hrun.
  2:{ exfalso. unfold hdcp_key_loadable in Ek. mstep_in Ek.
      match type of Ek with
      | context [find ?f ?l] => destruct (find f l)
      end; mrun_in Ek; discriminate Ek. }
  pose proof (key_loadable_but_downstream (emit (EvLog enabling_msg) s)) as K1.
  rewrite Ek in K1. unfold on_conn in K1. cbn [snd conn emit] in K1.
  destruct K1 as (_ & _ & K1 & _).
  destruct loadable; cbn [negb] in Hrun.
  2:{ mrun_in Hrun. injection Hrun as <- <-. cbn [conn emit].
      split; [intros E; discriminate E | intros _; exact K1]. }
  mstep_in Hrun. unfold bind at 1 in Hrun.
  destruct (load_keys_loop (Z.to_nat KEY_LOAD_TRIES) 0 s1)
    as [[r2 | r2 |] s2] eqn:El; try discriminate Hrun.
  2:{ exfalso. exact (load_keys_loop_never_returns _ _ _ _ _ El). }
  pose proof (load_keys_loop_but_downstream (Z.to_nat KEY_LOAD_TRIES) 0 s1) as K2.
  rewrite El in K2. unfold on_conn in K2. cbn [snd] in K2.
  destruct K2 as (_ & _ & K2 & _).
  destruct (truthy r2) eqn:Er2.
  { mrun_in Hrun. injection Hrun as <- <-. cbn [conn emit].
    split; [intros E; subst r2; discriminate Er2 | intros _; congruence]. }
  mstep_in Hrun. unfold bind at 1 in Hrun.
  destruct (auth_loop (Z.to_nat 3) r2 s2) as [[r3 | r3 |] s3] eqn:Eauth;
    try discriminate Hrun.
  - apply auth_loop_outcome in Eauth. destruct Eauth as [[[Hn _] | Ht] Hv3];
      [discriminate Hn |].
    mrun_in Hrun. injection Hrun as <- <-. cbn [conn emit set_conn].
    split.
    + intros E. subst r3. discriminate Ht.
    + intros _. cbn [hdcp_value with_downstream_info]. congruence.
  - apply auth_loop_outcome in Eauth. destruct Eauth as (E0 & Hv3 & Ht).
    injection Hrun as <- <-. split; [intros _; split; assumption |].
    intros Hne. contradiction.
Qed.

End Enable.

Section EnableRuns.

#[local] Existing Instance Bench.regs.
#[local] Existing Instance Bench.drm.
#[local] Existing Instance Bench.plat.
#[local] Existing Instance BenchHooks.core.

(** A run of X6: the keys load, the receiver answers and its Ri' matches;
    the run returns 0 and the session, Desired before, is Enabled. *)
Lemma _intel_hdcp_enable_promotes_on_success_witness :
  fst (_intel_hdcp_enable (BenchHooks.ready_start DESIRED)) = Return 0 /\
  hdcp_value (conn (snd (_intel_hdcp_enable (BenchHooks.ready_start DESIRED))))
    = ENABLED.
Proof.
  split; [vm_compute; reflexivity |].
  refine (proj1 (proj1 (_intel_hdcp_enable_promotes_on_success
                          (plat := Bench.plat)
                          (BenchHooks.ready_start DESIRED)
                          (snd (_intel_hdcp_enable (BenchHooks.ready_start DESIRED)))
                          0 _) eq_refl)).
  vm_compute. reflexivity.
Defined.

End EnableRuns.

(** ** The locks *)

Lemma held_app l t1 t2 : held l (t1 ++ t2) = held l t1 + held l t2.
Proof.
  induction t1 as [| e t1 IH]; [reflexivity |].
  cbn [app held fold_right]. fold (held l (t1 ++ t2)). fold (held l t1).
  rewrite IH. destruct e; try reflexivity; destruct (lock_eqb l l0); lia.
Qed.

Lemma held_unlocked l e : unlocked e = true -> held l [e] = 0.
Proof. destruct e; try reflexivity; discriminate. Qed.

Lemma held_pair l l' : held l [EvMutexLock l'; EvMutexUnlock l'] = 0.
Proof. cbn [held fold_right]. destruct (lock_eqb l l'); reflexivity. Qed.

Section Locks.

Context {regs : i915_reg_h} {drm : drm_hdcp_h} {H : Type} {plat : platform H}
        {core : drm_core H}.

Local Abbreviation M := (@M H).

Lemma balanced_refl (s : state H) : balanced s s.
Proof. intros l. reflexivity. Qed.

Lemma balanced_trans (s1 s2 s3 : state H) :
  balanced s1 s2 -> balanced s2 s3 -> balanced s1 s3.
Proof. intros A B l. rewrite B. apply A. Qed.

Lemma balanced_hw h (s : state H) : balanced s (set_hw h s).
Proof. intros l. reflexivity. Qed.

Lemma balanced_conn g (s : state H) : balanced s (set_conn g s).
Proof. intros l. reflexivity. Qed.

Lemma balanced_event e (s : state H) :
  unlocked e = true -> balanced s (emit e s).
Proof.
  intros He l. cbn [trace emit]. rewrite held_app, held_unlocked by exact He.
  lia.
Qed.

Lemma balanced_pair l' h (s : state H) :
  balanced s (emit (EvMutexUnlock l') (set_hw h (emit (EvMutexLock l') s))).
Proof.
  intros l. cbn [trace emit set_hw].
  rewrite <- app_assoc, held_app. cbn [app]. rewrite held_pair. lia.
Qed.

(** The callees take locks only around single calls of the kernel. *)
Lemma balanced__disable : keeps balanced (_intel_hdcp_disable (H := H)).
Proof.
  apply keeps__disable;
    first [ exact balanced_refl | exact balanced_trans | exact balanced_hw
          | exact balanced_event | intros; apply balanced_conn ].
Qed.

Lemma balanced__enable : keeps balanced (_intel_hdcp_enable (H := H)).
Proof.
  apply keeps__enable;
    first [ exact balanced_refl | exact balanced_trans | exact balanced_hw
          | exact balanced_event | exact balanced_pair
          | intros; apply balanced_conn ].
Qed.

Lemma balanced_update_srm id_ :
  keeps balanced (intel_hdcp_update_srm (H := H) id_).
Proof.
  apply keeps_update_srm;
    first [ exact balanced_refl | exact balanced_trans | exact balanced_hw
          | exact balanced_event | intros; apply balanced_conn ].
Qed.

Variable l : lock.

Lemma locking_ret {A} (a : A) c : locking l c c (@ret H A a).
Proof. intros s. cbv [ret return_ get_conn modify_conn]. cbn [trace set_conn]. lia. Qed.

Lemma locking_return {A} r cn : locking l 0 cn (@return_ H A r).
Proof. intros s. cbv [ret return_ get_conn modify_conn]. cbn [trace set_conn]. lia. Qed.

Lemma locking_abort {A} c cn : locking l c cn (@abort H A).
Proof. intros s. exact I. Qed.

Lemma locking_bind {A B} (m : M A) (k : A -> M B) c c1 c2 :
  locking l c c1 m -> (forall a, locking l c1 c2 (k a)) ->
  locking l c c2 (bind m k).
Proof.
  intros Hm Hk s. unfold bind. specialize (Hm s).
  destruct (m s) as [[a | r |] s1]; [| exact Hm | exact I].
  specialize (Hk a s1). destruct (k a s1) as [[b | r |] s2]; [lia | lia | exact I].
Qed.

Lemma locking_ev e c : locking l c (c + held l [e]) (@ev H e).
Proof. intros s. cbv [ev]. cbn [trace emit]. rewrite held_app. lia. Qed.

Lemma locking_ev_unlocked e c :
  unlocked e = true -> locking l c c (@ev H e).
Proof.
  intros He s. cbv [ev]. cbn [trace emit].
  rewrite held_app, held_unlocked by exact He. lia.
Qed.

Lemma locking_ev_to e c cn :
  held l [e] = cn - c -> locking l c cn (@ev H e).
Proof.
  intros He s. cbv [ev]. cbn [trace emit]. rewrite held_app. lia.
Qed.

Lemma locking_drm_log msg c : locking l c c (@drm_log H msg).
Proof.
  intros s. cbv [drm_log ev]. cbn [trace emit]. rewrite held_app.
  change (held l [EvLog msg]) with 0. lia.
Qed.

Lemma locking_lift {A} (f : H -> A * H) c : locking l c c (lift f).
Proof. intros s. unfold lift. destruct (f (hw s)). cbn [trace set_hw]. lia. Qed.

Lemma locking_get_conn c : locking l c c (@get_conn H).
Proof. intros s. cbv [ret return_ get_conn modify_conn]. cbn [trace set_conn]. lia. Qed.

Lemma locking_modify_conn g c : locking l c c (@modify_conn H g).
Proof. intros s. cbv [ret return_ get_conn modify_conn]. cbn [trace set_conn]. lia. Qed.

Lemma locking_deref {A} (o : option A) c : locking l c c (@deref H A o).
Proof. destruct o; intros s; cbv [deref ret abort]; [lia | exact I]. Qed.

Lemma locking_i915_read r c : locking l c c (i915_read r).
Proof. apply locking_lift. Qed.

Lemma locking_shim_call {A} op (f : H -> A * H) c :
  locking l c c (shim_call op f).
Proof.
  unfold shim_call. apply (locking_bind _ _ c c c); [| intros _; apply locking_lift].
  intros s. cbv [ev]. cbn [trace emit]. rewrite held_app.
  change (held l [EvShim op]) with 0. lia.
Qed.

Lemma locking_when b (body : M unit) c :
  locking l c c body -> locking l c c (when b body).
Proof. intros Hb. destruct b; [exact Hb | apply locking_ret]. Qed.

Lemma locking_call (f : M Z) c : locking l 0 0 f -> locking l c c (call f).
Proof.
  intros Hf s. unfold call. specialize (Hf s).
  destruct (f s) as [[a | r |] s1]; [lia | lia | exact I].
Qed.

Lemma locking_of_balanced {A} (m : M A) : keeps balanced m -> locking l 0 0 m.
Proof.
  intros Hm s. specialize (Hm s l).
  destruct (m s) as [[a | r |] s1]; cbn [snd] in Hm; [lia | lia | exact I].
Qed.

Lemma locking_out {A} r cn :
  locking l (held l [EvMutexLock hdcp_mutex]) cn (@out H A r).
Proof.
  intros s. cbv [out bind ev return_]. cbn [trace emit].
  rewrite held_app. destruct l; cbn [held fold_right lock_eqb]; lia.
Qed.

End Locks.

(** The locks of a statement made of the statements above. *)
Ltac locked :=
  repeat
    (try match goal with
         | |- locking _ ?c _ _ =>
             let c' := eval vm_compute in c in progress change c with c'
         end;
     lazymatch goal with
     | |- locking _ _ _ (bind _ _) => eapply locking_bind; [| intros ?]
     | |- locking _ _ _ (ret _) => apply locking_ret
     | |- locking _ _ _ (return_ _) => apply locking_return
     | |- locking _ _ _ abort => apply locking_abort
     | |- locking _ _ _ (out _) => apply locking_out
     | |- locking _ _ _ (drm_log _) => apply locking_drm_log
     | |- locking _ _ _ (ev _) =>
         first [ apply locking_ev_unlocked; reflexivity
               | apply locking_ev_to; reflexivity
               | apply locking_ev ]
     | |- locking _ _ _ (lift _) => apply locking_lift
     | |- locking _ _ _ get_conn => apply locking_get_conn
     | |- locking _ _ _ (modify_conn _) => apply locking_modify_conn
     | |- locking _ _ _ (deref _) => apply locking_deref
     | |- locking _ _ _ (i915_read _) => apply locking_i915_read
     | |- locking _ _ _ (shim_call _ _) => apply locking_shim_call
     | |- locking _ _ _ (when _ _) => apply locking_when
     | |- locking _ _ _ (call _) => apply locking_call
     | |- locking _ _ _ (let _ := _ in _) => cbv zeta
     | |- locking _ _ _ (match ?x with _ => _ end) => destruct x
     | |- locking _ _ _ _ => solve [auto with locks]
     end).

Create HintDb locks.

Section LockDiscipline.

Context {regs : i915_reg_h} {drm : drm_hdcp_h} {H : Type} {plat : platform H}
        {core : drm_core H}.

Lemma locking__disable l : locking l 0 0 (_intel_hdcp_disable (H := H)).
Proof. apply locking_of_balanced, balanced__disable. Qed.

Lemma locking__enable l : locking l 0 0 (_intel_hdcp_enable (H := H)).
Proof. apply locking_of_balanced, balanced__enable. Qed.

Lemma locking_update_srm l id_ :
  locking l 0 0 (intel_hdcp_update_srm (H := H) id_).
Proof. apply locking_of_balanced, balanced_update_srm. Qed.

#[local] Hint Resolve locking__disable locking__enable locking_update_srm
  : locks.

Lemma locking_enable l : locking l 0 0 (intel_hdcp_enable (H := H)).
Proof. unfold intel_hdcp_enable. destruct l; locked. Qed.

Lemma locking_disable l : locking l 0 0 (intel_hdcp_disable (H := H)).
Proof. unfold intel_hdcp_disable. destruct l; locked. Qed.

Lemma locking_check_link l : locking l 0 0 (intel_hdcp_check_link (H := H)).
Proof. unfold intel_hdcp_check_link. destruct l; locked. Qed.

#[local] Hint Resolve locking_enable locking_disable locking_check_link : locks.

Lemma locking_enable_work l : locking l 0 0 (intel_hdcp_enable_work (H := H)).
Proof. unfold intel_hdcp_enable_work. destruct l; locked. Qed.

Lemma locking_check_work l : locking l 0 0 (intel_hdcp_check_work (H := H)).
Proof. unfold intel_hdcp_check_work. destruct l; locked. Qed.

Lemma locking_prop_work l st :
  locking l 0 0 (intel_hdcp_prop_work (H := H) st).
Proof. unfold intel_hdcp_prop_work. destruct l; locked. Qed.

Lemma locking_atomic_pre_commit l old_state new_state :
  locking l 0 0 (intel_hdcp_atomic_pre_commit (H := H) old_state new_state).
Proof. unfold intel_hdcp_atomic_pre_commit. destruct l; locked. Qed.

Lemma locking_atomic_commit l new_state :
  locking l 0 0 (intel_hdcp_atomic_commit (H := H) new_state).
Proof. unfold intel_hdcp_atomic_commit. destruct l; locked. Qed.

Lemma releases_of_locking {A} (m : M (H := H) A) :
  (forall l, locking l 0 0 m) -> releases m.
Proof.
  intros Hm s l. specialize (Hm l s).
  destruct (m s) as [[a | r |] s1]; cbn [fst snd]; [lia | lia | exact I].
Qed.

(** X7.  Every run of an entry point, of a work item or of an atomic hook
    that comes to an end has released each lock as often as it has taken it:
    the connector's mutex, the power domains lock and the pcode lock are
    never left held, whichever path the run takes. *)
Theorem locks_are_released :
  releases (intel_hdcp_enable (H := H)) /\
  releases (intel_hdcp_disable (H := H)) /\
  releases (intel_hdcp_check_link (H := H)) /\
  releases (intel_hdcp_enable_work (H := H)) /\
  releases (intel_hdcp_check_work (H := H)) /\
  (forall st, releases (intel_hdcp_prop_work (H := H) st)) /\
  (forall old_state new_state,
      releases (intel_hdcp_atomic_pre_commit (H := H) old_state new_state)) /\
  (forall new_state,
      releases (intel_hdcp_atomic_commit (H := H) new_state)).
Proof.
  repeat match goal with |- _ /\ _ => split end; intros;
    apply releases_of_locking; intros l;
    first [ apply locking_enable | apply locking_disable
          | apply locking_check_link | apply locking_enable_work
          | apply locking_check_work | apply locking_prop_work
          | apply locking_atomic_pre_commit | apply locking_atomic_commit ].
Qed.

End LockDiscipline.

(** ** The revocation store is never stale *)

Section StoreSafety.

Context {regs : i915_reg_h} {drm : drm_hdcp_h} {H : Type} {plat : platform H}
        {core : drm_core H}.

(** The release of the list after a copy that disagrees with the count is
    never reached: the two walks agree. *)
Lemma parse_srm_not_stale blob (s : state H) :
  revocated_ksv_list (conn s) <> Dangling ->
  revocated_ksv_list (conn (snd (intel_hdcp_parse_srm blob s))) <> Dangling.
Proof.
  intros Hs.
  destruct (intel_hdcp_parse_srm blob s) as [x s'] eqn:Hrun. cbn [snd].
  unfold intel_hdcp_parse_srm in Hrun.
  mrun_in Hrun.
  all: try (injection Hrun as <- <-;
            cbn [conn emit set_conn set_hw revocated_ksv_list
                 with_revocated_ksv_list with_revocated_ksv_cnt];
            first [ exact Hs | discriminate
                  | destruct (fst (kzalloc _ _)); discriminate ]).
  all: exfalso;
    match goal with
    | Hc : intel_hdcp_get_revocated_ksv_count _ _ _ = Walked ?c,
      Hk : intel_hdcp_get_revocated_ksvs _ _ _ = Walked (?c', _),
      Hne : negb (?c' =? ?c) = true |- _ =>
        rewrite (get_revocated_ksvs_count _ _ _ _ _ _ Hc Hk), Z.eqb_refl in Hne;
        discriminate
    | Hd : ?p = Dangling, Hn : ?p <> Dangling |- _ => exact (Hn Hd)
    | Hn : Dangling <> Dangling |- _ => exact (Hn eq_refl)
    end.
Qed.

Lemma update_srm_not_stale id_ (s : state H) :
  revocated_ksv_list (conn s) <> Dangling ->
  revocated_ksv_list (conn (snd (intel_hdcp_update_srm id_ s))) <> Dangling.
Proof.
  intros Hs. unfold intel_hdcp_update_srm.
  rewrite bind_lift.
  destruct (fst (drm_property_lookup_blob id_ (hw s))) as [blob |];
    [| exact Hs].
  destruct (blob_data blob) as [data |]; [| exact Hs].
  rewrite bind_call.
  pose proof (parse_srm_not_stale blob
                (set_hw (snd (drm_property_lookup_blob id_ (hw s))) s) Hs) as Hp.
  destruct (intel_hdcp_parse_srm blob
              (set_hw (snd (drm_property_lookup_blob id_ (hw s))) s))
    as [[r | r |] s1]; cbn [snd] in Hp |- *; [| | exact Hp];
    rewrite when_run; destruct (negb (truthy r)); exact Hp.
Qed.

(** X8.  The revocation list is never left stale.  Whatever blob a parse,
    an update or a commit works on and however it ends, a connector whose
    list was not a pointer to freed memory before has no such pointer
    after: the branch of the parser that releases the new list after a copy
    that disagrees with the count is never taken. *)
Theorem srm_store_never_stale (s : state H) :
  revocated_ksv_list (conn s) <> Dangling ->
  (forall blob,
      revocated_ksv_list (conn (snd (intel_hdcp_parse_srm blob s)))
      <> Dangling) /\
  (forall id_,
      revocated_ksv_list (conn (snd (intel_hdcp_update_srm id_ s)))
      <> Dangling) /\
  (forall new_state,
      revocated_ksv_list (conn (snd (intel_hdcp_atomic_commit new_state s)))
      <> Dangling).
Proof.
  intros Hs. split; [| split].
  - intros blob. apply parse_srm_not_stale. exact Hs.
  - intros id_. apply update_srm_not_stale. exact Hs.
  - intros new_state. unfold intel_hdcp_atomic_commit.
    rewrite bind_get_conn, bind_when.
    assert (He : forall (t : state H) (k : bool),
               revocated_ksv_list (conn t) <> Dangling ->
               revocated_ksv_list
                 (conn (snd (when k (bind (call intel_hdcp_enable)
                                       (fun _ => ret tt)) t))) <> Dangling).
    { intros t k Ht. rewrite when_run. destruct k; [| exact Ht].
      rewrite bind_call. pose proof (enable_keeps_store t) as K.
      unfold on_conn in K. destruct K as (K & _).
      destruct (intel_hdcp_enable t) as [[r | r |] t1];
        cbv beta iota; unfold ret; cbn [snd] in K |- *;
        rewrite K; exact Ht. }
    destruct (truthy (cp_srm_blob_id new_state) &&
              negb (cp_srm_blob_id new_state =? srm_blob_id (conn s))).
    + unfold bind at 1.
      pose proof (update_srm_not_stale (cp_srm_blob_id new_state) s Hs) as U.
      destruct (intel_hdcp_update_srm (cp_srm_blob_id new_state) s)
        as [[[] | r |] s1]; cbn [snd] in U |- *;
        [apply He; exact U | exact U | exact U].
    + apply He; exact Hs.
Qed.

End StoreSafety.

Section StoreSafetyRuns.

#[local] Existing Instance Bench.regs.
#[local] Existing Instance Bench.drm.
#[local] Existing Instance Bench.plat.
#[local] Existing Instance BenchHooks.core.

(** A run of X8: a commit names an SRM while memory is short; the previous
    list is released and the pointer is null, not stale. *)
Lemma srm_store_never_stale_witness :
  revocated_ksv_list
    (conn (snd (intel_hdcp_atomic_commit
                  {| crtc := false; content_protection_value := UNDESIRED;
                     cp_srm_blob_id := 7 |} BenchSrm.no_memory_start))) = Null /\
  revocated_ksv_list
    (conn (snd (intel_hdcp_atomic_commit
                  {| crtc := false; content_protection_value := UNDESIRED;
                     cp_srm_blob_id := 7 |} BenchSrm.no_memory_start)))
  <> Dangling.
Proof.
  split; [vm_compute; reflexivity |].
  refine (proj2 (proj2 (srm_store_never_stale (plat := Bench.plat)
                          BenchSrm.no_memory_start _))
            {| crtc := false; content_protection_value := UNDESIRED;
               cp_srm_blob_id := 7 |}).
  discriminate.
Defined.

End StoreSafetyRuns.

(** ** The atomic hooks *)

Section AtomicHooks.

Context {regs : i915_reg_h} {drm : drm_hdcp_h} {H : Type} {plat : platform H}
        {core : drm_core H}.

(** A disable that comes to an end on a connector with a shim has returned,
    with the session Undesired and the periodic check cancelled after the
    mutex was released. *)
Lemma disable_outcome (s s1 : state H) x :
  has_shim (conn s) = true ->
  intel_hdcp_disable s = (x, s1) ->
  x <> Abort ->
  (exists r, x = Return r) /\
  hdcp_value (conn s1) = UNDESIRED /\
  has_shim (conn s1) = true /\
  exists t, trace s1 = t ++ [EvMutexUnlock hdcp_mutex;
                             EvCancelDelayedWorkSync hdcp_check_work].
Proof.
  intros Hshim Hrun Hx. unfold intel_hdcp_disable in Hrun.
  mstep_in Hrun. mstep_in Hrun. rewrite Hshim in Hrun. cbn [negb] in Hrun.
  mstep_in Hrun.
  destruct (content_protection_eqb (hdcp_value (conn s)) UNDESIRED) eqn:Ev;
    cbn [negb] in Hrun.
  - mrun_in Hrun. injection Hrun as <- <-. cbn [conn trace emit].
    split; [eexists; reflexivity |]. split; [| split; [exact Hshim |]].
    + destruct (hdcp_value (conn s)); [reflexivity | discriminate Ev ..].
    + exists (trace s ++ [EvMutexLock hdcp_mutex]).
      rewrite <- !app_assoc. reflexivity.
  - rewrite bind_bind in Hrun. mstep_in Hrun. unfold bind at 1 in Hrun.
    match type of Hrun with
    | context [call _intel_hdcp_disable ?t] =>
        destruct (call _intel_hdcp_disable t) as [[r | r |] s2] eqn:Ed
    end.
    + pose proof (call__disable_value _ _ _ Ed) as Hv.
      pose proof (call__disable_shim _ _ _ Ed) as Hs.
      cbn [conn set_conn emit hdcp_value hdcp_shim with_hdcp_value] in Hv, Hs.
      mrun_in Hrun. injection Hrun as <- <-. cbn [conn trace emit].
      split; [eexists; reflexivity |]. split; [exact Hv |].
      split; [unfold has_shim in *; rewrite Hs; exact Hshim |].
      exists (trace s2). rewrite <- !app_assoc. reflexivity.
    + exfalso. exact (call_never_returns _ _ _ _ Ed).
    + injection Hrun as <- <-. contradiction Hx. reflexivity.
Qed.

(** X9.  A pre-commit that asks for a disable disables for good.  When the
    old state asked for protection and the new state has no CRTC or asks
    for none, the hook leaves the session Undesired, whatever the hardware
    answered, and cancels the periodic check last; a property work that
    runs afterwards gives back the connector state it was given and leaves
    the connector as it is. *)
Theorem pre_commit_disables_for_good old_state new_state (s s1 : state H) :
  has_shim (conn s) = true ->
  content_protection_value old_state <> UNDESIRED ->
  crtc new_state = false \/ content_protection_value new_state = UNDESIRED ->
  intel_hdcp_atomic_pre_commit old_state new_state s = (Next tt, s1) ->
  hdcp_value (conn s1) = UNDESIRED /\
  (exists t, trace s1 = t ++ [EvMutexUnlock hdcp_mutex;
                              EvCancelDelayedWorkSync hdcp_check_work]) /\
  forall st,
    fst (intel_hdcp_prop_work st s1) = Next st /\
    conn (snd (intel_hdcp_prop_work st s1)) = conn s1.
Proof.
  intros Hshim Hold Hnew Hrun. unfold intel_hdcp_atomic_pre_commit in Hrun.
  assert (Hc : (negb (crtc new_state) &&
                negb (content_protection_eqb
                        (content_protection_value old_state) UNDESIRED))
               || (crtc new_state &&
                   negb (content_protection_eqb
                           (content_protection_value old_state) UNDESIRED) &&
                   content_protection_eqb
                     (content_protection_value new_state) UNDESIRED) = true).
  { destruct (content_protection_value old_state);
      [contradiction Hold; reflexivity | ..];
      destruct Hnew as [-> | ->]; cbn; try reflexivity;
      destruct (crtc new_state); reflexivity. }
  cbv zeta in Hrun. rewrite Hc, when_run, bind_call in Hrun.
  destruct (intel_hdcp_disable s) as [x s2] eqn:Hd.
  assert (Hx : x <> Abort) by (intros ->; discriminate Hrun).
  destruct (disable_outcome _ _ _ Hshim Hd Hx) as ([r ->] & Hv & _ & Ht).
  rewrite ret_run in Hrun. injection Hrun as <-.
  split; [exact Hv |]. split; [exact Ht |].
  intros st. unfold intel_hdcp_prop_work.
  rewrite bind_lift, bind_ev, bind_get_conn. cbn [fst snd conn emit set_hw].
  rewrite Hv. cbn [content_protection_eqb negb]. cbv zeta.
  rewrite bind_ev, bind_lift. cbn [fst snd conn emit set_hw].
  split; reflexivity.
Qed.

(** The commit of a state that has a CRTC and asks for protection, on a
    connector with a shim, ends by scheduling the enable work under the
    mutex, whatever it did about the SRM before. *)
Lemma commit_desired_schedules_enable back (s s2 : state H) :
  has_shim (conn s) = true ->
  crtc back = true ->
  content_protection_value back = DESIRED ->
  intel_hdcp_atomic_commit back s = (Next tt, s2) ->
  exists t, trace s2 = t ++ [EvMutexLock hdcp_mutex;
                             EvScheduleWork hdcp_enable_work;
                             EvMutexUnlock hdcp_mutex].
Proof.
  intros Hs Hb Hcp Hrun. unfold intel_hdcp_atomic_commit in Hrun.
  cbv zeta in Hrun. rewrite bind_get_conn, Hb, Hcp in Hrun.
  cbn [andb content_protection_eqb] in Hrun.
  assert (He : forall t : state H,
             has_shim (conn t) = true ->
             when true (bind (call intel_hdcp_enable) (fun _ => ret tt)) t =
             (Next tt,
              emit (EvMutexUnlock hdcp_mutex)
                (emit (EvScheduleWork hdcp_enable_work)
                   (emit (EvMutexLock hdcp_mutex) t)))).
  { intros t Ht. rewrite when_run. cbv iota. rewrite bind_call.
    unfold intel_hdcp_enable. rewrite bind_get_conn, Ht. cbn [negb].
    rewrite bind_when, bind_ev, bind_ev, bind_ev, return_run, ret_run.
    reflexivity. }
  rewrite bind_when in Hrun.
  destruct (truthy (cp_srm_blob_id back) &&
            negb (cp_srm_blob_id back =? srm_blob_id (conn s))).
  - unfold bind at 1 in Hrun.
    pose proof (update_srm_keeps_session (cp_srm_blob_id back) s) as K.
    unfold on_conn in K. destruct K as (_ & K & _).
    destruct (intel_hdcp_update_srm (cp_srm_blob_id back) s)
      as [[[] | r |] s1]; cbn [snd] in K; try discriminate Hrun.
    rewrite He in Hrun by (unfold has_shim in *; rewrite K; exact Hs).
    injection Hrun as <-. cbn [trace emit].
    exists (trace s1). rewrite <- !app_assoc. reflexivity.
  - rewrite He in Hrun by exact Hs.
    injection Hrun as <-. cbn [trace emit].
    exists (trace s). rewrite <- !app_assoc. reflexivity.
Qed.

(** X10.  Protection survives an unplug.  When a connector that was
    protected loses its CRTC, the check marks the new state Desired and the
    pre-commit switches HDCP off.  A later commit that has a CRTC again and
    asks for what the check left ends, whichever SRM blob it names, by
    scheduling the enable work under the mutex; when it names no blob, or
    the blob whose identifier the connector has recorded, it does nothing
    else. *)
Theorem protection_survives_unplug old_state new_state (s s1 : state H) :
  has_shim (conn s) = true ->
  content_protection_value old_state = ENABLED ->
  crtc new_state = false ->
  intel_hdcp_atomic_pre_commit old_state
    (intel_hdcp_atomic_check old_state new_state) s = (Next tt, s1) ->
  content_protection_value (intel_hdcp_atomic_check old_state new_state)
    = DESIRED /\
  hdcp_value (conn s1) = UNDESIRED /\
  forall back,
    crtc back = true ->
    content_protection_value back =
      content_protection_value (intel_hdcp_atomic_check old_state new_state) ->
    (forall s2,
        intel_hdcp_atomic_commit back s1 = (Next tt, s2) ->
        exists t, trace s2 = t ++ [EvMutexLock hdcp_mutex;
                                   EvScheduleWork hdcp_enable_work;
                                   EvMutexUnlock hdcp_mutex]) /\
    (cp_srm_blob_id back = 0 \/
     cp_srm_blob_id back = srm_blob_id (conn s1) ->
     intel_hdcp_atomic_commit back s1 =
       (Next tt,
        {| hw := hw s1; conn := conn s1;
           trace := trace s1 ++ [EvMutexLock hdcp_mutex;
                                 EvScheduleWork hdcp_enable_work;
                                 EvMutexUnlock hdcp_mutex] |})).
Proof.
  intros Hshim Hold Hcrtc Hrun.
  assert (Hchk : intel_hdcp_atomic_check old_state new_state =
                 with_content_protection DESIRED new_state).
  { unfold intel_hdcp_atomic_check. cbv zeta. rewrite Hcrtc, Hold. reflexivity. }
  rewrite Hchk in *. cbn [content_protection_value with_content_protection].
  unfold intel_hdcp_atomic_pre_commit in Hrun. cbv zeta in Hrun.
  cbn [crtc content_protection_value with_content_protection] in Hrun.
  rewrite Hcrtc, Hold in Hrun. cbn [negb andb orb content_protection_eqb] in Hrun.
  rewrite when_run, bind_call in Hrun.
  destruct (intel_hdcp_disable s) as [x s2] eqn:Hd.
  assert (Hx : x <> Abort) by (intros ->; discriminate Hrun).
  destruct (disable_outcome _ _ _ Hshim Hd Hx) as ([r ->] & Hv & Hs & _).
  rewrite ret_run in Hrun. injection Hrun as <-.
  split; [reflexivity |]. split; [exact Hv |].
  intros back Hb Hcp. split.
  - intros s3 Hc.
    exact (commit_desired_schedules_enable back s2 s3 Hs Hb Hcp Hc).
  - intros Hid.
    assert (Hskip : truthy (cp_srm_blob_id back) &&
                    negb (cp_srm_blob_id back =? srm_blob_id (conn s2)) = false).
    { destruct Hid as [E | E]; rewrite E.
      - reflexivity.
      - rewrite Z.eqb_refl. apply andb_false_r. }
    unfold intel_hdcp_atomic_commit. cbv zeta.
    rewrite bind_get_conn, Hskip, Hb, Hcp.
    cbn [andb content_protection_eqb].
    rewrite bind_when, when_run, bind_call.
    unfold intel_hdcp_enable. rewrite bind_get_conn, Hs. cbn [negb].
    rewrite bind_when, bind_ev, bind_ev, bind_ev, return_run, ret_run.
    unfold emit. cbn [trace hw conn]. rewrite <- !app_assoc. reflexivity.
Qed.

End AtomicHooks.

Section AtomicHooksRuns.

#[local] Existing Instance Bench.regs.
#[local] Existing Instance Bench.drm.
#[local] Existing Instance Bench.plat.
#[local] Existing Instance BenchHooks.core.

(** A run of X9: the user switches protection off on an enabled session. *)
Lemma pre_commit_disables_for_good_witness :
  hdcp_value
    (conn (snd (intel_hdcp_atomic_pre_commit
                  {| crtc := true; content_protection_value := ENABLED;
                     cp_srm_blob_id := 0 |}
                  {| crtc := true; content_protection_value := UNDESIRED;
                     cp_srm_blob_id := 0 |}
                  BenchAuth.enabled_start))) = UNDESIRED.
Proof.
  refine (proj1 (pre_commit_disables_for_good (plat := Bench.plat)
                   {| crtc := true; content_protection_value := ENABLED;
                      cp_srm_blob_id := 0 |}
                   {| crtc := true; content_protection_value := UNDESIRED;
                      cp_srm_blob_id := 0 |}
                   BenchAuth.enabled_start _ eq_refl _ (or_intror eq_refl) _)).
  - discriminate.
  - vm_compute. reflexivity.
Defined.

(** A run of X10: an enabled session loses its CRTC, and a later commit
    that names no SRM blob brings the CRTC back. *)
Lemma protection_survives_unplug_witness :
  content_protection_value
    (intel_hdcp_atomic_check
       {| crtc := true; content_protection_value := ENABLED;
          cp_srm_blob_id := 0 |}
       {| crtc := false; content_protection_value := ENABLED;
          cp_srm_blob_id := 0 |}) = DESIRED /\
  hdcp_value
    (conn (snd (intel_hdcp_atomic_pre_commit
                  {| crtc := true; content_protection_value := ENABLED;
                     cp_srm_blob_id := 0 |}
                  (intel_hdcp_atomic_check
                     {| crtc := true; content_protection_value := ENABLED;
                        cp_srm_blob_id := 0 |}
                     {| crtc := false; content_protection_value := ENABLED;
                        cp_srm_blob_id := 0 |})
                  BenchAuth.enabled_start))) = UNDESIRED /\
  fst (intel_hdcp_atomic_commit
         {| crtc := true; content_protection_value := DESIRED;
            cp_srm_blob_id := 0 |}
         (snd (intel_hdcp_atomic_pre_commit
                 {| crtc := true; content_protection_value := ENABLED;
                    cp_srm_blob_id := 0 |}
                 (intel_hdcp_atomic_check
                    {| crtc := true; content_protection_value := ENABLED;
                       cp_srm_blob_id := 0 |}
                    {| crtc := false; content_protection_value := ENABLED;
                       cp_srm_blob_id := 0 |})
                 BenchAuth.enabled_start))) = Next tt.
Proof.
  assert (P := protection_survives_unplug (plat := Bench.plat)
            {| crtc := true; content_protection_value := ENABLED;
               cp_srm_blob_id := 0 |}
            {| crtc := false; content_protection_value := ENABLED;
               cp_srm_blob_id := 0 |}
            BenchAuth.enabled_start
            (snd (intel_hdcp_atomic_pre_commit
                    {| crtc := true; content_protection_value := ENABLED;
                       cp_srm_blob_id := 0 |}
                    (intel_hdcp_atomic_check
                       {| crtc := true; content_protection_value := ENABLED;
                          cp_srm_blob_id := 0 |}
                       {| crtc := false; content_protection_value := ENABLED;
                          cp_srm_blob_id := 0 |})
                    BenchAuth.enabled_start))
            eq_refl eq_refl eq_refl).
  destruct P as (P1 & P2 & P3).
  - vm_compute. reflexivity.
  - split; [exact P1 |]. split; [exact P2 |].
    rewrite (proj2 (P3 {| crtc := true; content_protection_value := DESIRED;
                          cp_srm_blob_id := 0 |} eq_refl eq_refl)
               (or_introl eq_refl)).
    reflexivity.
Defined.

End AtomicHooksRuns.

(** ** Revoked receivers *)

Section Revocation.

Context {regs : i915_reg_h} {drm : drm_hdcp_h} {H : Type} {plat : platform H}
        {core : drm_core H}.

Lemma ksv_at_store_ksv k : is_ksv k -> ksv_at (store_ksv (zeros 8) k) 0 = k.
Proof.
  intros [Hl Hb]. destruct k as [| a0 [| a1 [| a2 [| a3 [| a4 [| ? ?]]]]]];
    try discriminate Hl.
  change (store_ksv (zeros 8) [a0; a1; a2; a3; a4])
    with ([u8 a0; u8 a1; u8 a2; u8 a3; u8 a4] ++ [0; 0; 0]).
  repeat match goal with
         | H : Forall _ (_ :: _) |- _ => inversion H; clear H; subst
         end.
  rewrite !u8_small by assumption.
  apply ksv_at_head. split; [reflexivity |].
  repeat first [ apply Forall_nil | apply Forall_cons; [assumption |] ].
Qed.

(** A store that lists [k] answers true for a buffer that starts with [k]. *)
Lemma revocated_listed entries k ksvs :
  Forall is_ksv entries -> In k entries -> ksv_at ksvs 0 = k ->
  intel_hdcp_ksvs_revocated (Live (concat entries))
    (Z.of_nat (length entries)) ksvs 1 = Some true.
Proof.
  intros He Hin Hk. unfold intel_hdcp_ksvs_revocated.
  apply In_nth_iff in Hin. destruct Hin as (i & Hi & Hn).
  destruct (Z.eqb_spec (Z.of_nat (length entries)) 0) as [E | _]; [lia |].
  f_equal. apply cand_scan_spec. exists 0%nat, i.
  split; [change (Z.to_nat 1) with 1%nat; lia |].
  split; [lia |].
  rewrite ksv_at_concat by assumption. change (0 + 5 * Z.of_nat 0) with 0.
  congruence.
Qed.

Lemma auth_send_an_conn shim p (s s1 : state H) x :
  auth_send_an shim p s = (x, s1) -> conn s1 = conn s.
Proof.
  intros E.
  pose proof (keeps_auth_send_an (fun t t' : state H => conn t' = conn t)
                (fun _ => eq_refl)
                (fun t1 t2 t3 A B => eq_trans B A)
                (fun _ _ => eq_refl) (fun _ _ _ => eq_refl) shim p s) as K.
  rewrite E in K. exact K.
Qed.

(** X11.  A receiver whose Bksv is on the revocation list is turned away
    before the hardware learns its key.  When the attempt has come as far as
    the read of Bksv and the read yields a valid KSV that the store lists,
    Part 1 returns -EPERM right after the read: Bksv is not written to the
    port, the connector is untouched, the repeater bit is not asked for,
    signalling is not switched on and encryption is not requested. *)
Theorem auth_revoked_bksv (s s1 : state H) p shim r0_prime_gen_start
        k h1 entries :
  dig_port (conn s) = Some p ->
  hdcp_shim (conn s) = Some shim ->
  auth_send_an shim p s = (Next r0_prime_gen_start, s1) ->
  read_bksv shim (hw s1) = ((0, k), h1) ->
  is_ksv k -> intel_hdcp_is_ksv_valid k = true ->
  revocated_ksv_list (conn s) = Live (concat entries) ->
  revocated_ksv_cnt (conn s) = Z.of_nat (length entries) ->
  Forall is_ksv entries -> In k entries ->
  intel_hdcp_auth s =
    (Return (- EPERM),
     {| hw := h1; conn := conn s;
        trace := trace s1 ++ [EvShim SHIM_read_bksv;
                              EvLog "BKSV is revocated"] |}).
Proof.
  intros Hp Hshim Hpre Hr Hk Hv Hl Hc He Hin.
  pose proof (auth_send_an_conn _ _ _ _ _ Hpre) as Hconn.
  unfold intel_hdcp_auth. mstep. rewrite Hp. mstep. rewrite Hshim.
  unfold bind at 1. rewrite Hpre.
  unfold auth_from_bksv. change (Z.to_nat 2) with 2%nat.
  cbn [bksv_loop]. mrun. rewrite Hr. cbn [fst snd].
  change (truthy 0) with false. mrun.
  rewrite (ksv_valid_store (zeros 8) k eq_refl (proj1 Hk)), Hv.
  mrun. change (0 =? 2) with false. cbv iota. mrun.
  rewrite Hconn, Hl, Hc.
  rewrite (revocated_listed entries k _ He Hin (ksv_at_store_ksv k Hk)).
  mrun. unfold emit, set_hw. cbn [hw conn trace].
  rewrite Hconn, <- !app_assoc. reflexivity.
Qed.

Lemma filled_all old new :
  length old = length new -> Forall is_byte new -> filled old new = new.
Proof.
  intros Hl Hb. apply (nth_ext _ _ 0 0); [rewrite length_filled; exact Hl |].
  intros i Hi. rewrite length_filled in Hi. unfold filled.
  set (f := fun i => if (i <? length new)%nat then u8 (nth i new 0)
                     else nth i old 0).
  rewrite (nth_indep _ 0 (f 0%nat))
    by (rewrite length_map, length_seq; exact Hi).
  rewrite (map_nth f), seq_nth by exact Hi. cbn [Nat.add]. subst f. cbv beta.
  destruct (Nat.ltb_spec i (length new)) as [Hlt | Hge]; [| lia].
  apply u8_small. rewrite Forall_forall in Hb. apply Hb, nth_In. exact Hlt.
Qed.

Lemma Forall_byte_ksvs (l : list (list Z)) :
  Forall is_ksv l -> Forall is_byte (concat l).
Proof.
  induction 1 as [| k l [_ Hk] _ IH]; cbn [concat];
    [constructor | apply Forall_app; split; assumption].
Qed.

(** X12.  A repeater with a revoked device behind it is turned away before
    its hash is looked at.  When the KSV list is ready, BSTATUS reports the
    devices within the limits, the FIFO buffer is allocated and the FIFO
    read yields KSVs one of which the store lists, Part 2 returns -EPERM
    right after the read: by then the connector has the device count and
    the depth but not the KSV list, no part of V' has been read and no
    register has been written. *)
Theorem auth_downstream_revoked_fifo (s : state H) p shim bst h1 h2 h3 h4
        (cands entries : list (list Z)) k :
  dig_port (conn s) = Some p ->
  hdcp_shim (conn s) = Some shim ->
  __wait_for (read_ksv_ready shim) (fun x => truthy (fst x) || snd x)
             (5 * 1000 * 1000) 1000 (100 * 1000) (hw s)
    = ((0, (0, true)), h1) ->
  read_bstatus shim h1 = ((0, bst), h2) ->
  truthy (DRM_HDCP_MAX_DEVICE_EXCEEDED (byte_at (filled [0; 0] bst) 0)) = false ->
  truthy (DRM_HDCP_MAX_CASCADE_EXCEEDED (byte_at (filled [0; 0] bst) 1)) = false ->
  u8 (DRM_HDCP_NUM_DOWNSTREAM (byte_at (filled [0; 0] bst) 0))
    = Z.of_nat (length cands) ->
  kzalloc (Z.of_nat (length cands) * DRM_HDCP_KSV_LEN) h2 = (true, h3) ->
  read_ksv_fifo shim (Z.of_nat (length cands)) h3 = ((0, concat cands), h4) ->
  Forall is_ksv cands ->
  revocated_ksv_list (conn s) = Live (concat entries) ->
  revocated_ksv_cnt (conn s) = Z.of_nat (length entries) ->
  Forall is_ksv entries ->
  In k cands -> In k entries ->
  intel_hdcp_auth_downstream s =
    (Return (- EPERM),
     {| hw := h4;
        conn := with_downstream_info
                  {| device_count := Z.of_nat (length cands);
                     depth := DRM_HDCP_DEPTH (byte_at (filled [0; 0] bst) 1);
                     bksv := bksv (downstream_info (conn s));
                     ksv_list := ksv_list (downstream_info (conn s));
                     is_repeater := is_repeater (downstream_info (conn s)) |}
                  (conn s);
        trace := trace s ++
                 [EvShim SHIM_read_ksv_ready; EvShim SHIM_read_bstatus;
                  EvKzalloc (Z.of_nat (length cands) * DRM_HDCP_KSV_LEN);
                  EvShim SHIM_read_ksv_fifo;
                  EvLog "Revocated Ksv(s) in ksv_fifo"] |}).
Proof.
  intros Hp Hshim Hpoll Hbst Hdev Hcas Hnum Halloc Hfifo Hcands Hl Hc He
         Hin1 Hin2.
  assert (intel_hdcp_poll_ksv_fifo shim s =
          (Return 0, set_hw h1 (emit (EvShim SHIM_read_ksv_ready) s))) as Hready.
  { unfold intel_hdcp_poll_ksv_fifo. mrun. rewrite Hpoll.
    cbn [fst snd truthy Z.eqb negb orb]. mrun. reflexivity. }
  assert (Hpos : (0 < length cands)%nat)
    by (destruct cands; [contradiction Hin1 | cbn; lia]).
  assert (Hfill : filled (zeros (Z.of_nat (length cands) * DRM_HDCP_KSV_LEN))
                    (concat cands) = concat cands).
  { apply filled_all; [| apply Forall_byte_ksvs; exact Hcands].
    unfold zeros, DRM_HDCP_KSV_LEN.
    rewrite repeat_length, (length_concat_ksvs cands Hcands). lia. }
  destruct (ksvs_revocated_lists entries cands He Hcands) as (b & Hb & Hiff).
  assert (b = true) as -> by (apply Hiff; exists k; split; assumption).
  unfold intel_hdcp_auth_downstream. mstep. rewrite Hp. mstep. rewrite Hshim.
  mstep. rewrite Hready. cbn [truthy Z.eqb negb]. mrun.
  rewrite Hbst. cbn [fst snd truthy Z.eqb negb]. mrun.
  rewrite Hdev, Hcas. cbn [orb]. mrun. rewrite Hnum.
  destruct (Z.eqb_spec (Z.of_nat (length cands)) 0) as [E | _]; [lia |].
  mrun. rewrite Halloc. cbn [fst snd negb]. mrun.
  rewrite Hfifo. cbn [fst snd truthy Z.eqb negb]. mrun.
  cbn [revocated_ksv_list revocated_ksv_cnt with_downstream_info].
  rewrite Hl, Hc, Hfill, Hb. mrun.
  unfold emit, set_hw, set_conn. cbn [hw conn trace].
  rewrite <- !app_assoc. reflexivity.
Qed.

End Revocation.

(** ** The list a parse installs *)

Section StoreShape.

Context {regs : i915_reg_h} {drm : drm_hdcp_h} {H : Type} {plat : platform H}
        {core : drm_core H}.

Lemma rd_range_length data n : forall off l,
  rd_range data off n = Some l -> length l = n.
Proof.
  induction n as [| n IH]; intros off l; cbn [rd_range].
  - intros [= <-]. reflexivity.
  - destruct (rd data off); [| discriminate].
    destruct (rd_range data (off + 1) n) as [bs |] eqn:E; [| discriminate].
    intros [= <-]. cbn [length]. f_equal. exact (IH _ _ E).
Qed.

(** The copying walk copies five bytes for every KSV it counts. *)
Lemma revocated_ksvs_length fuel data :
  forall buf parsed cnt vrls acc c l,
    0 <= parsed <= 2 ^ 32 - 1277 -> vrls <= 2 ^ 32 - 1277 ->
    0 <= cnt -> 5 * cnt <= parsed ->
    revocated_ksvs_loop fuel data buf parsed cnt vrls acc = Walked (c, l) ->
    Z.of_nat (length l) = Z.of_nat (length acc) + 5 * (c - cnt) /\
    cnt <= c /\ 5 * c < 2 ^ 32.
Proof.
  induction fuel as [| fuel IH]; intros buf parsed cnt vrls acc c l Hp Hv Hc Hcp;
    cbn [revocated_ksvs_loop]; [discriminate |].
  destruct (rd data buf) as [v |] eqn:Ev; [| discriminate].
  apply rd_byte in Ev. unfold DRM_HDCP_KSV_LEN.
  rewrite (u32_small (v * 5)) by lia.
  destruct (rd_range data (buf + 1) (Z.to_nat (v * 5))) as [copied |] eqn:Er;
    [| discriminate].
  apply rd_range_length in Er.
  rewrite (u32_small (v * 5 + 1)) by lia.
  rewrite (u32_small (cnt + v)) by lia.
  assert (Hs : 0 <= parsed + (v * 5 + 1) < 2 ^ 32) by lia.
  rewrite (u32_small _ Hs).
  destruct (Z.ltb_spec (parsed + (v * 5 + 1)) vrls) as [Hlt | Hge].
  - intros Hw. apply IH in Hw; [| lia ..].
    rewrite length_app in Hw. lia.
  - intros [= <- <-]. rewrite length_app. lia.
Qed.

Lemma get_revocated_ksvs_length data buf vrls c l :
  vrls <= 2 ^ 32 - 1277 ->
  intel_hdcp_get_revocated_ksvs data buf vrls = Walked (c, l) ->
  Z.of_nat (length l) = 5 * c /\ 0 <= c /\ 5 * c < 2 ^ 32.
Proof.
  intros Hv Hw. unfold intel_hdcp_get_revocated_ksvs in Hw.
  apply revocated_ksvs_length in Hw; [| lia ..]. cbn [length] in Hw. lia.
Qed.

Lemma overwrite_exact size l :
  0 <= size -> Z.of_nat (length l) = size -> overwrite (zeros size) l = l.
Proof.
  intros Hs Hl. unfold overwrite, zeros.
  rewrite skipn_all2 by (rewrite repeat_length; lia). apply app_nil_r.
Qed.

(** X13.  The list a parse installs holds whole entries.  A parse that
    returns 0 has either left the connector alone, because the SRM revokes no
    KSV, or installed a live list with a positive count whose length is
    five bytes for each KSV counted: the copy fills the allocation exactly,
    and the membership check reads inside it. *)
Theorem parse_srm_installs_whole_entries blob (s s' : state H) :
  0 <= DRM_HDCP_1_4_VRL_LENGTH_SIZE + DRM_HDCP_1_4_DCP_SIG_SIZE ->
  intel_hdcp_parse_srm blob s = (Return 0, s') ->
  conn s' = conn s \/
  exists l,
    revocated_ksv_list (conn s') = Live l /\
    0 < revocated_ksv_cnt (conn s') /\
    Z.of_nat (length l) = 5 * revocated_ksv_cnt (conn s').
Proof.
  intros Hsz Hrun. unfold intel_hdcp_parse_srm in Hrun.
  mrun_in Hrun; try discriminate;
    injection Hrun as <-;
    cbn [conn emit set_conn set_hw revocated_ksv_list revocated_ksv_cnt
         with_revocated_ksv_list with_revocated_ksv_cnt];
    auto.
  all: right;
    match goal with
    | Hc : intel_hdcp_get_revocated_ksv_count _ _ ?v = Walked ?c,
      Hk : intel_hdcp_get_revocated_ksvs _ _ _ = Walked (?c', ?l'),
      Hz : negb (truthy ?c) = false,
      B0 : rd _ _ = Some ?b0, B1 : rd _ _ = Some ?b1, B2 : rd _ _ = Some ?b2,
      Hlen : _ || (_ <? _) = false |- _ =>
        pose proof (get_revocated_ksvs_count _ _ _ _ _ _ Hc Hk) as Hsame;
        pose proof (vrl_length_bound _ _ _ (rd_byte _ _ _ B0) (rd_byte _ _ _ B1)
                      (rd_byte _ _ _ B2)) as Hb;
        apply orb_false_iff in Hlen; destruct Hlen as [_ Hlen];
        apply Z.ltb_ge in Hlen;
        assert (Hv : v <= 2 ^ 32 - 1277) by (rewrite u32_small; lia);
        destruct (get_revocated_ksvs_length _ _ _ _ _ Hv Hk) as (Hl & Hc0 & Hc5);
        subst c';
        assert (Hnz : c <> 0)
          by (intros ->; unfold truthy in Hz; cbn in Hz; discriminate Hz);
        exists l'; unfold DRM_HDCP_KSV_LEN;
        rewrite (u32_small (c * 5)) by lia;
        rewrite overwrite_exact by lia;
        repeat split; [lia | lia]
    end.
Qed.

End StoreShape.

(** ** An SRM that revokes nothing *)

Section EmptySrm.

Context {regs : i915_reg_h} {drm : drm_hdcp_h} {H : Type} {plat : platform H}
        {core : drm_core H}.

(** The parse of a synthetic SRM whose VRLs are all empty returns 0 at the
    count and has logged two lines. *)
Lemma parse_srm_synthetic_empty header segs sig (s : state H) :
  Z.of_nat (length header) = sizeof_cp_srm_header ->
  srm_id header = DRM_HDCP_1_4_SRM_ID ->
  DRM_HDCP_1_4_VRL_LENGTH_SIZE = 3 ->
  Z.of_nat (length sig) = DRM_HDCP_1_4_DCP_SIG_SIZE ->
  Forall wf_segment segs ->
  segs <> [] ->
  srm_ksvs segs = [] ->
  Z.of_nat (length (vrl_payload segs)) + 3 + DRM_HDCP_1_4_DCP_SIG_SIZE < 2 ^ 24 ->
  intel_hdcp_parse_srm (srm_blob header segs sig) s =
    (Return 0,
     emit (EvLog "Revocated KSV count is 0")
       (emit (EvLog "SRM ID: 0x%x, SRM Ver: 0x%x, SRM Gen No: 0x%x") s)).
Proof.
  intros Hhdr Hid Hvl Hsig Hwf Hne Hks Hlen.
  destruct (length_payload_bound segs Hwf) as [Hb1 Hb2].
  pose proof (length_concat_segments segs Hwf) as Hcc.
  unfold srm_ksvs in *.
  assert (0 < length segs)%nat as Hpos
      by (destruct segs; [contradiction | cbn; lia]).
  set (L := Z.of_nat (length (vrl_payload segs)) + 3 + DRM_HDCP_1_4_DCP_SIG_SIZE).
  assert (0 <= DRM_HDCP_1_4_DCP_SIG_SIZE) as Hs0 by lia.
  assert (blob_length (srm_blob header segs sig) = sizeof_cp_srm_header + L) as Hbl.
  { unfold srm_blob, srm_data. cbn [blob_length].
    rewrite Hvl, !length_app. cbn [be24 length]. subst L. lia. }
  unfold intel_hdcp_parse_srm. rewrite Hbl.
  mstep. destruct (Z.ltb_spec (sizeof_cp_srm_header + L)
                     (sizeof_cp_srm_header + DRM_HDCP_1_4_VRL_LENGTH_SIZE +
                      DRM_HDCP_1_4_DCP_SIG_SIZE)); [subst L; lia |].
  mstep. cbn [blob_data srm_blob]. mstep.
  assert (firstn (Z.to_nat sizeof_cp_srm_header) (srm_data header segs sig)
          = header) as ->.
  { unfold srm_data. rewrite <- Hhdr, Nat2Z.id, firstn_app, Nat.sub_diag.
    rewrite firstn_all. cbn [firstn]. apply app_nil_r. }
  mstep. rewrite Hid, Z.eqb_refl. cbn [negb].
  assert (srm_data header segs sig =
          header ++ u8 (Z.shiftr L 16) :: u8 (Z.shiftr L 8) :: u8 L ::
          vrl_payload segs ++ sig) as Hdata.
  { unfold srm_data, be24. rewrite Hvl. reflexivity. }
  assert (rd (srm_data header segs sig) sizeof_cp_srm_header
          = Some (u8 (Z.shiftr L 16))) as R0.
  { rewrite Hdata, (rd_app_at header) by lia.
    rewrite u8_small by apply u8_range. reflexivity. }
  assert (rd (srm_data header segs sig) (sizeof_cp_srm_header + 1)
          = Some (u8 (Z.shiftr L 8))) as R1.
  { rewrite Hdata.
    replace (header ++ u8 (Z.shiftr L 16) :: u8 (Z.shiftr L 8) :: u8 L ::
             vrl_payload segs ++ sig)
      with ((header ++ [u8 (Z.shiftr L 16)]) ++ u8 (Z.shiftr L 8) :: u8 L ::
            vrl_payload segs ++ sig)
      by (rewrite <- app_assoc; reflexivity).
    rewrite rd_app_at by (rewrite length_app; cbn [length]; lia).
    rewrite u8_small by apply u8_range. reflexivity. }
  assert (rd (srm_data header segs sig) (sizeof_cp_srm_header + 2)
          = Some (u8 L)) as R2.
  { rewrite Hdata.
    replace (header ++ u8 (Z.shiftr L 16) :: u8 (Z.shiftr L 8) :: u8 L ::
             vrl_payload segs ++ sig)
      with ((header ++ [u8 (Z.shiftr L 16); u8 (Z.shiftr L 8)]) ++ u8 L ::
            vrl_payload segs ++ sig)
      by (rewrite <- app_assoc; reflexivity).
    rewrite rd_app_at by (rewrite length_app; cbn [length]; lia).
    rewrite u8_small by apply u8_range. reflexivity. }
  assert (srm_data header segs sig =
          (header ++ [u8 (Z.shiftr L 16); u8 (Z.shiftr L 8); u8 L]) ++
          vrl_payload segs ++ sig) as Hdata'.
  { rewrite Hdata, <- app_assoc. reflexivity. }
  assert (sizeof_cp_srm_header + DRM_HDCP_1_4_VRL_LENGTH_SIZE =
          Z.of_nat (length (header ++ [u8 (Z.shiftr L 16); u8 (Z.shiftr L 8); u8 L])))
    as Hoff by (rewrite length_app; cbn [length]; lia).
  assert (intel_hdcp_get_revocated_ksv_count (srm_data header segs sig)
            (sizeof_cp_srm_header + DRM_HDCP_1_4_VRL_LENGTH_SIZE)
            (0 + Z.of_nat (length (vrl_payload segs)))
          = Walked (0 + Z.of_nat (length (concat segs)))) as Wc.
  { unfold intel_hdcp_get_revocated_ksv_count. rewrite Hdata', Hoff.
    apply count_walk_payload; try assumption; lia. }
  rewrite !Z.add_0_l in Wc.
  clear Hdata Hdata'.
  mstep. rewrite R0. mstep. rewrite R1. mstep. rewrite R2.
  rewrite be24_decode by (subst L; lia).
  mstep.
  destruct (Z.ltb_spec (sizeof_cp_srm_header + L) (sizeof_cp_srm_header + L));
    [lia |].
  destruct (Z.ltb_spec L (DRM_HDCP_1_4_VRL_LENGTH_SIZE + DRM_HDCP_1_4_DCP_SIG_SIZE));
    [subst L; lia |].
  cbn [orb].
  replace (u32 (L - (DRM_HDCP_1_4_VRL_LENGTH_SIZE + DRM_HDCP_1_4_DCP_SIG_SIZE)))
    with (Z.of_nat (length (vrl_payload segs)))
    by (rewrite u32_small; subst L; lia).
  mstep.
  assert (truthy (Z.of_nat (length (vrl_payload segs))) = true) as ->.
  { unfold truthy. destruct (Z.eqb_spec (Z.of_nat (length (vrl_payload segs))) 0);
      [lia | reflexivity]. }
  cbn [negb].
  mstep. rewrite Wc, Hks. cbn [length]. mrun. reflexivity.
Qed.

(** X14.  An SRM that revokes nothing replaces nothing.  When a commit's
    blob is a well-formed SRM whose VRLs hold no KSV, the update records the
    blob identifier and leaves the revoked list and its count as the
    previous SRM left them: the KSVs revoked before stay revoked. *)
Theorem update_srm_empty_keeps_revocations id_ header segs sig (s : state H) h1 :
  Z.of_nat (length header) = sizeof_cp_srm_header ->
  srm_id header = DRM_HDCP_1_4_SRM_ID ->
  DRM_HDCP_1_4_VRL_LENGTH_SIZE = 3 ->
  Z.of_nat (length sig) = DRM_HDCP_1_4_DCP_SIG_SIZE ->
  Forall wf_segment segs ->
  segs <> [] ->
  srm_ksvs segs = [] ->
  Z.of_nat (length (vrl_payload segs)) + 3 + DRM_HDCP_1_4_DCP_SIG_SIZE < 2 ^ 24 ->
  drm_property_lookup_blob id_ (hw s) = (Some (srm_blob header segs sig), h1) ->
  intel_hdcp_update_srm id_ s =
    (Next tt,
     {| hw := h1; conn := with_srm_blob_id id_ (conn s);
        trace := trace s ++
                 [EvLog "SRM ID: 0x%x, SRM Ver: 0x%x, SRM Gen No: 0x%x";
                  EvLog "Revocated KSV count is 0"] |}) /\
  forall ksvs n,
    intel_hdcp_ksvs_revocated
      (revocated_ksv_list (with_srm_blob_id id_ (conn s)))
      (revocated_ksv_cnt (with_srm_blob_id id_ (conn s))) ksvs n =
    intel_hdcp_ksvs_revocated (revocated_ksv_list (conn s))
      (revocated_ksv_cnt (conn s)) ksvs n.
Proof.
  intros Hhdr Hid Hvl Hsig Hwf Hne Hks Hlen Hblob.
  split; [| reflexivity].
  unfold intel_hdcp_update_srm. rewrite bind_lift, Hblob. cbn [fst snd].
  cbn [blob_data srm_blob]. rewrite bind_call.
  rewrite (parse_srm_synthetic_empty header segs sig _ Hhdr Hid Hvl Hsig Hwf
             Hne Hks Hlen).
  change (truthy 0) with false. cbn [negb]. rewrite when_run, modify_conn_run.
  unfold emit, set_hw, set_conn. cbn [hw conn trace].
  rewrite <- !app_assoc. reflexivity.
Qed.

End EmptySrm.

(** ** What a successful authentication has seen *)

Section Confirmation.

Context {regs : i915_reg_h} {drm : drm_hdcp_h} {H : Type} {plat : platform H}
        {core : drm_core H}.

Lemma truthy_true_nonzero r : truthy r = true -> r <> 0.
Proof. unfold truthy. destruct (Z.eqb_spec r 0); [discriminate | auto]. Qed.

Lemma auth_send_an_returns shim p (s s' : state H) r :
  auth_send_an shim p s = (Return r, s') -> r <> 0.
Proof.
  intros Hrun. unfold auth_send_an in Hrun.
  destruct (hdcp_capable shim) as [capable |];
    mgo_in Hrun; try discriminate; injection Hrun as <- <-;
    first [ apply truthy_true_nonzero; assumption | discriminate ].
Qed.

Lemma bksv_loop_returns n shim : forall i u (s s' : state H) r,
  bksv_loop n shim i u s = (Return r, s') -> r <> 0.
Proof.
  induction n as [| n IH]; intros i u s s' r Hrun; cbn [bksv_loop] in Hrun.
  - discriminate.
  - mgo_in Hrun; try discriminate.
    + injection Hrun as <- <-. apply truthy_true_nonzero. assumption.
    + exact (IH _ _ _ _ _ Hrun).
Qed.

(** The loop over Ri' ends early only on a match. *)
Lemma ri_loop_outcome n shim p : forall i (s s' : state H) x,
  ri_loop n shim p i s = (x, s') ->
  match x with
  | Next i' =>
      i' = i + Z.of_nat n \/
      (i' < i + Z.of_nat n /\
       exists h, fst (wait_for (PORT_HDCP_STATUS p)
                        (Z.lor HDCP_STATUS_RI_MATCH HDCP_STATUS_ENC) 1 h) = 0)
  | Return r => r <> 0
  | Abort => True
  end.
Proof.
  induction n as [| n IH]; intros i s s' x Hrun; cbn [ri_loop] in Hrun.
  - rewrite ret_run in Hrun. injection Hrun as <- <-. left. lia.
  - mgo_in Hrun.
    + injection Hrun as <- <-. apply truthy_true_nonzero. assumption.
    + injection Hrun as <- <-. right. split; [lia |].
      eexists. apply truthy_false_zero.
      match goal with
      | Hw : negb (truthy _) = true |- _ =>
          apply negb_true_iff in Hw; exact Hw
      end.
    + apply IH in Hrun. destruct x as [i' | r | ]; [| exact Hrun | exact I].
      destruct Hrun as [-> | [Hlt He]]; [left; lia | right; split; [lia | exact He]].
Qed.

Lemma auth_send_an_next shim p (s s' : state H) t :
  auth_send_an shim p s = (Next t, s') ->
  exists h, fst (intel_wait_for_register (PORT_HDCP_STATUS p)
                   HDCP_STATUS_AN_READY HDCP_STATUS_AN_READY 1 h) = 0.
Proof.
  intros Hrun. unfold auth_send_an in Hrun.
  destruct (hdcp_capable shim) as [capable |];
    mgo_in Hrun; try discriminate;
    eexists; apply truthy_false_zero; eassumption.
Qed.

(** A run of Part 1 ends in a return, and a return of 0 has the word of
    the hardware. *)
Lemma auth_outcome (s s' : state H) x p :
  dig_port (conn s) = Some p ->
  intel_hdcp_auth s = (x, s') ->
  match x with
  | Next _ => False
  | Return r => r = 0 -> confirmed p
  | Abort => True
  end.
Proof.
  intros Hp Hrun. unfold intel_hdcp_auth in Hrun.
  mstep_in Hrun. rewrite Hp in Hrun. mstep_in Hrun.
  destruct (hdcp_shim (conn s)) as [shim |];
    [| injection Hrun as <- <-; exact I].
  unfold bind at 1 in Hrun.
  destruct (auth_send_an shim p s) as [[t0 | r |] s1] eqn:Ea;
    [| injection Hrun as <- <-; intros ->; exfalso;
       exact (auth_send_an_returns _ _ _ _ _ Ea eq_refl)
     | injection Hrun as <- <-; exact I].
  pose proof (auth_send_an_next _ _ _ _ _ Ea) as Han.
  unfold auth_from_bksv in Hrun. cbv zeta in Hrun. unfold bind at 1 in Hrun.
  destruct (bksv_loop (Z.to_nat 2) shim 0 (zeros 8) s1) as [[[i u] | r |] s2]
    eqn:Eb;
    [| injection Hrun as <- <-; intros ->; exfalso;
       exact (bksv_loop_returns _ _ _ _ _ _ _ Eb eq_refl)
     | injection Hrun as <- <-; exact I].
  mgo_in Hrun.
  all: try (injection Hrun as <- <-;
            first [ exact I
                  | intros E; discriminate E
                  | intros E;
                    match goal with
                    | Ht : truthy ?z = true |- _ =>
                        rewrite E in Ht; discriminate Ht
                    end ]).
  all: match type of Hrun with
       | bind (ri_loop ?n ?sh ?q ?i0) _ ?st = _ =>
           unfold bind at 1 in Hrun;
           destruct (ri_loop n sh q i0 st) as [[i' | ri |] s3] eqn:Er;
           [ pose proof (ri_loop_outcome _ _ _ _ _ _ _ Er) as Ho;
             cbv beta iota in Ho
           | injection Hrun as <- <-; intros ->; exfalso;
             exact (ri_loop_outcome _ _ _ _ _ _ _ Er eq_refl)
           | injection Hrun as <- <-; exact I ]
       end.
  all: mgo_in Hrun.
  all: injection Hrun as <- <-.
  all: try exact I.
  all: try (intros E; discriminate E).
  all: try (intros E;
            match goal with
            | Ht : truthy ?z = true |- _ => rewrite E in Ht; discriminate Ht
            end).
  all: intros _.
  all: repeat match goal with
              | Hn : negb _ = false |- _ => apply negb_false_iff in Hn
              | Ht : truthy _ = true |- _ => clear Ht
              end.
  all: split; [exact Han |].
  all: split; [eexists; apply truthy_false_zero; eassumption |].
  all: split;
    [ destruct Ho as [-> | [_ Ho]];
      [ match goal with Hi : (0 + Z.of_nat (Z.to_nat 3) =? 3) = false |- _ =>
          discriminate Hi end
      | exact Ho ]
    | eexists; apply truthy_false_zero; eassumption ].
Qed.

Lemma call_but_downstream (f : M Z) (s s' : state H) x :
  keeps (on_conn same_but_downstream) f ->
  call f s = (x, s') ->
  same_but_downstream (conn s) (conn s').
Proof.
  intros K E. specialize (K s). unfold call in E.
  destruct (f s) as [[a | a |] s0]; inversion E; subst; exact K.
Qed.

Lemma auth_loop_confirmed n p : forall r0 (s s' : state H) r,
  dig_port (conn s) = Some p ->
  auth_loop n r0 s = (Return r, s') ->
  confirmed p.
Proof.
  induction n as [| n IH]; intros r0 s s' r Hp Hrun; cbn [auth_loop] in Hrun.
  - discriminate Hrun.
  - unfold bind at 1 in Hrun.
    destruct (call intel_hdcp_auth s) as [[r1 | r1 |] s1] eqn:Ea;
      [| exfalso; exact (call_never_returns _ _ _ _ Ea) | discriminate Hrun].
    pose proof (call_but_downstream _ _ _ _ auth_but_downstream Ea)
      as (Hp1 & _).
    destruct (truthy r1) eqn:Er; cbn [negb] in Hrun.
    + mstep_in Hrun. unfold bind at 1 in Hrun.
      destruct (call _intel_hdcp_disable
                  (emit (EvLog "HDCP Auth failure (%d)") s1))
        as [[r2 | r2 |] s2] eqn:Ed;
        [| exfalso; exact (call_never_returns _ _ _ _ Ed) | discriminate Hrun].
      pose proof (call_but_downstream _ _ _ _ _disable_but_downstream Ed)
        as (Hp2 & _).
      cbn [conn emit] in Hp2.
      apply (IH r1 s2 s' r); [congruence | exact Hrun].
    + apply truthy_false_zero in Er. subst r1.
      apply call_inv in Ea. destruct Ea as [Ea | Ea].
      * exfalso. exact (auth_outcome _ _ _ _ Hp Ea).
      * exact (auth_outcome _ _ _ _ Hp Ea eq_refl).
Qed.

(** X15.  A session is enabled only on the word of the hardware.  A run of
    Part 1 that returns 0, and a run of the internal enable that returns 0
    and so promotes the session, has waited for An, for R0, for the match
    of Ri' and for encryption on the port of the connector, and each of
    these waits has returned 0. *)
Theorem enable_success_is_confirmed (s s' : state H) p :
  dig_port (conn s) = Some p ->
  (intel_hdcp_auth s = (Return 0, s') -> confirmed p) /\
  (_intel_hdcp_enable s = (Return 0, s') -> confirmed p).
Proof.
  intros Hp. split.
  - intros Hrun. exact (auth_outcome _ _ _ _ Hp Hrun eq_refl).
  - intros Hrun. unfold _intel_hdcp_enable in Hrun.
    mstep_in Hrun. unfold bind at 1 in Hrun.
    destruct (hdcp_key_loadable (emit (EvLog enabling_msg) s))
      as [[loadable | r1 |] s1] eqn:Ek; try discriminate Hrun.
    2:{ exfalso. unfold hdcp_key_loadable in Ek. mstep_in Ek.
        match type of Ek with
        | context [find ?f ?l] => destruct (find f l)
        end; mrun_in Ek; discriminate Ek. }
    pose proof (key_loadable_but_downstream (emit (EvLog enabling_msg) s)) as K1.
    rewrite Ek in K1. unfold on_conn in K1. cbn [snd conn emit] in K1.
    destruct K1 as (K1 & _).
    destruct loadable; cbn [negb] in Hrun;
      [| mrun_in Hrun; discriminate Hrun].
    mstep_in Hrun. unfold bind at 1 in Hrun.
    destruct (load_keys_loop (Z.to_nat KEY_LOAD_TRIES) 0 s1)
      as [[r2 | r2 |] s2] eqn:El; try discriminate Hrun.
    2:{ injection Hrun as -> _. exfalso.
        exact (load_keys_loop_never_returns _ _ _ _ _ El). }
    pose proof (load_keys_loop_but_downstream (Z.to_nat KEY_LOAD_TRIES) 0 s1)
      as K2.
    rewrite El in K2. unfold on_conn in K2. cbn [snd] in K2.
    destruct K2 as (K2 & _).
    destruct (truthy r2) eqn:Er2.
    { mrun_in Hrun. injection Hrun as -> _. discriminate Er2. }
    mstep_in Hrun. unfold bind at 1 in Hrun.
    destruct (auth_loop (Z.to_nat 3) r2 s2) as [[r3 | r3 |] s3] eqn:Eauth;
      try discriminate Hrun.
    + apply auth_loop_outcome in Eauth.
      destruct Eauth as [[[Hn _] | Ht] _]; [discriminate Hn |].
      mrun_in Hrun. injection Hrun as -> _. discriminate Ht.
    + apply (auth_loop_confirmed _ p _ _ _ _ (eq_trans K2 (eq_trans K1 Hp)) Eauth).
Qed.

End Confirmation.

(** ** Keys that cannot be loaded *)

Section PowerWell.

Context {regs : i915_reg_h} {drm : drm_hdcp_h} {H : Type} {plat : platform H}
        {core : drm_core H}.

(** X16.  Without its power well the display is left alone.  When the
    power well of the display is not found, or is found disabled, the
    internal enable returns -ENXIO after it has asked for the state of the
    well under the lock of the power domains: no register is read or
    written, the shim is not called and the connector is untouched. *)
Theorem _intel_hdcp_enable_power_well_off (s : state H) h1 :
  match find (fun w => id w =? (if IS_HASWELL || IS_BROADWELL
                                then HSW_DISP_PW_GLOBAL else SKL_DISP_PW_1))
             power_wells with
  | Some w => is_enabled w (hw s) = (false, h1)
  | None => h1 = hw s
  end ->
  _intel_hdcp_enable s =
    (Return (- ENXIO),
     {| hw := h1; conn := conn s;
        trace := trace s ++
                 [EvLog enabling_msg;
                  EvMutexLock power_domains_lock;
                  EvMutexUnlock power_domains_lock;
                  EvLog "HDCP key Load is not possible"] |}).
Proof.
  intros Hw. unfold _intel_hdcp_enable, hdcp_key_loadable. cbv zeta.
  mstep. rewrite bind_bind. mstep. rewrite bind_bind.
  destruct (find _ power_wells) as [w |].
  - mstep. cbn [hw emit]. rewrite Hw. cbn [fst snd]. mgo.
    unfold emit, set_hw. cbn [hw conn trace]. rewrite <- !app_assoc.
    reflexivity.
  - subst h1. mgo.
    unfold emit, set_hw. cbn [hw conn trace]. rewrite <- !app_assoc.
    destruct s. reflexivity.
Qed.

(** X17.  Keys are reported loaded by the hardware.  A load that returns
    0 has either read a key status with the done and the status bit set,
    and then has written no register, or has waited for the done bit, seen
    the wait return 0 with the status bit set, and then sent Aksv to the
    display as its last action. *)
Theorem load_keys_success_means_loaded (s s' : state H) :
  intel_hdcp_load_keys s = (Return 0, s') ->
  (truthy (Z.land (fst (I915_READ HDCP_KEY_STATUS (hw s))) HDCP_KEY_LOAD_DONE)
     = true /\
   truthy (Z.land (fst (I915_READ HDCP_KEY_STATUS (hw s))) HDCP_KEY_LOAD_STATUS)
     = true /\
   trace s' = trace s) \/
  ((exists h,
       fst (fst (__intel_wait_for_register HDCP_KEY_STATUS HDCP_KEY_LOAD_DONE
                   HDCP_KEY_LOAD_DONE 10 1 h)) = 0 /\
       truthy (Z.land (snd (fst (__intel_wait_for_register HDCP_KEY_STATUS
                                   HDCP_KEY_LOAD_DONE HDCP_KEY_LOAD_DONE 10 1 h)))
                 HDCP_KEY_LOAD_STATUS) = true) /\
   exists t, trace s' = t ++ [EvWrite HDCP_KEY_CONF HDCP_AKSV_SEND_TRIGGER]).
Proof.
  intros Hrun. unfold intel_hdcp_load_keys in Hrun.
  mstep_in Hrun. mstep_in Hrun. mstep_in Hrun. mstep_in Hrun.
  - mstep_in Hrun. injection Hrun as <-. left.
    match goal with
    | Hb : _ && _ = true |- _ => apply andb_true_iff in Hb; destruct Hb
    end.
    repeat split; assumption.
  - right. mgo_in Hrun; try discriminate Hrun.
    all: try (exfalso; injection Hrun as Hz _;
              match goal with
              | Ht : truthy ?z = true |- _ => rewrite Hz in Ht; discriminate Ht
              end).
    all: injection Hrun as <-;
      repeat match goal with
             | Hn : negb _ = false |- _ => apply negb_false_iff in Hn
             end;
      (split;
       [ eexists;
         match goal with
         | Hp : fst (__intel_wait_for_register _ _ _ _ _ ?h) = (?r, ?v),
           Hr : truthy ?r = false, Hv : truthy (Z.land ?v _) = true |- _ =>
             rewrite Hp; cbn [fst snd]; split;
             [apply truthy_false_zero; exact Hr | exact Hv]
         end
       | cbn [trace emit set_hw]; eexists; reflexivity ]).
Qed.

End PowerWell.

Section PowerWellRuns.

#[local] Existing Instance Bench.regs.
#[local] Existing Instance Bench.drm.
#[local] Existing Instance BenchHooks.dark.
#[local] Existing Instance BenchHooks.core.

(** A run of X16 on a platform that has no power well. *)
Lemma _intel_hdcp_enable_power_well_off_witness :
  _intel_hdcp_enable (BenchHooks.ready_start DESIRED) =
    (Return (-6),
     {| hw := BenchHooks.ready; conn := Bench.connector DESIRED Null 0;
        trace := [EvLog enabling_msg;
                  EvMutexLock power_domains_lock;
                  EvMutexUnlock power_domains_lock;
                  EvLog "HDCP key Load is not possible"] |}).
Proof.
  exact (_intel_hdcp_enable_power_well_off (plat := BenchHooks.dark)
           (BenchHooks.ready_start DESIRED) BenchHooks.ready eq_refl).
Defined.

End PowerWellRuns.

(** ** Retry budgets *)

Lemma weight_app w t1 t2 : weight w (t1 ++ t2) = weight w t1 + weight w t2.
Proof.
  induction t1 as [| e t1 IH]; cbn [app weight fold_right]; [reflexivity |].
  fold (weight w (t1 ++ t2)). fold (weight w t1). rewrite IH. lia.
Qed.

Section Budget.

Context {regs : i915_reg_h} {drm : drm_hdcp_h} {H : Type} {plat : platform H}
        {core : drm_core H}.

Local Abbreviation M := (@M H).

(** A weight that charges the three calls of the shim that Part 1 repeats:
    the write of An and Aksv, the read of Bksv and the read of Ri'. *)
Variable w : event -> Z.
Variables ka kb kr : Z.
Hypothesis Hka : 0 <= ka.
Hypothesis Hkb : 0 <= kb.
Hypothesis Hkr : 0 <= kr.
Hypothesis Hw :
  forall e, w e <= match e with
                   | EvShim SHIM_write_an_aksv => ka
                   | EvShim SHIM_read_bksv => kb
                   | EvShim SHIM_read_ri_prime => kr
                   | _ => 0
                   end.

Ltac budget :=
  repeat match goal with
         | |- context [w ?e] =>
             let x := fresh "x" in
             let Hx := fresh "Hx" in
             pose proof (Hw e) as Hx; cbv beta iota in Hx;
             set (x := w e) in *; clearbody x
         end;
  lia.

Lemma adds_quiet {A} (m : M A) n :
  (forall s, trace (snd (m s)) = trace s) -> 0 <= n -> adds w n m.
Proof.
  intros Hq Hn s. exists []. rewrite app_nil_r. split; [apply Hq | exact Hn].
Qed.

Lemma adds_weaken {A} (m : M A) n n' : adds w n m -> n <= n' -> adds w n' m.
Proof.
  intros Hm Hn s. destruct (Hm s) as (t & Ht & Hwt). exists t.
  split; [exact Ht | lia].
Qed.

Lemma adds_ext {A} (m m' : M A) n :
  (forall s, m s = m' s) -> adds w n m' -> adds w n m.
Proof. intros He Hm s. rewrite He. apply Hm. Qed.

Lemma adds_ret {A} (a : A) n : 0 <= n -> adds w n (@ret H A a).
Proof. apply adds_quiet. reflexivity. Qed.

Lemma adds_return {A} r n : 0 <= n -> adds w n (@return_ H A r).
Proof. apply adds_quiet. reflexivity. Qed.

Lemma adds_abort {A} n : 0 <= n -> adds w n (@abort H A).
Proof. apply adds_quiet. reflexivity. Qed.

Lemma adds_get_conn n : 0 <= n -> adds w n (@get_conn H).
Proof. apply adds_quiet. reflexivity. Qed.

Lemma adds_modify_conn g n : 0 <= n -> adds w n (@modify_conn H g).
Proof. apply adds_quiet. reflexivity. Qed.

Lemma adds_lift {A} (f : H -> A * H) n : 0 <= n -> adds w n (lift f).
Proof.
  apply adds_quiet. intros s. unfold lift. destruct (f (hw s)). reflexivity.
Qed.

Lemma adds_i915_read r n : 0 <= n -> adds w n (i915_read r).
Proof. apply adds_lift. Qed.

Lemma adds_deref {A} (o : option A) n : 0 <= n -> adds w n (@deref H A o).
Proof. apply adds_quiet. destruct o; reflexivity. Qed.

Lemma adds_walked {A} (o : walk A) n : 0 <= n -> adds w n (@walked H A o).
Proof. apply adds_quiet. destruct o; reflexivity. Qed.

Lemma adds_ev e n : w e <= n -> adds w n (@ev H e).
Proof.
  intros Hn s. exists [e]. split; [reflexivity |].
  cbn [weight fold_right]. lia.
Qed.

Lemma adds_drm_log msg n : 0 <= n -> adds w n (@drm_log H msg).
Proof. intros Hn. apply adds_ev. budget. Qed.

Lemma adds_kfree p n : 0 <= n -> adds w n (@kfree H p).
Proof.
  intros Hn. destruct p; first [apply adds_abort; exact Hn | apply adds_ev; budget].
Qed.

Lemma adds_i915_write r v n : 0 <= n -> adds w n (i915_write r v).
Proof.
  intros Hn s. exists [EvWrite r v]. split; [reflexivity |].
  cbn [weight fold_right]. budget.
Qed.

Lemma adds_bind {A B} (m : M A) (k : A -> M B) n1 n :
  adds w n1 m -> n1 <= n -> (forall a, adds w (n - n1) (k a)) ->
  adds w n (bind m k).
Proof.
  intros Hm Hn Hk s. unfold bind. destruct (Hm s) as (t1 & Ht1 & Hw1).
  destruct (m s) as [[a | r |] s1]; cbn [snd] in Ht1 |- *.
  - destruct (Hk a s1) as (t2 & Ht2 & Hw2). exists (t1 ++ t2).
    rewrite Ht2, Ht1, app_assoc, weight_app. split; [reflexivity | lia].
  - exists t1. split; [exact Ht1 | lia].
  - exists t1. split; [exact Ht1 | lia].
Qed.

Lemma adds_shim_call {A} op (f : H -> A * H) n :
  w (EvShim op) <= n -> adds w n (shim_call op f).
Proof.
  intros Hn. unfold shim_call.
  apply (adds_bind _ _ (w (EvShim op))); [apply adds_ev; lia | exact Hn |].
  intros _. apply adds_lift. lia.
Qed.

Lemma adds_when b (body : M unit) n :
  adds w n body -> 0 <= n -> adds w n (when b body).
Proof. intros Hb Hn. destruct b; [exact Hb | apply adds_ret; exact Hn]. Qed.

Lemma adds_call (f : M Z) n : adds w n f -> adds w n (call f).
Proof.
  intros Hf s. destruct (Hf s) as (t & Ht & Hwt). exists t. unfold call.
  destruct (f s) as [[a | r |] s1]; split; assumption.
Qed.

Lemma adds_out {A} r n : 0 <= n -> adds w n (@out H A r).
Proof.
  intros Hn. unfold out.
  apply (adds_bind _ _ 0); [apply adds_ev; budget | exact Hn |].
  intros _. apply adds_return. lia.
Qed.

Lemma adds_bind_assoc {A B C} (m : M A) (k1 : A -> M B) (k2 : B -> M C) n :
  adds w n (bind m (fun a => bind (k1 a) k2)) ->
  adds w n (bind (bind m k1) k2).
Proof. apply adds_ext. intros s. apply bind_bind. Qed.

(** A statement that adds nothing leaves the budget to what follows it. *)
Lemma adds_bind_0 {A B} (m : M A) (k : A -> M B) n :
  adds w 0 m -> 0 <= n -> (forall a, adds w n (k a)) -> adds w n (bind m k).
Proof.
  intros Hm Hn Hk. apply (adds_bind _ _ 0); [exact Hm | exact Hn |].
  intros a. rewrite Z.sub_0_r. apply Hk.
Qed.

Lemma adds_ret_0 {A} (a : A) : adds w 0 (@ret H A a).
Proof. apply adds_ret. lia. Qed.
Lemma adds_return_0 {A} r : adds w 0 (@return_ H A r).
Proof. apply adds_return. lia. Qed.
Lemma adds_abort_0 {A} : adds w 0 (@abort H A).
Proof. apply adds_abort. lia. Qed.
Lemma adds_get_conn_0 : adds w 0 (@get_conn H).
Proof. apply adds_get_conn. lia. Qed.
Lemma adds_modify_conn_0 g : adds w 0 (@modify_conn H g).
Proof. apply adds_modify_conn. lia. Qed.
Lemma adds_lift_0 {A} (f : H -> A * H) : adds w 0 (lift f).
Proof. apply adds_lift. lia. Qed.
Lemma adds_i915_read_0 r : adds w 0 (i915_read r).
Proof. apply adds_i915_read. lia. Qed.
Lemma adds_deref_0 {A} (o : option A) : adds w 0 (@deref H A o).
Proof. apply adds_deref. lia. Qed.
Lemma adds_walked_0 {A} (o : walk A) : adds w 0 (@walked H A o).
Proof. apply adds_walked. lia. Qed.
Lemma adds_drm_log_0 msg : adds w 0 (@drm_log H msg).
Proof. apply adds_drm_log. lia. Qed.
Lemma adds_kfree_0 p : adds w 0 (@kfree H p).
Proof. apply adds_kfree. lia. Qed.
Lemma adds_i915_write_0 r v : adds w 0 (i915_write r v).
Proof. apply adds_i915_write. lia. Qed.
Lemma adds_out_0 {A} r : adds w 0 (@out H A r).
Proof. apply adds_out. lia. Qed.

(** An event that is not a call of the shim adds nothing. *)
Lemma adds_ev_0 e :
  match e with EvShim _ => False | _ => True end -> adds w 0 (@ev H e).
Proof.
  intros He. apply adds_ev. pose proof (Hw e) as Hx.
  destruct e; first [contradiction He | exact Hx].
Qed.

(** A call of the shim adds what its operation is charged. *)
Lemma adds_shim_call_charged {A} op (f : H -> A * H) :
  adds w (match op with
          | SHIM_write_an_aksv => ka
          | SHIM_read_bksv => kb
          | SHIM_read_ri_prime => kr
          | _ => 0
          end) (shim_call op f).
Proof.
  apply adds_shim_call. pose proof (Hw (EvShim op)) as Hx.
  destruct op; exact Hx.
Qed.

Create HintDb budget.
#[local] Hint Resolve adds_ret_0 adds_return_0 adds_abort_0 adds_get_conn_0
  adds_modify_conn_0 adds_lift_0 adds_i915_read_0 adds_deref_0 adds_walked_0
  adds_drm_log_0 adds_kfree_0 adds_i915_write_0 adds_out_0
  adds_shim_call_charged adds_call : budget.
#[local] Hint Extern 1 (adds _ _ (ev _)) =>
  apply adds_ev_0; exact I : budget.

(** The budget of a statement made of the statements above: what a
    statement has added is taken off the budget of what follows it. *)
Ltac adding :=
  repeat
    (cbv beta iota;
     lazymatch goal with
     | |- adds _ _ (bind (bind _ _) _) => apply adds_bind_assoc
     | |- adds _ _ (bind (when _ _) _) =>
         apply adds_bind_0; [apply adds_when; [| lia] | lia | intros ?]
     | |- adds _ _ (bind (if ?c then _ else _) _) =>
         apply adds_bind_0; [destruct c | lia | intros ?]
     | |- adds _ _ (bind (match ?x with _ => _ end) _) =>
         apply adds_bind_0; [destruct x | lia | intros ?]
     | |- adds _ _ (bind _ _) =>
         first [ apply adds_bind_0; [solve [eauto with budget] | lia | intros ?]
               | eapply adds_bind;
                 [solve [eauto with budget] | cbv beta iota; lia | intros ?] ]
     | |- adds _ _ (when _ _) => apply adds_when; [| lia]
     | |- adds _ _ (if ?c then _ else _) => destruct c
     | |- adds _ _ (let _ := _ in _) => cbv zeta
     | |- adds _ _ (match ?x with _ => _ end) => destruct x
     | |- adds _ _ _ =>
         eapply adds_weaken; [solve [eauto with budget] | cbv beta iota; lia]
     end).

(** *** The functions *)

Lemma adds_poll_ksv_fifo shim : adds w 0 (intel_hdcp_poll_ksv_fifo shim).
Proof. unfold intel_hdcp_poll_ksv_fifo. adding. Qed.
#[local] Hint Resolve adds_poll_ksv_fifo : budget.

Lemma adds_key_loadable : adds w 0 (hdcp_key_loadable (H := H)).
Proof. unfold hdcp_key_loadable. cbv zeta. adding. Qed.
#[local] Hint Resolve adds_key_loadable : budget.

Lemma adds_clear_keys : adds w 0 (intel_hdcp_clear_keys (H := H)).
Proof. unfold intel_hdcp_clear_keys. adding. Qed.
#[local] Hint Resolve adds_clear_keys : budget.

Lemma adds_load_keys : adds w 0 (intel_hdcp_load_keys (H := H)).
Proof. unfold intel_hdcp_load_keys. adding. Qed.
#[local] Hint Resolve adds_load_keys : budget.

Lemma adds_write_sha_text t : adds w 0 (intel_write_sha_text (H := H) t).
Proof. unfold intel_write_sha_text. adding. Qed.
#[local] Hint Resolve adds_write_sha_text : budget.

Lemma adds_get_repeater_ctl p : adds w 0 (intel_hdcp_get_repeater_ctl (H := H) p).
Proof. unfold intel_hdcp_get_repeater_ctl. adding. Qed.
#[local] Hint Resolve adds_get_repeater_ctl : budget.

Lemma adds_sha_write t idx : adds w 0 (sha_write (H := H) t idx).
Proof. unfold sha_write. adding. Qed.
#[local] Hint Resolve adds_sha_write : budget.

Lemma adds_sha_ksv_step rep_ctl ksv_fifo i st :
  adds w 0 (sha_ksv_step (H := H) rep_ctl ksv_fifo i st).
Proof. unfold sha_ksv_step. cbv zeta. adding. Qed.
#[local] Hint Resolve adds_sha_ksv_step : budget.

Lemma adds_sha_ksv_loop n : forall rep_ctl ksv_fifo i st,
  adds w 0 (sha_ksv_loop (H := H) n rep_ctl ksv_fifo i st).
Proof.
  induction n as [| n IH]; intros rep_ctl ksv_fifo i st; cbn [sha_ksv_loop].
  - adding.
  - eapply adds_bind; [apply adds_sha_ksv_step | lia | intros st'].
    apply IH.
Qed.
#[local] Hint Resolve adds_sha_ksv_loop : budget.

Lemma adds_sha_tail rep_ctl b0 b1 st :
  adds w 0 (sha_tail (H := H) rep_ctl b0 b1 st).
Proof. unfold sha_tail. cbv zeta. adding. Qed.
#[local] Hint Resolve adds_sha_tail : budget.

Lemma adds_sha_fill_loop fuel : forall idx,
  adds w 0 (sha_fill_loop (H := H) fuel idx).
Proof.
  induction fuel as [| fuel IH]; intros idx; cbn [sha_fill_loop].
  - adding.
  - destruct (u64 (Z.rem idx 64) <? 64 - 4); [| adding].
    eapply adds_bind; [apply adds_sha_write | lia | intros idx'].
    apply IH.
Qed.
#[local] Hint Resolve adds_sha_fill_loop : budget.

Lemma adds_sha_finish rep_ctl n b0 b1 st :
  adds w 0 (sha_finish (H := H) rep_ctl n b0 b1 st).
Proof. unfold sha_finish. adding. Qed.
#[local] Hint Resolve adds_sha_finish : budget.

Lemma adds_sha_frame p n ksv_fifo b0 b1 :
  adds w 0 (sha_frame (H := H) p n ksv_fifo b0 b1).
Proof. unfold sha_frame. adding. Qed.
#[local] Hint Resolve adds_sha_frame : budget.

Lemma adds_v_prime_loop n : forall shim i,
  adds w 0 (v_prime_loop (H := H) n shim i).
Proof.
  induction n as [| n IH]; intros shim i; cbn [v_prime_loop]; adding.
Qed.
#[local] Hint Resolve adds_v_prime_loop : budget.

Lemma adds_auth_downstream : adds w 0 (intel_hdcp_auth_downstream (H := H)).
Proof. unfold intel_hdcp_auth_downstream. cbv zeta. adding. Qed.
#[local] Hint Resolve adds_auth_downstream : budget.

Lemma adds_bksv_loop n : forall shim i u,
  adds w (Z.of_nat n * kb) (bksv_loop (H := H) n shim i u).
Proof.
  induction n as [| n IH]; intros shim i u; cbn [bksv_loop].
  - adding.
  - rewrite Nat2Z.inj_succ, Z.mul_succ_l.
    assert (0 <= Z.of_nat n * kb) by nia.
    cbv zeta. adding.
Qed.
#[local] Hint Resolve adds_bksv_loop : budget.

Lemma adds_ri_loop n : forall shim p i,
  adds w (Z.of_nat n * kr) (ri_loop (H := H) n shim p i).
Proof.
  induction n as [| n IH]; intros shim p i; cbn [ri_loop].
  - adding.
  - rewrite Nat2Z.inj_succ, Z.mul_succ_l.
    assert (0 <= Z.of_nat n * kr) by nia.
    cbv zeta. adding.
Qed.
#[local] Hint Resolve adds_ri_loop : budget.

Lemma adds_auth_send_an shim p : adds w ka (auth_send_an (H := H) shim p).
Proof. unfold auth_send_an. adding. Qed.
#[local] Hint Resolve adds_auth_send_an : budget.

Lemma adds_auth_from_bksv shim p t :
  adds w (2 * kb + 3 * kr) (auth_from_bksv (H := H) shim p t).
Proof.
  unfold auth_from_bksv. cbv zeta.
  change 2 with (Z.of_nat (Z.to_nat 2)) at 1.
  change 3 with (Z.of_nat (Z.to_nat 3)) at 1.
  adding.
Qed.
#[local] Hint Resolve adds_auth_from_bksv : budget.

Lemma adds_auth : adds w (ka + 2 * kb + 3 * kr) (intel_hdcp_auth (H := H)).
Proof. unfold intel_hdcp_auth. adding. Qed.
#[local] Hint Resolve adds_auth : budget.

Lemma adds__disable : adds w 0 (_intel_hdcp_disable (H := H)).
Proof. unfold _intel_hdcp_disable. adding. Qed.
#[local] Hint Resolve adds__disable : budget.

Lemma adds_load_keys_loop n : forall r,
  adds w 0 (load_keys_loop (H := H) n r).
Proof.
  induction n as [| n IH]; intros r; cbn [load_keys_loop]; adding.
Qed.
#[local] Hint Resolve adds_load_keys_loop : budget.

Lemma adds_auth_loop n : forall r,
  adds w (Z.of_nat n * (ka + 2 * kb + 3 * kr)) (auth_loop (H := H) n r).
Proof.
  induction n as [| n IH]; intros r; cbn [auth_loop].
  - adding.
  - rewrite Nat2Z.inj_succ, Z.mul_succ_l.
    assert (0 <= Z.of_nat n * (ka + 2 * kb + 3 * kr)) by nia.
    adding.
Qed.
#[local] Hint Resolve adds_auth_loop : budget.

Lemma adds__enable :
  adds w (3 * (ka + 2 * kb + 3 * kr)) (_intel_hdcp_enable (H := H)).
Proof.
  unfold _intel_hdcp_enable. cbv zeta.
  change 3 with (Z.of_nat (Z.to_nat 3)) at 1.
  adding.
Qed.
#[local] Hint Resolve adds__enable : budget.

Lemma adds_check_link :
  adds w (3 * (ka + 2 * kb + 3 * kr)) (intel_hdcp_check_link (H := H)).
Proof. unfold intel_hdcp_check_link. adding. Qed.
#[local] Hint Resolve adds_check_link : budget.

Lemma adds_enable_work :
  adds w (3 * (ka + 2 * kb + 3 * kr)) (intel_hdcp_enable_work (H := H)).
Proof. unfold intel_hdcp_enable_work. adding. Qed.

Lemma adds_check_work :
  adds w (3 * (ka + 2 * kb + 3 * kr)) (intel_hdcp_check_work (H := H)).
Proof. unfold intel_hdcp_check_work. adding. Qed.

End Budget.

Section RetryBudgets.

Context {regs : i915_reg_h} {drm : drm_hdcp_h} {H : Type} {plat : platform H}
        {core : drm_core H}.

Lemma calls_write_an_aksv e :
  calls SHIM_write_an_aksv e <=
  match e with
  | EvShim SHIM_write_an_aksv => 1
  | EvShim SHIM_read_bksv => 0
  | EvShim SHIM_read_ri_prime => 0
  | _ => 0
  end.
Proof. destruct e as [| op | | | | | | | |]; try destruct op; cbn; lia. Qed.

Lemma calls_read_bksv e :
  calls SHIM_read_bksv e <=
  match e with
  | EvShim SHIM_write_an_aksv => 0
  | EvShim SHIM_read_bksv => 1
  | EvShim SHIM_read_ri_prime => 0
  | _ => 0
  end.
Proof. destruct e as [| op | | | | | | | |]; try destruct op; cbn; lia. Qed.

Lemma calls_read_ri_prime e :
  calls SHIM_read_ri_prime e <=
  match e with
  | EvShim SHIM_write_an_aksv => 0
  | EvShim SHIM_read_bksv => 0
  | EvShim SHIM_read_ri_prime => 1
  | _ => 0
  end.
Proof. destruct e as [| op | | | | | | | |]; try destruct op; cbn; lia. Qed.

(** X18.  Retries are bounded.  No run of Part 1 writes An and Aksv more
    than once, reads Bksv more than twice or reads Ri' more than three
    times; no run of the internal enable, of the link check, of the enable
    work or of the periodic check makes more than three attempts, and so
    none does more than three such writes, six such reads of Bksv and nine
    reads of Ri', whatever the receiver answers. *)
Theorem retries_are_bounded :
  within_retry_budget 1 (intel_hdcp_auth (H := H)) /\
  within_retry_budget 3 (_intel_hdcp_enable (H := H)) /\
  within_retry_budget 3 (intel_hdcp_check_link (H := H)) /\
  within_retry_budget 3 (intel_hdcp_enable_work (H := H)) /\
  within_retry_budget 3 (intel_hdcp_check_work (H := H)).
Proof.
  unfold within_retry_budget.
  repeat match goal with |- _ /\ _ => split end.
  - exact (adds_auth _ 1 0 0 ltac:(lia) ltac:(lia) ltac:(lia) calls_write_an_aksv).
  - exact (adds_auth _ 0 1 0 ltac:(lia) ltac:(lia) ltac:(lia) calls_read_bksv).
  - exact (adds_auth _ 0 0 1 ltac:(lia) ltac:(lia) ltac:(lia) calls_read_ri_prime).
  - exact (adds__enable _ 1 0 0 ltac:(lia) ltac:(lia) ltac:(lia) calls_write_an_aksv).
  - exact (adds__enable _ 0 1 0 ltac:(lia) ltac:(lia) ltac:(lia) calls_read_bksv).
  - exact (adds__enable _ 0 0 1 ltac:(lia) ltac:(lia) ltac:(lia) calls_read_ri_prime).
  - exact (adds_check_link _ 1 0 0 ltac:(lia) ltac:(lia) ltac:(lia) calls_write_an_aksv).
  - exact (adds_check_link _ 0 1 0 ltac:(lia) ltac:(lia) ltac:(lia) calls_read_bksv).
  - exact (adds_check_link _ 0 0 1 ltac:(lia) ltac:(lia) ltac:(lia) calls_read_ri_prime).
  - exact (adds_enable_work _ 1 0 0 ltac:(lia) ltac:(lia) ltac:(lia) calls_write_an_aksv).
  - exact (adds_enable_work _ 0 1 0 ltac:(lia) ltac:(lia) ltac:(lia) calls_read_bksv).
  - exact (adds_enable_work _ 0 0 1 ltac:(lia) ltac:(lia) ltac:(lia) calls_read_ri_prime).
  - exact (adds_check_work _ 1 0 0 ltac:(lia) ltac:(lia) ltac:(lia) calls_write_an_aksv).
  - exact (adds_check_work _ 0 1 0 ltac:(lia) ltac:(lia) ltac:(lia) calls_read_bksv).
  - exact (adds_check_work _ 0 0 1 ltac:(lia) ltac:(lia) ltac:(lia) calls_read_ri_prime).
Qed.

End RetryBudgets.

(** ** Runs on the bench *)

Section BenchRuns.

#[local] Existing Instance Bench.regs.
#[local] Existing Instance Bench.drm.
#[local] Existing Instance Bench.plat.
#[local] Existing Instance BenchHooks.core.

(** A run of X11: the store revokes the KSV the receiver answers with. *)
Lemma auth_revoked_bksv_witness :
  intel_hdcp_auth BenchHooks.revoked_receiver_start =
    (Return (-1),
     {| hw := BenchHooks.ready;
        conn := Bench.connector DESIRED (Live BenchHooks.good_ksv) 1;
        trace := [EvWrite (PORT_HDCP_ANINIT PORT_B) 0;
                  EvWrite (PORT_HDCP_ANINIT PORT_B) 0;
                  EvWrite (PORT_HDCP_CONF PORT_B) 1;
                  EvShim SHIM_write_an_aksv;
                  EvShim SHIM_read_bksv;
                  EvLog "BKSV is revocated"] |}).
Proof.
  refine (auth_revoked_bksv (plat := Bench.plat)
            BenchHooks.revoked_receiver_start
            (snd (auth_send_an Bench.shim PORT_B
                    BenchHooks.revoked_receiver_start))
            PORT_B Bench.shim 0 BenchHooks.good_ksv BenchHooks.ready
            [BenchHooks.good_ksv] eq_refl eq_refl _ eq_refl _ _ eq_refl eq_refl
            _ _).
  - vm_compute. reflexivity.
  - split; [reflexivity |]. repeat constructor; vm_compute; discriminate.
  - vm_compute. reflexivity.
  - repeat constructor; vm_compute; discriminate.
  - left. reflexivity.
Defined.

(** A run of X12: the store revokes the KSV of the one device behind the
    repeater. *)
Lemma auth_downstream_revoked_fifo_witness :
  fst (intel_hdcp_auth_downstream BenchHooks.revoked_device_start)
    = Return (-1) /\
  trace (snd (intel_hdcp_auth_downstream BenchHooks.revoked_device_start)) =
    [EvShim SHIM_read_ksv_ready; EvShim SHIM_read_bstatus; EvKzalloc 5;
     EvShim SHIM_read_ksv_fifo; EvLog "Revocated Ksv(s) in ksv_fifo"].
Proof.
  assert (E := auth_downstream_revoked_fifo (plat := Bench.plat)
            BenchHooks.revoked_device_start PORT_B Bench.shim [1; 0]
            BenchHooks.revoked_device BenchHooks.revoked_device
            BenchHooks.revoked_device BenchHooks.revoked_device
            [BenchHooks.good_ksv] [BenchHooks.good_ksv] BenchHooks.good_ksv
            eq_refl eq_refl eq_refl eq_refl eq_refl eq_refl eq_refl eq_refl
            eq_refl).
  rewrite E.
  - split; reflexivity.
  - repeat constructor; vm_compute; discriminate.
  - reflexivity.
  - reflexivity.
  - repeat constructor; vm_compute; discriminate.
  - left. reflexivity.
  - left. reflexivity.
Defined.

(** A run of X13: the SRM that revokes one KSV. *)
Lemma parse_srm_installs_whole_entries_witness :
  exists l,
    revocated_ksv_list
      (conn (snd (intel_hdcp_parse_srm BenchSrm.one_ksv BenchSrm.quiet_start)))
      = Live l /\
    0 < revocated_ksv_cnt
          (conn (snd (intel_hdcp_parse_srm BenchSrm.one_ksv
                        BenchSrm.quiet_start))) /\
    Z.of_nat (length l) =
      5 * revocated_ksv_cnt
            (conn (snd (intel_hdcp_parse_srm BenchSrm.one_ksv
                          BenchSrm.quiet_start))).
Proof.
  destruct (parse_srm_installs_whole_entries (plat := Bench.plat)
              BenchSrm.one_ksv BenchSrm.quiet_start
              (snd (intel_hdcp_parse_srm BenchSrm.one_ksv BenchSrm.quiet_start)))
    as [E | E].
  - vm_compute. discriminate.
  - vm_compute. reflexivity.
  - exfalso. vm_compute in E. discriminate E.
  - exact E.
Defined.

(** A run of X14: an SRM with one empty VRL, for a connector that revokes
    one KSV. *)
Lemma update_srm_empty_keeps_revocations_witness :
  intel_hdcp_update_srm 7 BenchHooks.empty_update_start =
    (Next tt,
     {| hw := BenchHooks.empty_update;
        conn := with_srm_blob_id 7
                  (Bench.connector DESIRED (Live BenchHooks.good_ksv) 1);
        trace := [EvLog "SRM ID: 0x%x, SRM Ver: 0x%x, SRM Gen No: 0x%x";
                  EvLog "Revocated KSV count is 0"] |}).
Proof.
  refine (proj1 (update_srm_empty_keeps_revocations (plat := Bench.plat)
                   7 BenchSrm.header [[]] BenchSrm.sig
                   BenchHooks.empty_update_start BenchHooks.empty_update
                   eq_refl eq_refl eq_refl eq_refl _ _ eq_refl _ eq_refl)).
  - repeat constructor.
  - discriminate.
  - vm_compute. reflexivity.
Defined.

(** A run of X15: the receiver of the bench is enabled. *)
Lemma enable_success_is_confirmed_witness :
  fst (_intel_hdcp_enable (BenchHooks.ready_start DESIRED)) = Return 0 /\
  confirmed (plat := Bench.plat) PORT_B.
Proof.
  split; [vm_compute; reflexivity |].
  refine (proj2 (enable_success_is_confirmed (plat := Bench.plat)
                   (BenchHooks.ready_start DESIRED)
                   (snd (_intel_hdcp_enable (BenchHooks.ready_start DESIRED)))
                   PORT_B eq_refl) _).
  vm_compute. reflexivity.
Defined.

(** A run of X17: the keys of the bench are loaded already. *)
Lemma load_keys_success_means_loaded_witness :
  fst (intel_hdcp_load_keys (BenchHooks.ready_start DESIRED)) = Return 0 /\
  trace (snd (intel_hdcp_load_keys (BenchHooks.ready_start DESIRED))) = [].
Proof.
  split; [vm_compute; reflexivity |].
  destruct (load_keys_success_means_loaded (plat := Bench.plat)
              (BenchHooks.ready_start DESIRED)
              (snd (intel_hdcp_load_keys (BenchHooks.ready_start DESIRED))))
    as [(_ & _ & E) | (_ & t & E)].
  - vm_compute. reflexivity.
  - exact E.
  - exfalso. vm_compute in E. destruct t as [| ? [| ? ?]]; discriminate E.
Defined.

End BenchRuns.
